(** * LowLlamaBasic: the inference engine of [src/model.cpp], embedded in Rocq

    The development follows the source file top to bottom: machine integers
    and loops, the [float] interface, the bf16 codec, activations, the model
    record and its two loaders, the operator library and the forward
    pipeline.  Theorems come after the definitions.

    Conventions.
    - [unsigned] values are [nat]s; every [unsigned] arithmetic expression of
      the source is wrapped in [u32], the reduction modulo 2^32.  [size_t]
      values are sizes of arrays that exist in memory and are plain [nat]s.
    - [float] is a type [F] with the operations of the class [FloatOps];
      three instances are given: binary32 values (IEEE single precision, on
      [spec_float]), the floats as their 32-bit objects ([Word32]) and the
      exact reals.
    - An array access outside its array is undefined in the source; here a
      read returns the indeterminate value [funinit] and a write is dropped.
      Integer division by zero and the pointer range of the final arg-max
      are tracked as faults. *)

From Stdlib Require Import ZArith NArith PeanoNat List Lia Bool Reals Lra.
From Stdlib Require Import Floats.SpecFloat Strings.Byte.
From stdpp Require Import base option list gmap strings pretty.

Set Warnings "-register-all,-abstract-large-number".

(* ================================================================== *)
(** * Machine integers *)

Definition two32 : N := 4294967296.

(** [unsigned] arithmetic: the value modulo 2^32. *)
Definition u32 (n : nat) : nat := N.to_nat (N.of_nat n mod two32).

Notation "a *! b" := (u32 (a * b)) (at level 40, left associativity).
Notation "a +! b" := (u32 (a + b)) (at level 50, left associativity).

(** [uint64_t] arithmetic. *)
Definition two64 : N := 18446744073709551616.
Definition u64 (n : nat) : nat := N.to_nat (N.of_nat n mod two64).
Definition fits64 (n : nat) : Prop := (N.of_nat n < two64)%N.

(** [n] is representable as an [unsigned]. *)
Definition fits32 (n : nat) : Prop := (N.of_nat n < two32)%N.

(** [int16_t] values and their 16-bit patterns. *)
Definition int16 (v : Z) : Prop := (-32768 <= v < 32768)%Z.
Definition u16 (v : Z) : Z := (v mod 65536)%Z.
Definition s16 (w : Z) : Z := if (w <? 32768)%Z then w else (w - 65536)%Z.

(** The [n] integers from [z] upwards; [int16_values] are all [int16_t]
    values. *)
Fixpoint z_range (n : nat) (z : Z) : list Z :=
  match n with
  | O => []
  | S n' => z :: z_range n' (z + 1)
  end.

Definition int16_values : list Z := z_range 65536 (-32768).

(* ================================================================== *)
(** * Outcomes

    [Ok] is a normal return.  A fault is behaviour the source does not
    define (or, for [Thrown], a C++ exception that nothing catches: [main]
    has no handler, so the process ends with the exception).

    Memory.  An allocation of a finite size is taken to succeed: the
    machine has the memory a run asks for, and [std::bad_alloc] on a
    machine that has not is outside the model.  Two failures of allocation
    do not depend on the machine and are modelled: a request above
    [max_size()] of the vector ([std::length_error]), and a loop that
    allocates without end, which exhausts every memory ([std::bad_alloc]). *)

Inductive exn :=
| InvalidArgument (msg : string)      (* std::invalid_argument *)
| JsonTypeError (what : string)       (* nlohmann::json type_error *)
| LengthError (what : string)         (* std::length_error *)
| BadAlloc.                           (* std::bad_alloc *)

Inductive fault :=
| DivByZero                           (* integer division by zero *)
| OutOfBounds                         (* a pointer range outside its array *)
| NoReturn                            (* a loop that does not end *)
| Thrown (e : exn).

Inductive result (A : Type) :=
| Ok (a : A)
| Err (f : fault).
Arguments Ok {A} a.
Arguments Err {A} f.

#[global] Instance result_ret : MRet result := fun _ a => Ok a.
#[global] Instance result_bind : MBind result := fun _ _ k r =>
  match r with
  | Ok a => k a
  | Err f => Err f
  end.

Definition is_ok {A} (r : result A) : bool :=
  match r with Ok _ => true | Err _ => false end.

(* ================================================================== *)
(** * Loops *)

(** [for (auto i = 0u; i < n; ++i) body], for a bound the counter can reach
    (see [for_u32_for_] for the agreement with the machine loop).  The
    counter is an [unsigned]; where the bound is a [size_t] (the size of an
    activation, a number of rows), the loop of the source ends only for a
    bound below 2^32, and [for_] stands for it on that domain only: the
    theorems about runs of the operators carry the bounds ([fits32],
    [loops_fit]). *)
Definition for_ {S : Type} (n : nat) (body : nat -> S -> S) (s : S) : S :=
  fold_left (fun s i => body i s) (seq 0 n) s.

(** A loop run on a budget of iterations: [None] when the budget ends
    before the condition fails. *)
Fixpoint while_ {S : Type} (fuel : nat) (cond : S -> bool) (body : S -> S)
    (s : S) : option S :=
  match fuel with
  | O => None
  | Datatypes.S fuel' =>
      if cond s then while_ fuel' cond body (body s) else Some s
  end.

(** [for (i = 0; i < n; i += step) body] with the counter as the machine
    has it: an integer that wraps ([wrap] is [u32] or [u64]).  A run of the
    loop that ends visits pairwise different counters below [n], so a
    budget of [S n] tests is enough for every run that ends: a result of
    [None] at that budget stands for a loop that does not end. *)
Definition for_wrap {S : Type} (wrap : nat -> nat) (fuel : nat) (n step : nat)
    (body : nat -> S -> S) (s : S) : option S :=
  snd <$> while_ fuel (fun st => fst st <? n)
                 (fun st => (wrap (fst st + step), body (fst st) (snd st)))
                 (0, s).

Definition for_u32 {S : Type} := @for_wrap S u32.
Definition for_u64 {S : Type} := @for_wrap S u64.

(** The same loop when nothing wraps: the counters [0, step, 2 step, ...]
    below [n]. *)
Definition for_step {S : Type} (n step : nat) (body : nat -> S -> S)
    (s : S) : S :=
  for_ ((n + step - 1) / step) (fun r => body (r * step)) s.

(* ================================================================== *)
(** * The [float] interface *)

Class FloatOps (F : Type) := {
  fofZ : Z -> F;            (* conversion of an integer; also the literals *)
  fbits : Z -> F;           (* the float with the given 32-bit pattern *)
  funinit : F;              (* content of storage nobody wrote *)
  fadd : F -> F -> F;
  fsub : F -> F -> F;
  fmul : F -> F -> F;
  fdiv : F -> F -> F;
  fneg : F -> F;
  fltb : F -> F -> bool;    (* operator< *)
  fsqrt : F -> F;           (* std::sqrt *)
  fexp : F -> F             (* std::exp *)
}.

(** What the rotary embedding needs besides. *)
Class FloatTrig (F : Type) := {
  fpow : F -> F -> F;       (* std::pow *)
  fcos : F -> F;            (* std::cos *)
  fsin : F -> F;            (* std::sin *)
  fpi : F                   (* static_cast<float>(M_PI) *)
}.

(* ================================================================== *)
(** * Basics: the bf16 codec *)

(** [union { float f; int16_t i[2]; }].  The source is written for
    little-endian targets: [i[0]] is the low half of [f]'s word, [i[1]]
    the high half. *)
Record union_f_i2 := { u_i0 : Z; u_i1 : Z }.

Definition union_f_bits (u : union_f_i2) : Z :=
  Z.lor (u16 (u_i0 u)) (Z.shiftl (u16 (u_i1 u)) 16).

Definition bf16_bits (value : Z) : Z :=
  union_f_bits {| u_i0 := 0; u_i1 := value |}.

Definition bf16_to_float {F} `{FloatOps F} (value : Z) : F :=
  fbits (bf16_bits value).

(** [unsigned] to [float]. *)
Definition fofN {F} `{FloatOps F} (n : nat) : F := fofZ (Z.of_nat n).

(** Re-encoding: the upper 16 bits of a word, as an [int16_t]. *)
Definition upper16 (w : Z) : Z := s16 (Z.shiftr w 16).

(* ================================================================== *)
(** * Activations *)

Section Activation.
Context {F : Type} `{FloatOps F}.

(** [Activation(n)]: [new float[n]], nothing written yet. *)
Definition alloc (n : nat) : list F := replicate n funinit.

(** [x.data[i]] read and written. *)
Definition rd (x : list F) (i : nat) : F := nth i x funinit.
Definition wr (x : list F) (i : nat) (v : F) : list F := <[i := v]> x.
End Activation.

(* ================================================================== *)
(** * The JSON values of the weight header

    What [json.hpp] does with the values the loader touches.  Numbers are
    the integers; [operator[]] on a missing key or index yields null (the
    non-const overloads insert it), on null it yields null, and on a value
    of another kind it throws; [get<T>()] throws unless the value has the
    kind of [T]. *)

Inductive json :=
| JNull
| JBool (b : bool)
| JNum (n : nat)
| JStr (s : string)
| JArr (l : list json)
| JObj (m : gmap string json).

Definition json_at (j : json) (key : string) : result json :=
  match j with
  | JObj m => Ok (default JNull (m !! key))
  | JNull => Ok JNull
  | _ => Err (Thrown (JsonTypeError "cannot use operator[] with a string argument"))
  end.

Definition json_idx (j : json) (i : nat) : result json :=
  match j with
  | JArr l => Ok (default JNull (l !! i))
  | JNull => Ok JNull
  | _ => Err (Thrown (JsonTypeError "cannot use operator[] with a numeric argument"))
  end.

Definition get_string (j : json) : result string :=
  match j with
  | JStr s => Ok s
  | _ => Err (Thrown (JsonTypeError "type must be string"))
  end.

Definition get_uint64 (j : json) : result nat :=
  match j with
  | JNum n => Ok (u64 n)
  | _ => Err (Thrown (JsonTypeError "type must be number"))
  end.

(** [header.erase(key)] and [header.items()], on an object. *)
Definition json_erase (j : json) (key : string) : result json :=
  match j with
  | JObj m => Ok (JObj (delete key m))
  | _ => Err (Thrown (JsonTypeError "cannot use erase()"))
  end.

Definition json_items (j : json) : list (string * json) :=
  match j with
  | JObj m => map_to_list m
  | _ => []
  end.

(* ================================================================== *)
(** * Byte streams and the byte vector *)

(** [std::istream]: the bytes not read yet and the state flag. *)
Record istream := { is_rest : list Byte.byte; is_good : bool }.

(** [file.read(dst, n)]: the next [n] bytes.  A stream with fewer bytes
    left hands out what it has and fails; a failed stream reads nothing. *)
Definition is_read (n : nat) (f : istream) : list Byte.byte * istream :=
  if is_good f then
    if n <=? length (is_rest f)
    then (take n (is_rest f), {| is_rest := drop n (is_rest f); is_good := true |})
    else (is_rest f, {| is_rest := []; is_good := false |})
  else ([], f).

(** [std::vector<char>]: [size()] elements at the front of an allocation
    of [capacity()] bytes. *)
Record vector_char := { v_size : nat; v_store : list Byte.byte }.

Definition v_capacity (v : vector_char) : nat := length (v_store v).

Definition vector_empty : vector_char := {| v_size := 0; v_store := [] |}.

(** [max_size()] of a [std::vector<char>] on a 64-bit target: the
    largest [ptrdiff_t], 2^63 - 1. *)
Definition max_size : N := 9223372036854775807.

(** The vector after [reserve(n)] has made room for [n] bytes: the
    elements and [size()] stay. *)
Definition v_grown (n : nat) (v : vector_char) : vector_char :=
  if v_capacity v <? n
  then {| v_size := v_size v;
          v_store := take (v_size v) (v_store v) ++ replicate (n - v_size v) Byte.x00 |}
  else v.

(** [v.reserve(n)]: [std::length_error] for a request above [max_size()],
    room for [n] bytes otherwise. *)
Definition v_reserve (n : nat) (v : vector_char) : result vector_char :=
  if (max_size <? N.of_nat n)%N
  then Err (Thrown (LengthError "vector::reserve"))
  else Ok (v_grown n v).

(** Bytes stored through the raw pointer [v.data() + i]. *)
Definition v_poke (v : vector_char) (i : nat) (bs : list Byte.byte) : vector_char :=
  if i + length bs <=? v_capacity v
  then {| v_size := v_size v;
          v_store := take i (v_store v) ++ bs ++ drop (i + length bs) (v_store v) |}
  else v.

(** The source's [struct Parameter] (the name is a reserved word of
    Rocq): a pointer into the vector's allocation, kept as the byte
    offset from [data()]. *)
Record ParameterPtr := { p_data : nat }.

(** [get_bf16()[i]]: the [int16_t] at bytes [2i] and [2i+1] from the
    pointer, low byte first. *)
Definition get_bf16 (store : list Byte.byte) (p : ParameterPtr) (i : nat) : Z :=
  let at_ (k : nat) := Z.of_N (Byte.to_N (nth (p_data p + k) store Byte.x00)) in
  s16 (at_ (2 * i)%nat + 256 * at_ (2 * i + 1)%nat)%Z.

(* ================================================================== *)
(** * Model *)

Record Layer := {
  attnNorm : ParameterPtr;
  attnQ : ParameterPtr;
  attnK : ParameterPtr;
  attnV : ParameterPtr;
  attnO : ParameterPtr;
  mlpNorm : ParameterPtr;
  mlpUp : ParameterPtr;
  mlpGate : ParameterPtr;
  mlpDown : ParameterPtr
}.

Record Model {F : Type} := {
  nLayers : nat;
  dVocab : nat;
  dModel : nat;
  dFFN : nat;
  dAttnHead : nat;
  dAttnKV : nat;
  dAttnQ : nat;
  ropeFreq : list F;
  normEps : F;
  embedTokens : ParameterPtr;
  layers : list Layer;
  finalNorm : ParameterPtr;
  _parameterData : vector_char
}.
Arguments Model F : clear implicits.

(** The fields of the configuration document, as [get<unsigned>()] and
    [get<float>()] deliver them. *)
Record Config {F : Type} := {
  num_hidden_layers : nat;
  vocab_size : nat;
  hidden_size : nat;
  intermediate_size : nat;
  head_dim : nat;
  num_key_value_heads : nat;
  num_attention_heads : nat;
  rms_norm_eps : F;
  rope_theta : F;
  rope_factor : F;
  low_freq_factor : F;
  high_freq_factor : F;
  original_max_position_embeddings : nat
}.
Arguments Config F : clear implicits.

Section Loaders.
Context {F : Type} `{FloatOps F} `{FloatTrig F}.

(** [std::clamp(v, lo, hi)]. *)
Definition clamp (v lo hi : F) : F :=
  if fltb v lo then lo else if fltb hi v then hi else v.

(** The body of the frequency loop of [loadConfig] at counter [i]: the
    value pushed onto [m.ropeFreq]. *)
Definition rope_entry (c : Config F) (i : nat) : F :=
  let freq := fpow (rope_theta c) (fdiv (fneg (fofN i)) (fofN (head_dim c))) in
  let z := fdiv (fsub (fdiv (fmul (fofN (original_max_position_embeddings c)) freq)
                            (fmul (fofZ 2) fpi))
                      (low_freq_factor c))
                (fsub (high_freq_factor c) (low_freq_factor c)) in
  let z := clamp z (fofZ 0) (fofZ 1) in
  fmul freq (fadd (fdiv (fsub (fofZ 1) z) (rope_factor c)) z).

(** A [Parameter] before [loadParameters] sets it. *)
Definition no_parameter : ParameterPtr := {| p_data := 0 |}.

(** The frequency loop pushes onto [m.ropeFreq] at every turn; when its
    condition never fails the vector grows until [push_back] throws
    [std::bad_alloc]. *)
Definition loadConfig (c : Config F) : result (Model F) :=
  if num_key_value_heads c =? 0 then Err DivByZero else
  match for_u32 (S (head_dim c)) (head_dim c) 2
                (fun i freqs => freqs ++ [rope_entry c i]) [] with
  | None => Err (Thrown BadAlloc)
  | Some freqs =>
      Ok {| nLayers := num_hidden_layers c;
            dVocab := vocab_size c;
            dModel := hidden_size c;
            dFFN := intermediate_size c;
            dAttnHead := head_dim c;
            dAttnKV := num_key_value_heads c;
            dAttnQ := num_attention_heads c / num_key_value_heads c;
            ropeFreq := freqs;
            normEps := rms_norm_eps c;
            embedTokens := no_parameter;
            layers := [];
            finalNorm := no_parameter;
            _parameterData := vector_empty |}
  end.

(** ** [loadParameters]

    The source first reads the 8-byte length and the header text and
    hands the text to [json::parse]; the embedding starts from the parsed
    [header] and the stream [file] positioned at the tensor region. *)

Definition chunkSize : nat := 65536.
#[global] Arguments chunkSize : simpl never.

Definition end_offset (e : json) : result nat :=
  a ← json_at e "data_offsets"; o ← json_idx a 1; get_uint64 o.

Definition max_offset (header : json) : result nat :=
  foldl (fun acc e => m ← acc; o ← end_offset (snd e); mret (Nat.max m o))
        (Ok 0) (json_items header).

(** The chunk loop: [file.read(data() + i, min(chunkSize, maxOffset - i))]. *)
Definition read_chunks (maxOffset : nat) (data : vector_char) (file : istream)
    : result (vector_char * istream) :=
  match for_u64 (S maxOffset) maxOffset chunkSize
                (fun i st =>
                   let r := is_read (Nat.min chunkSize (maxOffset - i)) (snd st) in
                   (v_poke (fst st) i (fst r), snd r))
                (data, file) with
  | None => Err NoReturn
  | Some st => Ok st
  end.

(** The lambda [load]. *)
Definition load (header : json) (name : string) : result ParameterPtr :=
  j ← json_at header ("model." +:+ name +:+ ".weight");
  d ← json_at j "dtype";
  dtype ← get_string d;
  if decide (dtype = "BF16") then
    a ← json_at j "data_offsets";
    o ← json_idx a 0;
    start ← get_uint64 o;
    mret {| p_data := start |}
  else Err (Thrown (InvalidArgument "Non-BF16 data")).

Definition load_layer (header : json) (idx : nat) : result Layer :=
  let pre := "layers." +:+ pretty idx +:+ "." in
  aN ← load header (pre +:+ "input_layernorm");
  aQ ← load header (pre +:+ "self_attn.q_proj");
  aK ← load header (pre +:+ "self_attn.k_proj");
  aV ← load header (pre +:+ "self_attn.v_proj");
  aO ← load header (pre +:+ "self_attn.o_proj");
  mN ← load header (pre +:+ "post_attention_layernorm");
  mG ← load header (pre +:+ "mlp.gate_proj");
  mU ← load header (pre +:+ "mlp.up_proj");
  mD ← load header (pre +:+ "mlp.down_proj");
  mret {| attnNorm := aN; attnQ := aQ; attnK := aK; attnV := aV; attnO := aO;
          mlpNorm := mN; mlpUp := mU; mlpGate := mG; mlpDown := mD |}.

Definition load_layers (header : json) (n : nat) (ls : list Layer)
    : result (list Layer) :=
  for_ n (fun idx acc => ls ← acc; l ← load_layer header idx; mret (ls ++ [l]))
       (Ok ls).

Definition loadParameters (model : Model F) (header : json) (file : istream)
    : result (Model F) :=
  header ← json_erase header "__metadata__";
  maxOffset ← max_offset header;
  data ← v_reserve maxOffset (_parameterData model);
  st ← read_chunks maxOffset data file;
  embed ← load header "embed_tokens";
  ls ← load_layers header (nLayers model) (layers model);
  norm ← load header "norm";
  mret {| nLayers := nLayers model;
          dVocab := dVocab model;
          dModel := dModel model;
          dFFN := dFFN model;
          dAttnHead := dAttnHead model;
          dAttnKV := dAttnKV model;
          dAttnQ := dAttnQ model;
          ropeFreq := ropeFreq model;
          normEps := normEps model;
          embedTokens := embed;
          layers := ls;
          finalNorm := norm;
          _parameterData := fst st |}.
End Loaders.

(* ================================================================== *)
(** * Ops

    A weight argument [const bf16* weight] is the function from an index to
    the element the pointer reaches there. *)

Section Ops.
Context {F : Type} `{FloatOps F}.

Definition embeddingLookup (tokens : list nat) (weight : nat -> Z)
    (dModel : nat) : list F :=
  for_ (length tokens) (fun n y =>
    for_ dModel (fun i y =>
      wr y (n *! dModel +! i)
           (bf16_to_float (weight (nth n tokens 0 *! dModel +! i)))) y)
    (alloc (length tokens * dModel)).

(** One row of [rmsNorm], the body of the loop over [i0]. *)
Definition rmsNorm_row (x : list F) (weight : nat -> Z) (dModel : nat)
    (eps : F) (i0 : nat) (y : list F) : list F :=
  let sumSq := for_ dModel (fun i sumSq =>
                 fadd sumSq (fmul (rd x (i0 +! i)) (rd x (i0 +! i)))) (fofZ 0) in
  let norm := fdiv (fofZ 1) (fsqrt (fadd (fdiv sumSq (fofN dModel)) eps)) in
  for_ dModel (fun i y =>
    wr y (i0 +! i) (fmul (fmul (rd x (i0 +! i)) norm) (bf16_to_float (weight i)))) y.

Definition rmsNorm (x : list F) (weight : nat -> Z) (dModel : nat) (eps : F)
    : result (list F) :=
  match for_u32 (S (length x)) (length x) dModel
                (rmsNorm_row x weight dModel eps) (alloc (length x)) with
  | None => Err NoReturn
  | Some y => Ok y
  end.

(** The outer loop carries [#pragma omp parallel for]; its iterations
    write disjoint cells and read only [x] and [weight], so the order in
    which they run is not observable and the loop is taken in sequence. *)
Definition project (x : list F) (weight : nat -> Z) (dIn dOut : nat)
    : result (list F) :=
  if dIn =? 0 then Err DivByZero else
  Ok (for_ dOut (fun j y =>
        for_ (length x / dIn) (fun n y =>
          let dot := for_ dIn (fun i dot =>
                       fadd dot (fmul (rd x (n *! dIn +! i))
                                      (bf16_to_float (weight (j *! dIn +! i)))))
                       (fofZ 0) in
          wr y (n *! dOut +! j) dot) y)
        (alloc (length x / dIn * dOut))).

Definition rotate `{FloatTrig F} (x : list F) (freq : list F) (nHeads : nat)
    : result (list F) :=
  let headDim := u32 (2 * length freq) in
  if nHeads *! headDim =? 0 then Err DivByZero else
  Ok (for_ (length x / (nHeads *! headDim)) (fun n y =>
        for_ nHeads (fun h y =>
          for_ (length freq) (fun i y =>
            let idxRe := n *! nHeads *! headDim +! h *! headDim +! i in
            let idxIm := idxRe + length freq in
            let cosA := fcos (fmul (rd freq i) (fofN n)) in
            let sinA := fsin (fmul (rd freq i) (fofN n)) in
            let y := wr y idxRe (fsub (fmul cosA (rd x idxRe)) (fmul sinA (rd x idxIm))) in
            wr y idxIm (fadd (fmul cosA (rd x idxIm)) (fmul sinA (rd x idxRe)))) y) y)
        (alloc (length x))).

(** [std::max_element(first, last) - first] over the whole of [x]: the
    first position no later element is greater than. *)
Definition max_element (x : list F) : nat :=
  for_ (length x - 1) (fun k largest =>
    if fltb (rd x largest) (rd x (S k)) then S k else largest) 0.

Definition softmaxInPlace (x : list F) : list F :=
  let max := rd x (max_element x) in
  let st := for_ (length x) (fun i st =>
              let x := wr (fst st) i (fexp (fsub (rd (fst st) i) max)) in
              (x, fadd (snd st) (rd x i))) (x, fofZ 0) in
  let sum := snd st in
  for_ (length x) (fun i x => wr x i (fdiv (rd x i) sum)) (fst st).

(** The scores of query head [(sQ, iKV, iQ)], before the softmax. *)
Definition attn_scores (q k : list F) (dKV dQ dHead iKV sQ iQ : nat) : list F :=
  for_ (S sQ) (fun sKV scores =>
    let sum := for_ dHead (fun i sum =>
                 fadd sum (fmul (rd q (sQ *! dKV *! dQ *! dHead +! iKV *! dQ *! dHead
                                        +! iQ *! dHead +! i))
                                (rd k (sKV *! dKV *! dHead +! iKV *! dHead +! i))))
                 (fofZ 0) in
    wr scores sKV (fdiv sum (fsqrt (fofN dHead)))) (alloc (u32 (sQ + 1))).

(** The body of the three outer loops of [selfAttention]. *)
Definition attn_head (q k v : list F) (dKV dQ dHead iKV sQ iQ : nat)
    (out : list F) : list F :=
  let scores := softmaxInPlace (attn_scores q k dKV dQ dHead iKV sQ iQ) in
  for_ dHead (fun i out =>
    let sum := for_ (S sQ) (fun sKV sum =>
                 fadd sum (fmul (rd scores sKV)
                                (rd v (sKV *! dKV *! dHead +! iKV *! dHead +! i))))
                 (fofZ 0) in
    wr out (sQ *! dKV *! dQ *! dHead +! iKV *! dQ *! dHead +! iQ *! dHead +! i) sum)
    out.

Definition selfAttention (q k v : list F) (dKV dQ dHead : nat)
    : result (list F) :=
  if dKV *! dHead =? 0 then Err DivByZero else
  let dSeq := length k / (dKV *! dHead) in
  Ok (for_ dKV (fun iKV out =>
        for_ dSeq (fun sQ out =>
          for_ dQ (fun iQ out => attn_head q k v dKV dQ dHead iKV sQ iQ out) out) out)
        (alloc (length q))).

Definition addInPlace (lhs rhs : list F) : list F :=
  for_ (length lhs) (fun i lhs => wr lhs i (fadd (rd lhs i) (rd rhs i))) lhs.

Definition swiGluInPlace (x gate : list F) : list F :=
  for_ (length x) (fun i x =>
    wr x i (fmul (rd x i)
                 (fdiv (rd gate i) (fadd (fofZ 1) (fexp (fneg (rd gate i)))))))
    x.
End Ops.

(* ================================================================== *)
(** * Model ops *)

Section Pipeline.
Context {F : Type} `{FloatOps F} `{FloatTrig F}.

(** [p.get_bf16()] for a pointer [p] into the model's own buffer. *)
Definition weights (model : Model F) (p : ParameterPtr) : nat -> Z :=
  get_bf16 (v_store (_parameterData model)) p.

Definition attention (model : Model F) (layer : Layer) (x : list F)
    : result (list F) :=
  z ← rmsNorm x (weights model (attnNorm layer)) (dModel model) (normEps model);
  q ← project z (weights model (attnQ layer)) (dModel model)
              (dAttnKV model *! dAttnQ model *! dAttnHead model);
  k ← project z (weights model (attnK layer)) (dModel model)
              (dAttnKV model *! dAttnHead model);
  v ← project z (weights model (attnV layer)) (dModel model)
              (dAttnKV model *! dAttnHead model);
  q ← rotate q (ropeFreq model) (dAttnKV model *! dAttnQ model);
  k ← rotate k (ropeFreq model) (dAttnKV model);
  mix ← selfAttention q k v (dAttnKV model) (dAttnQ model) (dAttnHead model);
  project mix (weights model (attnO layer))
          (dAttnKV model *! dAttnQ model *! dAttnHead model) (dModel model).

Definition mlp (model : Model F) (layer : Layer) (x : list F)
    : result (list F) :=
  z ← rmsNorm x (weights model (mlpNorm layer)) (dModel model) (normEps model);
  up ← project z (weights model (mlpUp layer)) (dModel model) (dFFN model);
  gate ← project z (weights model (mlpGate layer)) (dModel model) (dFFN model);
  project (swiGluInPlace up gate) (weights model (mlpDown layer))
          (dFFN model) (dModel model).

(** The loop of [predict] over [model.layers]. *)
Definition forward_layers (model : Model F) (hidden : list F)
    : result (list F) :=
  foldl (fun acc layer =>
           hidden ← acc;
           a ← attention model layer hidden;
           let hidden := addInPlace hidden a in
           m ← mlp model layer hidden;
           mret (addInPlace hidden m))
        (Ok hidden) (layers model).

(** [predict] up to the logits. *)
Definition predict_logits (model : Model F) (tokens : list nat)
    : result (list F) :=
  let hidden := embeddingLookup tokens (weights model (embedTokens model))
                                (dModel model) in
  hidden ← forward_layers model hidden;
  hidden ← rmsNorm hidden (weights model (finalNorm model)) (dModel model)
                   (normEps model);
  project hidden (weights model (embedTokens model)) (dModel model)
          (dVocab model).

(** [std::max_element(first, last) - first] for two pointers into the
    array [a], given as offsets from [a.data]: an empty range is
    returned as it is, any other range is read. *)
Definition max_element_range (a : list F) (first last : Z) : result nat :=
  if (first =? last)%Z then Ok 0
  else if ((first <? 0) || (Z.of_nat (length a) <? last) || (last <? first))%Z
  then Err OutOfBounds
  else Ok (max_element (take (Z.to_nat (last - first)) (drop (Z.to_nat first) a))).

(** [predict]: the value of [nextToken] (the timer and the printing are
    left out). *)
Definition predict (model : Model F) (tokens : list nat) : result nat :=
  logits ← predict_logits model tokens;
  let begin := (Z.of_nat (length logits) - Z.of_nat (dVocab model))%Z in
  max_element_range logits begin (Z.of_nat (length logits)).
End Pipeline.

(* ================================================================== *)
(** * [float] as IEEE binary32 *)

Module Binary32.
Definition prec : Z := 24.
Definition emax : Z := 128.

Definition of_Z (z : Z) : spec_float := binary_normalize prec emax z 0 false.

(** The value of a 32-bit pattern: sign, 8 exponent bits, 23 fraction
    bits.  [spec_float] has one NaN, so the payload of a NaN is dropped. *)
Definition of_bits (w : Z) : spec_float :=
  let s := Z.testbit w 31 in
  let e := Z.land (Z.shiftr w 23) 255 in
  let m := Z.land w 8388607 in
  if (e =? 0)%Z then
    match m with
    | Zpos p => S754_finite s p (-149)
    | _ => S754_zero s
    end
  else if (e =? 255)%Z then
    if (m =? 0)%Z then S754_infinity s else S754_nan
  else
    match (m + 8388608)%Z with
    | Zpos p => S754_finite s p (e - 150)
    | _ => S754_nan
    end.

(** The pattern of a value, with the one NaN as the quiet NaN of sign 0
    and payload 0. *)
Definition to_bits (x : spec_float) : Z :=
  let sign (s : bool) : Z := (if s then 2147483648 else 0)%Z in
  match x with
  | S754_zero s => sign s
  | S754_infinity s => sign s + 2139095040
  | S754_nan => 2143289344
  | S754_finite s m e =>
      if (Zpos m <? 8388608)%Z then sign s + Zpos m
      else sign s + (e + 150) * 8388608 + (Zpos m - 8388608)
  end%Z.

(** Decoding a bf16 value and encoding the float again gives the word of
    the decoder back, or the decoded value is the NaN. *)
Definition bf16_value_round_trip (v : Z) : bool :=
  match of_bits (bf16_bits v) with
  | S754_nan => true
  | x => (to_bits x =? bf16_bits v)%Z
  end.

Definition one : spec_float := of_Z 1.

Definition is_finite (x : spec_float) : bool :=
  match x with
  | S754_zero _ | S754_finite _ _ _ => true
  | _ => false
  end.

(** [std::exp] at the arguments where Annex F of the C standard fixes its
    value; [exp_finite] is the library's result at a finite non-zero
    argument. *)
Definition expf (exp_finite : bool -> positive -> Z -> spec_float)
    (x : spec_float) : spec_float :=
  match x with
  | S754_nan => S754_nan
  | S754_infinity false => S754_infinity false
  | S754_infinity true => S754_zero false
  | S754_zero _ => one
  | S754_finite s m e => exp_finite s m e
  end.

(** One such library: e^x in fixed point with 80 fraction bits ([x] is
    split as [k ln 2 + r], e^r is summed from its power series), rounded
    to binary32. *)
Definition ln2_80 : Z := 837963523372001241319907.

Definition exp_series (r : Z) : Z :=
  snd (fold_left (fun ts j => let t := (fst ts * r / 2 ^ 80 / j)%Z in
                              (t, (snd ts + t)%Z))
                 (map Z.of_nat (seq 1 30)) (2 ^ 80, 2 ^ 80)%Z).

Definition exp_fixed (s : bool) (m : positive) (e : Z) : spec_float :=
  if (7 <? Zpos (digits2_pos m) + e)%Z
  then (if s then S754_zero false else S754_infinity false)
  else
    let x := Z.shiftl (cond_Zopp s (Zpos m)) (e + 80) in
    binary_normalize prec emax (exp_series (x mod ln2_80)) (x / ln2_80 - 80) false.

Definition ops (exp_finite : bool -> positive -> Z -> spec_float)
    : FloatOps spec_float :=
  {| fofZ := of_Z;
     fbits := of_bits;
     funinit := S754_nan;
     fadd := SFadd prec emax;
     fsub := SFsub prec emax;
     fmul := SFmul prec emax;
     fdiv := SFdiv prec emax;
     fneg := SFopp;
     fltb := SFltb;
     fsqrt := SFsqrt prec emax;
     fexp := expf exp_finite |}.

(** [-0.0] read as [+0.0], every other value as it is. *)
Definition unsigned_zero (x : spec_float) : spec_float :=
  match x with
  | S754_zero _ => S754_zero false
  | _ => x
  end.
End Binary32.

(* ================================================================== *)
(** * [float] as the real numbers: arithmetic without rounding *)

Module Ideal.
(** The real number a binary32 value stands for; NaN and the infinities
    stand for none and are read as 0. *)
Definition value (x : spec_float) : R :=
  match x with
  | S754_finite s m e => (IZR (cond_Zopp s (Zpos m)) * powerRZ 2 e)%R
  | _ => 0%R
  end.

Definition ltb (x y : R) : bool := if Rlt_dec x y then true else false.

#[global] Instance ops : FloatOps R :=
  {| fofZ := IZR;
     fbits := fun w => value (Binary32.of_bits w);
     funinit := 0%R;
     fadd := Rplus;
     fsub := Rminus;
     fmul := Rmult;
     fdiv := Rdiv;
     fneg := Ropp;
     fltb := ltb;
     fsqrt := sqrt;
     fexp := exp |}.

#[global] Instance trig : FloatTrig R :=
  {| fpow := Rpower; fcos := cos; fsin := sin; fpi := PI |}.
End Ideal.

(* ================================================================== *)
(** * Reference forms

    The statements below compare the code with these. *)

Section Reference.
Context {F : Type} `{FloatOps F} `{FloatTrig F}.

(** The rotary frequency for the even index [i] as the specification
    words it: [f = theta^(-i/headDim)],
    [z = clamp((originalMaxPositions f/(2 pi) - lowFreqFactor)
               / (highFreqFactor - lowFreqFactor), 0, 1)],
    frequency [f ((1 - z)/scaleFactor + z)]. *)
Definition spec_rope_freq (theta scaleFactor lowFreqFactor highFreqFactor : F)
    (originalMaxPositions headDim i : nat) : F :=
  let f := fpow theta (fdiv (fneg (fofN i)) (fofN headDim)) in
  let z := clamp (fdiv (fsub (fdiv (fmul (fofN originalMaxPositions) f)
                                   (fmul (fofZ 2) fpi))
                             lowFreqFactor)
                       (fsub highFreqFactor lowFreqFactor))
                 (fofZ 0) (fofZ 1) in
  fmul f (fadd (fdiv (fsub (fofZ 1) z) scaleFactor) z).
End Reference.

(** Cell [(sQ, iKV, iQ, i)] of a tensor of shape (seq, dKV, dQ, dHead) and
    cell [(sKV, iKV, i)] of one of shape (seq, dKV, dHead), as
    [selfAttention] computes their positions. *)
Definition q_index (dKV dQ dHead sQ iKV iQ i : nat) : nat :=
  sQ *! dKV *! dQ *! dHead +! iKV *! dQ *! dHead +! iQ *! dHead +! i.

Definition kv_index (dKV dHead sKV iKV i : nat) : nat :=
  sKV *! dKV *! dHead +! iKV *! dHead +! i.

Section AttentionReference.
Context {F : Type} `{FloatOps F}.

(** What [selfAttention] stores in cell [(sQ, iKV, iQ, i)] of its output:
    the softmax-weighted sum of the values of group [iKV] up to [sQ]. *)
Definition attn_value (q k v : list F) (dKV dQ dHead iKV sQ iQ i : nat) : F :=
  let scores := softmaxInPlace (attn_scores q k dKV dQ dHead iKV sQ iQ) in
  for_ (S sQ) (fun sKV sum =>
    fadd sum (fmul (rd scores sKV) (rd v (kv_index dKV dHead sKV iKV i))))
    (fofZ 0).

(** The dot product [project] stores in row [n], column [j]. *)
Definition dot_row (x : list F) (weight : nat -> Z) (dIn n j : nat) : F :=
  for_ dIn (fun i dot =>
    fadd dot (fmul (rd x (n *! dIn +! i)) (bf16_to_float (weight (j *! dIn +! i)))))
    (fofZ 0).

(** The value [rmsNorm] stores at offset [i] of the row that starts at
    [i0]. *)
Definition rms_value (x : list F) (weight : nat -> Z) (dModel : nat) (eps : F)
    (i0 i : nat) : F :=
  let sumSq := for_ dModel (fun i sumSq =>
                 fadd sumSq (fmul (rd x (i0 +! i)) (rd x (i0 +! i)))) (fofZ 0) in
  let norm := fdiv (fofZ 1) (fsqrt (fadd (fdiv sumSq (fofN dModel)) eps)) in
  fmul (fmul (rd x (i0 +! i)) norm) (bf16_to_float (weight i)).

(** The sum of a buffer, front to back. *)
Definition sum_of (x : list F) : F := fold_left fadd x (fofZ 0).
End AttentionReference.

(** No divisor of the forward pass is zero: the widths the operators
    divide sizes by, as [attention] and [mlp] compute them. *)
Definition dims_ok {F : Type} (m : Model F) : Prop :=
  0 < dModel m
  /\ 0 < dFFN m
  /\ dAttnKV m *! dAttnQ m *! dAttnHead m <> 0
  /\ dAttnKV m *! dAttnHead m <> 0
  /\ dAttnKV m *! dAttnQ m *! u32 (2 * length (ropeFreq m)) <> 0
  /\ dAttnKV m *! u32 (2 * length (ropeFreq m)) <> 0.

(** The logical names [loadParameters] passes to [load], in its order. *)
Definition layer_tensors (idx : nat) : list string :=
  (fun s => ("layers." +:+ pretty idx +:+ ".") +:+ s) <$>
    ["input_layernorm"; "self_attn.q_proj"; "self_attn.k_proj";
     "self_attn.v_proj"; "self_attn.o_proj"; "post_attention_layernorm";
     "mlp.gate_proj"; "mlp.up_proj"; "mlp.down_proj"].

Definition required_tensors (nLayers : nat) : list string :=
  "embed_tokens" :: concat (layer_tensors <$> seq 0 nLayers) ++ ["norm"].

(** The dtype the header records for a tensor, if it records one. *)
Definition tensor_dtype (header : json) (name : string) : option string :=
  match header with
  | JObj m =>
      match m !! ("model." +:+ name +:+ ".weight") with
      | Some (JObj e) =>
          match e !! "dtype" with
          | Some (JStr d) => Some d
          | _ => None
          end
      | _ => None
      end
  | _ => None
  end.

(** A header entry of the documented shape
    [{dtype: string, data_offsets: [start, end]}], the two offsets being
    integers of 64 bits. *)
Definition tensor_entry (j : json) : Prop :=
  exists (e : gmap string json) (d : string) (b n : nat),
    j = JObj e
    /\ e !! "dtype" = Some (JStr d)
    /\ e !! "data_offsets" = Some (JArr [JNum b; JNum n])
    /\ fits64 b /\ fits64 n.

Definition well_formed_header (header : json) : Prop :=
  exists m : gmap string json,
    header = JObj m
    /\ forall (k : string) (j : json),
         k <> "__metadata__" -> m !! k = Some j -> tensor_entry j.

(** A failure of [loadParameters] in getting its buffer, as opposed to one
    the header causes. *)
Definition allocation_failure (f : fault) : Prop :=
  f = Thrown BadAlloc \/ exists what : string, f = Thrown (LengthError what).


(* ================================================================== *)
(** * Reference forms for the loaders *)

(** The two numbers the header records for a tensor under
    [data_offsets], as [get<uint64_t>()] delivers them. *)
Definition tensor_offsets (header : json) (name : string) : option (nat * nat) :=
  match header with
  | JObj m =>
      match m !! ("model." +:+ name +:+ ".weight") with
      | Some (JObj e) =>
          match e !! "data_offsets" with
          | Some (JArr (JNum b :: JNum n :: _)) => Some (u64 b, u64 n)
          | _ => None
          end
      | _ => None
      end
  | _ => None
  end.

(** The pointers of a layer, in the order of [layer_tensors]. *)
Definition layer_pointers (l : Layer) : list nat :=
  p_data <$> [attnNorm l; attnQ l; attnK l; attnV l; attnO l;
              mlpNorm l; mlpGate l; mlpUp l; mlpDown l].

(** The [int16_t] two bytes stand for, low byte first. *)
Definition le16 (lo hi : Byte.byte) : Z :=
  s16 (Z.of_N (Byte.to_N lo) + 256 * Z.of_N (Byte.to_N hi))%Z.

(* ================================================================== *)
(** * Reference forms for the operators *)

Section OpsReference.
Context {F : Type} `{FloatOps F}.

(** The loop nest of [project] under [#pragma omp parallel for]: the
    threads share out the columns [j] and each runs its rows [n] in
    order, so the stores into [y] happen in some order of the pairs
    [(j, n)].  [project_scheduled] performs the stores in the order of a
    given schedule; the dot product of a pair is local to its iteration. *)
Definition project_scheduled (sched : list (nat * nat)) (x : list F)
    (weight : nat -> Z) (dIn dOut : nat) : result (list F) :=
  if dIn =? 0 then Err DivByZero else
  Ok (fold_left (fun y jn =>
        let dot := for_ dIn (fun i dot =>
                     fadd dot (fmul (rd x (snd jn *! dIn +! i))
                                    (bf16_to_float (weight (fst jn *! dIn +! i)))))
                     (fofZ 0) in
        wr y (snd jn *! dOut +! fst jn) dot) sched
        (alloc (length x / dIn * dOut))).

(** What [rotate] stores in cell [c] of head [h] at position [n]: the
    real part for [c] below the number of frequencies, the imaginary
    part of pair [c - length freq] above. *)
Definition rotate_value `{FloatTrig F} (x freq : list F) (nHeads n h c : nat) : F :=
  let half := length freq in
  let i := if c <? half then c else c - half in
  let idxRe := (n * nHeads + h) * (2 * half) + i in
  let idxIm := idxRe + half in
  let cosA := fcos (fmul (rd freq i) (fofN n)) in
  let sinA := fsin (fmul (rd freq i) (fofN n)) in
  if c <? half
  then fsub (fmul cosA (rd x idxRe)) (fmul sinA (rd x idxIm))
  else fadd (fmul cosA (rd x idxIm)) (fmul sinA (rd x idxRe)).

(** The stores of [rotate] for head [h] at position [n]: the loop over
    the pairs [i], with the indices as they are when nothing wraps. *)
Definition rotate_block `{FloatTrig F} (x freq : list F) (nHeads n h : nat)
    (y : list F) : list F :=
  for_ (length freq) (fun i y =>
    let idxRe := (n * nHeads + h) * (2 * length freq) + i in
    let y := wr y idxRe (rotate_value x freq nHeads n h i) in
    wr y (idxRe + length freq) (rotate_value x freq nHeads n h (i + length freq))) y.
End OpsReference.

(** Dimensions that carry [rows] positions through the forward pass: no
    width is zero, the rotary table has one frequency for each pair of a
    head, and every tensor fits 32-bit indexing. *)
Definition dims_fit {F : Type} (m : Model F) (rows : nat) : Prop :=
  0 < dModel m /\ 0 < dFFN m
  /\ 0 < dAttnKV m /\ 0 < dAttnQ m /\ 0 < dAttnHead m
  /\ 2 * length (ropeFreq m) = dAttnHead m
  /\ fits32 (dAttnKV m * dAttnQ m * dAttnHead m)
  /\ fits32 (rows * dModel m)
  /\ fits32 (rows * dFFN m)
  /\ fits32 (rows * (dAttnKV m * dAttnQ m * dAttnHead m))
  /\ fits32 (rows * dVocab m).

(** The loops of the forward pass count with an [unsigned] up to the
    number of tokens, the sizes of the activations and the size of the
    rotary table; they end when all of these are below 2^32.  The widths
    are the products [attention] computes. *)
Definition loops_fit {F : Type} (m : Model F) (rows : nat) : Prop :=
  fits32 rows
  /\ fits32 (rows * dModel m)
  /\ fits32 (rows * dFFN m)
  /\ fits32 (rows * (dAttnKV m *! dAttnQ m *! dAttnHead m))
  /\ fits32 (rows * (dAttnKV m *! dAttnHead m))
  /\ fits32 (length (ropeFreq m)).

(* ================================================================== *)
(** * [float] as its object representation

    A [float] kept as the 32 bits of its object, which is what the union of
    [bf16_to_float] writes and what a re-encoding of the float reads: every
    pattern is a value of its own, the NaNs with their payloads.  The
    arithmetic decodes the patterns, computes in binary32 and encodes the
    result; a NaN result is encoded as the quiet NaN of sign 0 and
    payload 0 (the payload a processor delivers is not modelled). *)

Module Word32.
Definition of_bits (w : Z) : Z := (w mod 4294967296)%Z.

Definition lift1 (op : spec_float -> spec_float) (a : Z) : Z :=
  Binary32.to_bits (op (Binary32.of_bits a)).

Definition lift2 (op : spec_float -> spec_float -> spec_float) (a b : Z) : Z :=
  Binary32.to_bits (op (Binary32.of_bits a) (Binary32.of_bits b)).

Definition ops (exp_finite : bool -> positive -> Z -> spec_float) : FloatOps Z :=
  {| fofZ := fun z => Binary32.to_bits (Binary32.of_Z z);
     fbits := of_bits;
     funinit := Binary32.to_bits S754_nan;
     fadd := lift2 (SFadd Binary32.prec Binary32.emax);
     fsub := lift2 (SFsub Binary32.prec Binary32.emax);
     fmul := lift2 (SFmul Binary32.prec Binary32.emax);
     fdiv := lift2 (SFdiv Binary32.prec Binary32.emax);
     fneg := lift1 SFopp;
     fltb := fun a b => SFltb (Binary32.of_bits a) (Binary32.of_bits b);
     fsqrt := lift1 (SFsqrt Binary32.prec Binary32.emax);
     fexp := lift1 (Binary32.expf exp_finite) |}.
End Word32.

(* ================================================================== *)
(** * Printing an activation *)

Section Printing.
Context {F : Type} `{FloatOps F}.

(** [out << a.data[i]], the text of a [float] as the stream formats it. *)
Variable show : F -> string.

(** [operator<<(std::ostream&, const Activation&)]: the text the stream
    has received, before and after. *)
Definition print_Activation (out : string) (a : list F) : string :=
  if length a <? 16 then
    for_ (length a) (fun i out =>
      let out := if i =? 0 then out else out +:+ ", " in
      out +:+ show (rd a i)) out
  else
    let out := out +:+ "(" +:+ pretty (length a) +:+ ") " in
    fold_left (fun out i =>
      let out := if i =? length a - 3 then out +:+ " ... "
                 else if i =? 0 then out else out +:+ ", " in
      out +:+ show (rd a i))
      [0; 1; 2; length a - 3; length a - 2; length a - 1] out.
End Printing.

(** The strings of a list with a separator between neighbours. *)
Fixpoint join_with (sep : string) (l : list string) : string :=
  match l with
  | [] => ""
  | [s] => s
  | s :: l' => s +:+ sep +:+ join_with sep l'
  end.

(* ================================================================== *)
(** * The driver: reading the tokens of a line

    [std::istringstream lineS(line)] and [lineS >> token] for an
    [unsigned], in the classic locale: white space is skipped, then an
    optional sign and the longest run of decimal digits are taken.  No
    digit, or a number above 2^32 - 1, sets [failbit]; on a [-] the number
    is negated in [unsigned]; [eofbit] is set when the scan reaches the
    end of the text. *)

Record istringstream := { ss_rest : string; ss_eof : bool; ss_fail : bool }.

Definition ss_good (ss : istringstream) : bool := negb (ss_eof ss) && negb (ss_fail ss).

Definition isspace (c : Ascii.ascii) : bool :=
  let n := Ascii.nat_of_ascii c in (n =? 32) || ((9 <=? n) && (n <=? 13)).

Definition digit_of (c : Ascii.ascii) : option nat :=
  let n := Ascii.nat_of_ascii c in
  if (48 <=? n) && (n <=? 57) then Some (n - 48) else None.

Fixpoint skipws (s : string) : string :=
  match s with
  | String c s' => if isspace c then skipws s' else s
  | EmptyString => s
  end.

(** The longest run of digits at the front of [s]: how many there are,
    their value after the digits read before, and the text behind. *)
Fixpoint scan_digits (s : string) (count value : nat) : nat * nat * string :=
  match s with
  | String c s' =>
      match digit_of c with
      | Some d => scan_digits s' (S count) (10 * value + d)
      | None => (count, value, s)
      end
  | EmptyString => (count, value, s)
  end.

Definition is_empty (s : string) : bool :=
  match s with EmptyString => true | _ => false end.

(** [lineS >> token]: the token, if the extraction succeeds, and the
    stream afterwards. *)
Definition extract_unsigned (ss : istringstream) : option nat * istringstream :=
  if negb (ss_good ss)
  then (None, {| ss_rest := ss_rest ss; ss_eof := ss_eof ss; ss_fail := true |})
  else
    match skipws (ss_rest ss) with
    | EmptyString => (None, {| ss_rest := ""; ss_eof := true; ss_fail := true |})
    | String c s' as s =>
        let negative := Ascii.nat_of_ascii c =? 45 in           (* '-' *)
        let signed := negative || (Ascii.nat_of_ascii c =? 43) in (* '+' *)
        let '(count, value, rest) := scan_digits (if signed then s' else s) 0 0 in
        if (count =? 0) || (two32 <=? N.of_nat value)%N
        then (None, {| ss_rest := rest; ss_eof := is_empty rest; ss_fail := true |})
        else (Some (if negative
                    then N.to_nat ((two32 - N.of_nat value) mod two32)
                    else value),
              {| ss_rest := rest; ss_eof := is_empty rest; ss_fail := false |})
    end.

(** Text behind a number: nothing, or something that is no digit. *)
Definition no_digit_next (s : string) : Prop :=
  match s with
  | EmptyString => True
  | String c _ => digit_of c = None
  end.

(** The stream [std::istringstream lineS(line)] starts with. *)
Definition ss_open (line : string) : istringstream :=
  {| ss_rest := line; ss_eof := false; ss_fail := false |}.

(** The loop [while (lineS.good()) { unsigned token; if (lineS >> token)
    tokens.push_back(token); }] of [main], on a budget of iterations and
    from a state of the stream and the vector. *)
Definition token_loop (fuel : nat) (st : istringstream * list nat)
    : option (istringstream * list nat) :=
  while_ fuel (fun st => ss_good (fst st))
         (fun st =>
            let r := extract_unsigned (fst st) in
            (snd r, match fst r with
                    | Some token => snd st ++ [token]
                    | None => snd st
                    end)) st.

Definition read_tokens (fuel : nat) (line : string) : option (list nat) :=
  snd <$> token_loop fuel (ss_open line, []).

(** The body of the loop of [main] for one line of the input: the tokens
    are read and [predict] runs twice on them; the result is the two
    tokens it prints (the times are left out). *)
Definition main_line {F : Type} `{FloatOps F} `{FloatTrig F}
    (model : Model F) (fuel : nat) (line : string) : result (list nat) :=
  match read_tokens fuel line with
  | None => Err NoReturn
  | Some tokens =>
      t1 ← predict model tokens;
      t2 ← predict model tokens;
      mret [t1; t2]
  end.
(* ================================================================== *)
(** * Concrete inputs *)

(** A small configuration over the reals, by its head counts and head
    dimension; the other fields are those of a Llama 3.2 configuration. *)
Definition cfg0 (heads kv hd : nat) : Config R :=
  {| num_hidden_layers := 1;
     vocab_size := 6;
     hidden_size := 4;
     intermediate_size := 8;
     head_dim := hd;
     num_key_value_heads := kv;
     num_attention_heads := heads;
     rms_norm_eps := 1e-5%R;
     rope_theta := 500000%R;
     rope_factor := 32%R;
     low_freq_factor := 1%R;
     high_freq_factor := 4%R;
     original_max_position_embeddings := 8192 |}.

(** A header entry [{dtype, data_offsets: [b, e]}]. *)
Definition tensor (dtype : string) (b e : nat) : json :=
  JObj (<["dtype" := JStr dtype]> (<["data_offsets" := JArr [JNum b; JNum e]]> ∅)).

(** The header of a container for a model without layers: the metadata
    entry and the two tensors such a model needs, four bytes each. *)
Definition header_two : json :=
  JObj (<["__metadata__" := JObj (<["format" := JStr "pt"]> ∅)]>
       (<["model.embed_tokens.weight" := tensor "BF16" 0 4]>
       (<["model.norm.weight" := tensor "BF16" 4 8]> ∅))).

(** A header that lacks the norm tensor. *)
Definition header_no_norm : json :=
  JObj (<["model.embed_tokens.weight" := tensor "BF16" 0 4]> ∅).

(** A tensor region of eight bytes. *)
Definition file8 : istream :=
  {| is_rest := [Byte.x01; Byte.x02; Byte.x03; Byte.x04;
                 Byte.x05; Byte.x06; Byte.x07; Byte.x08];
     is_good := true |}.

(** A binary32 model without layers, as [loadConfig] leaves it. *)
Definition model_no_layers : Model spec_float :=
  {| nLayers := 0;
     dVocab := 2;
     dModel := 1;
     dFFN := 1;
     dAttnHead := 2;
     dAttnKV := 1;
     dAttnQ := 1;
     ropeFreq := [Binary32.one];
     normEps := S754_zero false;
     embedTokens := no_parameter;
     layers := [];
     finalNorm := no_parameter;
     _parameterData := vector_empty |}.

(** binary32 values: 2^127, and buffers of one and two positions for one
    head of dimension one. *)
Definition big : spec_float := Binary32.of_Z (2 ^ 127).

Definition ones2 : list spec_float := [Binary32.one; Binary32.one].

(** A model over the reals with one layer: width 2, one head of dimension
    2, vocabulary 3, and sixteen parameter bytes every view starts in. *)
Definition layer_at (o : nat) : Layer :=
  {| attnNorm := {| p_data := o |};
     attnQ := {| p_data := o |};
     attnK := {| p_data := o |};
     attnV := {| p_data := o |};
     attnO := {| p_data := o |};
     mlpNorm := {| p_data := o |};
     mlpUp := {| p_data := o |};
     mlpGate := {| p_data := o |};
     mlpDown := {| p_data := o |} |}.

Definition model_one_layer : Model R :=
  {| nLayers := 1;
     dVocab := 3;
     dModel := 2;
     dFFN := 1;
     dAttnHead := 2;
     dAttnKV := 1;
     dAttnQ := 1;
     ropeFreq := [1%R];
     normEps := 1e-5%R;
     embedTokens := {| p_data := 0 |};
     layers := [layer_at 4];
     finalNorm := {| p_data := 2 |};
     _parameterData :=
       {| v_size := 0;
          v_store := [Byte.x80; Byte.x3f; Byte.x00; Byte.x40; Byte.x40; Byte.x40;
                      Byte.x80; Byte.xbf; Byte.x00; Byte.x3f; Byte.x80; Byte.x3f;
                      Byte.x00; Byte.x40; Byte.x80; Byte.x3f] |} |}.


(** A header with the eleven tensors of a one-layer model, two bytes
    each, in the order the loader asks for them, and a stream of 22
    bytes. *)
Definition header_one_layer : json :=
  JObj (list_to_map
          (zip_with (fun name k => ("model." +:+ name +:+ ".weight",
                                    tensor "BF16" (2 * k) (2 * k + 2)))
                    (required_tensors 1) (seq 0 11))).

Definition file22 : istream :=
  {| is_rest := (fun n => default Byte.x00 (Byte.of_N (N.of_nat n))) <$> seq 1 22;
     is_good := true |}.

Definition model_cfg_one_layer : Model spec_float :=
  {| nLayers := 1;
     dVocab := 1;
     dModel := 1;
     dFFN := 1;
     dAttnHead := 2;
     dAttnKV := 1;
     dAttnQ := 1;
     ropeFreq := [Binary32.one];
     normEps := S754_zero false;
     embedTokens := no_parameter;
     layers := [];
     finalNorm := no_parameter;
     _parameterData := vector_empty |}.

(** [header_two] with one more entry, which is no tensor. *)
Definition header_note : gmap string json :=
  <["note" := JStr "converted"]>
    (<["model.embed_tokens.weight" := tensor "BF16" 0 4]>
    (<["model.norm.weight" := tensor "BF16" 4 8]> ∅)).

(* ================================================================== *)
(** * A model with a wide vocabulary

    A vocabulary of 2^31 entries over a model of width 1 with no layer.
    The embedding table holds one bf16 value per token: -1.0 for token 0,
    1.0 for token 1 and 0 for every other token; the final norm weight is
    the 1.0 at byte 2.  The buffer has the 2^32 bytes of the table. *)

Definition wide_vocab : nat := N.to_nat 2147483648.
#[global] Arguments wide_vocab : simpl never.

Definition wide_store : list Byte.byte :=
  Byte.x80 :: Byte.xbf :: Byte.x80 :: Byte.x3f
    :: replicate (N.to_nat 4294967292) Byte.x00.
#[global] Arguments wide_store : simpl never.

Definition model_wide : Model R :=
  {| nLayers := 0;
     dVocab := wide_vocab;
     dModel := 1;
     dFFN := 1;
     dAttnHead := 2;
     dAttnKV := 1;
     dAttnQ := 1;
     ropeFreq := [1%R];
     normEps := 1%R;
     embedTokens := {| p_data := 0 |};
     layers := [];
     finalNorm := {| p_data := 2 |};
     _parameterData := {| v_size := 0; v_store := wide_store |} |}.

(* ================================================================== *)
(** * Part II: theorems *)

(* ================================================================== *)
(** * Facts on machine integers and loops *)

Lemma u32_fits (n : nat) : fits32 n -> u32 n = n.
Proof.
  unfold fits32, u32. intros Hn.
  rewrite N.mod_small by exact Hn. apply Nat2N.id.
Qed.

Lemma fits32_le (n m : nat) : n <= m -> fits32 m -> fits32 n.
Proof. unfold fits32. lia. Qed.

Lemma u32_lt (n : nat) : fits32 (u32 n).
Proof.
  unfold fits32, u32. rewrite N2Nat.id.
  apply N.mod_lt. discriminate.
Qed.

Lemma for__0 {S} (body : nat -> S -> S) s : for_ 0 body s = s.
Proof. reflexivity. Qed.

Lemma for__S {S} n (body : nat -> S -> S) s :
  for_ (Datatypes.S n) body s = body n (for_ n body s).
Proof.
  unfold for_. rewrite seq_S, fold_left_app. reflexivity.
Qed.

(** Invariant rule. *)
Lemma for__ind {S} (P : nat -> S -> Prop) n (body : nat -> S -> S) s :
  P 0 s ->
  (forall i t, i < n -> P i t -> P (Datatypes.S i) (body i t)) ->
  P n (for_ n body s).
Proof.
  intros H0 Hstep. induction n as [|n IH].
  - exact H0.
  - rewrite for__S. apply Hstep; [lia|]. apply IH.
    intros i t Hi. apply Hstep. lia.
Qed.

(** Two bodies that agree below the bound give the same loop. *)
Lemma for__ext {S} n (f g : nat -> S -> S) s :
  (forall i t, i < n -> f i t = g i t) -> for_ n f s = for_ n g s.
Proof.
  intros Hfg. induction n as [|n IH].
  - reflexivity.
  - rewrite !for__S, IH by (intros; apply Hfg; lia). apply Hfg. lia.
Qed.

(* ================================================================== *)
(** * The bf16 codec: theorems *)

Lemma bf16_bits_mul (v : Z) : bf16_bits v = (u16 v * 65536)%Z.
Proof.
  unfold bf16_bits, union_f_bits, u16. simpl u_i0. simpl u_i1.
  rewrite Z.shiftl_mul_pow2 by lia. reflexivity.
Qed.

Lemma s16_u16 (v : Z) : int16 v -> s16 (u16 v) = v.
Proof.
  unfold int16, s16, u16. intros Hv.
  destruct (Z.ltb_spec (v mod 65536) 32768) as [Hlt|Hge].
  - destruct (Z.le_gt_cases 0 v).
    + rewrite Z.mod_small; lia.
    + assert (v mod 65536 = v + 65536)%Z; [|lia].
      symmetry. apply (Z.mod_unique_pos _ _ (-1)); lia.
  - destruct (Z.le_gt_cases 0 v).
    + rewrite Z.mod_small in Hge; lia.
    + assert (v mod 65536 = v + 65536)%Z; [|lia].
      symmetry. apply (Z.mod_unique_pos _ _ (-1)); lia.
Qed.

Lemma in_z_range (n : nat) (z v : Z) :
  (z <= v < z + Z.of_nat n)%Z -> In v (z_range n z).
Proof.
  revert z. induction n as [|n IH]; intros z Hv.
  - lia.
  - simpl. destruct (Z.eq_dec z v) as [->|Hne]; [left; reflexivity|].
    right. apply IH. lia.
Qed.

(** All [int16_t] values, checked one by one. *)
Lemma bf16_value_round_trip_all (v : Z) :
  int16 v -> Binary32.bf16_value_round_trip v = true.
Proof.
  intros Hv.
  assert (Hall : forallb Binary32.bf16_value_round_trip int16_values = true)
    by (vm_compute; reflexivity).
  rewrite forallb_forall in Hall. apply Hall. unfold int16_values.
  apply in_z_range. unfold int16 in Hv.
  assert (Z.of_nat 65536 = 65536%Z) by reflexivity. lia.
Qed.

(** C4.  For every 16-bit stored value [v] the decoder returns the float
    whose 32-bit object has [v] in its upper 16 bits and zero in its lower
    16.  On floats kept as their 32 bits ([Word32]) [bf16_to_float v] is
    that word, for all 2^16 values of [v], the NaN patterns with their
    payloads included, and its upper 16 bits are [v] again.  The binary32
    value of the word is what the decoder returns on values; encoding
    that value gives the word once more unless the value is a NaN, whose
    payload the value does not keep. *)
Theorem bf16_round_trip (exp_finite : bool -> positive -> Z -> spec_float) (v : Z) :
  int16 v ->
  (0 <= @bf16_to_float Z (Word32.ops exp_finite) v < 4294967296)%Z
  /\ Z.land (@bf16_to_float Z (Word32.ops exp_finite) v) 65535 = 0%Z
  /\ Z.shiftr (@bf16_to_float Z (Word32.ops exp_finite) v) 16 = u16 v
  /\ upper16 (@bf16_to_float Z (Word32.ops exp_finite) v) = v
  /\ Binary32.of_bits (@bf16_to_float Z (Word32.ops exp_finite) v)
     = @bf16_to_float spec_float (Binary32.ops exp_finite) v
  /\ (@bf16_to_float spec_float (Binary32.ops exp_finite) v <> S754_nan ->
      Binary32.to_bits (@bf16_to_float spec_float (Binary32.ops exp_finite) v)
      = @bf16_to_float Z (Word32.ops exp_finite) v).
Proof.
  intros Hv. pose proof (bf16_value_round_trip_all v Hv) as Hrt.
  unfold Binary32.bf16_value_round_trip in Hrt.
  assert (Hu : (0 <= u16 v < 65536)%Z) by (unfold u16; apply Z.mod_pos_bound; lia).
  assert (Hword : @bf16_to_float Z (Word32.ops exp_finite) v = bf16_bits v).
  { unfold bf16_to_float. cbn [fbits Word32.ops]. unfold Word32.of_bits.
    rewrite bf16_bits_mul. apply Z.mod_small. lia. }
  assert (Hval : @bf16_to_float spec_float (Binary32.ops exp_finite) v
                 = Binary32.of_bits (bf16_bits v)) by reflexivity.
  rewrite Hword, Hval. rewrite bf16_bits_mul in *.
  assert (Hsh : Z.shiftr (u16 v * 65536) 16 = u16 v).
  { rewrite Z.shiftr_div_pow2 by lia. apply Z.div_mul. discriminate. }
  split; [lia|]. split; [|split; [|split; [|split]]].
  - change 65535%Z with (Z.ones 16). rewrite Z.land_ones by lia.
    apply Z.mod_mul. discriminate.
  - exact Hsh.
  - unfold upper16. rewrite Hsh. apply s16_u16, Hv.
  - reflexivity.
  - intros Hnan. destruct (Binary32.of_bits (u16 v * 65536)) eqn:Hx;
      try (apply Z.eqb_eq, Hrt). contradiction.
Qed.

Lemma bf16_round_trip_witness :
  int16 (-2)
  /\ upper16 (@bf16_to_float Z (Word32.ops Binary32.exp_fixed) (-2)) = (-2)%Z.
Proof.
  assert (H : int16 (-2)) by (unfold int16; lia).
  split; [exact H|].
  apply (proj1 (proj2 (proj2 (proj2 (bf16_round_trip Binary32.exp_fixed (-2) H))))).
Defined.

(* ================================================================== *)
(** * Machine loops and their closed forms *)

Lemma ceil_div_lt (n step r : nat) :
  0 < step -> (r < (n + step - 1) / step <-> r * step < n).
Proof.
  intros Hs.
  pose proof (Nat.div_mod_eq (n + step - 1) step) as Hd.
  pose proof (Nat.mod_upper_bound (n + step - 1) step) as Hm.
  split; intros Hr; nia.
Qed.

Lemma while__for_ {S} (wrap : nat -> nat)
    (step n rows : nat) (body : nat -> S -> S) :
  0 < step -> rows = (n + step - 1) / step ->
  (forall r, r < rows -> wrap (r * step + step) = r * step + step) ->
  forall k r s fuel, r + k = rows -> k < fuel ->
    while_ fuel (fun st => fst st <? n)
           (fun st => (wrap (fst st + step), body (fst st) (snd st)))
           (r * step, s)
    = Some (rows * step, fold_left (fun s i => body (i * step) s) (seq r k) s).
Proof.
  intros Hs Hrows Hwrap k. induction k as [|k IH]; intros r s fuel Hr Hfuel.
  - destruct fuel as [|fuel]; [lia|]. simpl.
    assert (r = rows) as -> by lia.
    destruct (Nat.ltb_spec (rows * step) n) as [Hlt|Hge]; [|reflexivity].
    apply (ceil_div_lt n step rows Hs) in Hlt. lia.
  - destruct fuel as [|fuel]; [lia|]. simpl.
    destruct (Nat.ltb_spec (r * step) n) as [Hlt|Hge].
    + rewrite Hwrap by lia.
      replace (r * step + step) with (Datatypes.S r * step) by lia.
      rewrite IH by lia. reflexivity.
    + assert (r < rows) as Hr' by lia. rewrite Hrows in Hr'.
      apply (ceil_div_lt n step r Hs) in Hr'. lia.
Qed.

Lemma for_wrap_exact {S} (wrap : nat -> nat) (n step fuel : nat)
    (body : nat -> S -> S) (s : S) :
  0 < step ->
  (forall r, r * step < n -> wrap (r * step + step) = r * step + step) ->
  (n + step - 1) / step < fuel ->
  for_wrap wrap fuel n step body s = Some (for_step n step body s).
Proof.
  intros Hs Hwrap Hfuel. unfold for_wrap, for_step, for_.
  rewrite (while__for_ wrap step n _ body Hs eq_refl) with (k := (n + step - 1) / step) (r := 0).
  - reflexivity.
  - intros r Hr. apply Hwrap. apply (ceil_div_lt n step r Hs). exact Hr.
  - lia.
  - exact Hfuel.
Qed.

Lemma ceil_div_le (n step : nat) : 0 < step -> (n + step - 1) / step <= n.
Proof.
  intros Hs.
  pose proof (Nat.div_mod_eq (n + step - 1) step) as Hd.
  pose proof (Nat.mod_upper_bound (n + step - 1) step) as Hm.
  nia.
Qed.

(** A counted loop with [++i] and a bound the counter can hold runs as [for_]. *)
Lemma for_u32_for_ {S} (n : nat) (body : nat -> S -> S) (s : S) :
  fits32 n -> for_u32 (Datatypes.S n) n 1 body s = Some (for_ n body s).
Proof.
  intros Hn. unfold for_u32. rewrite for_wrap_exact.
  - unfold for_step. rewrite Nat.add_sub, Nat.div_1_r. f_equal.
    apply for__ext. intros i t _. rewrite Nat.mul_1_r. reflexivity.
  - lia.
  - intros r Hr. apply u32_fits. unfold fits32 in *. lia.
  - rewrite Nat.add_sub, Nat.div_1_r. lia.
Qed.

(** Appending one value per iteration builds the list of the values. *)
Lemma for__push {A} (n : nat) (f : nat -> A) (l : list A) :
  for_ n (fun i acc => acc ++ [f i]) l = l ++ (f <$> seq 0 n).
Proof.
  induction n as [|n IH].
  - rewrite for__0. simpl. rewrite app_nil_r. reflexivity.
  - rewrite for__S, IH, seq_S, fmap_app. simpl. rewrite <- app_assoc. reflexivity.
Qed.

(** A loop whose condition holds on an invariant of its body never ends. *)
Lemma while__diverges {S} (I : S -> Prop) (cond : S -> bool) (body : S -> S) :
  (forall s, I s -> cond s = true) ->
  (forall s, I s -> I (body s)) ->
  forall fuel s, I s -> while_ fuel cond body s = None.
Proof.
  intros Hcond Hbody fuel. induction fuel as [|fuel IH]; intros s Hs; simpl.
  - reflexivity.
  - rewrite (Hcond s Hs). apply IH, Hbody, Hs.
Qed.

Lemma u32_even_step (i : nat) :
  (N.of_nat i mod 2 = 0)%N -> (N.of_nat (u32 (i + 2)) mod 2 = 0)%N.
Proof.
  unfold u32, two32. rewrite N2Nat.id. intros Hi.
  zify. Z.to_euclidean_division_equations. lia.
Qed.

(* ================================================================== *)
(** * [loadConfig] *)

Section ConfigTheorems.
Context {F : Type} `{FloatOps F} `{FloatTrig F}.

Lemma rope_entry_spec (c : Config F) (i : nat) :
  rope_entry c i
  = spec_rope_freq (rope_theta c) (rope_factor c) (low_freq_factor c)
      (high_freq_factor c) (original_max_position_embeddings c) (head_dim c) i.
Proof. reflexivity. Qed.

Lemma rope_loop (c : Config F) :
  (N.of_nat (head_dim c) + 1 < two32)%N ->
  for_u32 (S (head_dim c)) (head_dim c) 2
          (fun i freqs => freqs ++ [rope_entry c i]) []
  = Some ((fun r => rope_entry c (r * 2)) <$> seq 0 ((head_dim c + 1) / 2)).
Proof.
  intros Hd. unfold for_u32. rewrite for_wrap_exact.
  - unfold for_step.
    replace (head_dim c + 2 - 1) with (head_dim c + 1) by lia.
    rewrite (for__push _ (fun r => rope_entry c (r * 2))). reflexivity.
  - lia.
  - intros r Hr. apply u32_fits. unfold fits32, two32 in *. lia.
  - pose proof (ceil_div_le (head_dim c) 2). lia.
Qed.

Lemma loadConfig_ok (c : Config F) :
  num_key_value_heads c <> 0 ->
  (N.of_nat (head_dim c) + 1 < two32)%N ->
  exists m, loadConfig c = Ok m
    /\ ropeFreq m = (fun r => rope_entry c (r * 2)) <$> seq 0 ((head_dim c + 1) / 2)
    /\ dAttnHead m = head_dim c.
Proof.
  intros Hkv Hd. unfold loadConfig.
  destruct (Nat.eqb_spec (num_key_value_heads c) 0) as [|_]; [contradiction|].
  rewrite (rope_loop c Hd). eexists. split; [reflexivity|]. split; reflexivity.
Qed.

(** C3 (amended).  For a head dimension other than 2^32 - 1, [loadConfig]
    returns a model whose frequency table has one entry per even index
    below [headDim], that is [(headDim + 1) / 2] entries ([headDim / 2]
    when [headDim] is even), and the entry for the even index [i], at
    position [i / 2], is the frequency the specification gives for [i]. *)
Theorem loadConfig_ropeFreq (c : Config F) :
  num_key_value_heads c <> 0 ->
  (N.of_nat (head_dim c) + 1 < two32)%N ->
  exists m, loadConfig c = Ok m
    /\ length (ropeFreq m) = (head_dim c + 1) / 2
    /\ (Nat.Even (head_dim c) -> length (ropeFreq m) = head_dim c / 2)
    /\ forall i, i < head_dim c -> Nat.Even i ->
         ropeFreq m !! (i / 2)
         = Some (spec_rope_freq (rope_theta c) (rope_factor c) (low_freq_factor c)
                   (high_freq_factor c) (original_max_position_embeddings c)
                   (head_dim c) i).
Proof.
  intros Hkv Hd. destruct (loadConfig_ok c Hkv Hd) as (m & Hm & Hfreq & _).
  exists m. split; [exact Hm|]. rewrite Hfreq, length_fmap, length_seq.
  split; [reflexivity|]. split.
  - intros [h Hh]. rewrite Hh.
    replace (2 * h + 1) with (1 + h * 2) by lia.
    rewrite Nat.div_add by lia.
    replace (2 * h) with (h * 2) by lia. rewrite Nat.div_mul by lia. reflexivity.
  - intros i Hi [h Hh]. subst i.
    replace (2 * h) with (h * 2) by lia. rewrite Nat.div_mul by lia.
    rewrite list_lookup_fmap, lookup_seq_lt.
    + simpl. rewrite rope_entry_spec. reflexivity.
    + apply Nat.div_le_lower_bound; lia.
Qed.

(** C6 (amended).  [loadConfig] stores [num_key_value_heads] and the
    integer quotient [num_attention_heads / num_key_value_heads]; their
    product is [num_attention_heads] less the remainder of that division,
    so it equals [num_attention_heads] exactly when the division leaves
    no remainder.  [loadParameters] keeps both fields. *)
Theorem loadConfig_heads (c : Config F) (m : Model F) :
  loadConfig c = Ok m ->
  dAttnKV m = num_key_value_heads c
  /\ dAttnQ m = num_attention_heads c / num_key_value_heads c
  /\ dAttnKV m * dAttnQ m
     = num_attention_heads c - num_attention_heads c mod num_key_value_heads c
  /\ (dAttnKV m * dAttnQ m = num_attention_heads c
      <-> num_attention_heads c mod num_key_value_heads c = 0)
  /\ forall header file m',
       loadParameters m header file = Ok m' ->
       dAttnKV m' = dAttnKV m /\ dAttnQ m' = dAttnQ m.
Proof.
  unfold loadConfig. intros Hm.
  destruct (Nat.eqb_spec (num_key_value_heads c) 0) as [|Hkv]; [discriminate|].
  destruct (for_u32 _ _ _ _ _) as [freqs|]; [|discriminate].
  injection Hm as <-. simpl.
  pose proof (Nat.div_mod_eq (num_attention_heads c) (num_key_value_heads c)) as Hdm.
  split; [reflexivity|]. split; [reflexivity|]. split; [lia|]. split; [lia|].
  intros header file m'. unfold loadParameters.
  destruct (json_erase header "__metadata__") as [h1|]; simpl; [|discriminate].
  destruct (max_offset h1) as [mo|]; simpl; [|discriminate].
  destruct (v_reserve _ _) as [data|]; simpl; [|discriminate].
  destruct (read_chunks _ _ _) as [st|]; simpl; [|discriminate].
  destruct (load h1 "embed_tokens") as [e|]; simpl; [|discriminate].
  destruct (load_layers _ _ _) as [ls|]; simpl; [|discriminate].
  destruct (load h1 "norm") as [nm|]; simpl; [|discriminate].
  intros Hm'. injection Hm' as <-. split; reflexivity.
Qed.
End ConfigTheorems.


Section Diverge.
Context {F : Type} `{FloatOps F} `{FloatTrig F}.

(** X2.  A head dimension of 2^32 - 1: the counter of the frequency loop
    steps from 2^32 - 2 to 0, so its condition holds at every turn, however
    many turns are run; every turn pushes one entry onto [ropeFreq], and
    [loadConfig] returns no model: it ends with [std::bad_alloc]. *)
Lemma loadConfig_bad_alloc (c : Config F) :
  num_key_value_heads c <> 0 ->
  (N.of_nat (head_dim c) = two32 - 1)%N ->
  (forall turns : nat,
     for_u32 turns (head_dim c) 2 (fun i freqs => freqs ++ [rope_entry c i]) [] = None)
  /\ (forall turns : nat,
        length (snd (Nat.iter turns
                       (fun st : nat * list F =>
                          (fst st +! 2, snd st ++ [rope_entry c (fst st)]))
                       (0, []))) = turns)
  /\ loadConfig c = Err (Thrown BadAlloc).
Proof.
  intros Hkv Hd.
  assert (Hloop : forall turns : nat,
            for_u32 turns (head_dim c) 2 (fun i freqs => freqs ++ [rope_entry c i]) []
            = None).
  { intros turns. unfold for_u32, for_wrap.
    rewrite (while__diverges
               (fun st : nat * list F =>
                  (N.of_nat (fst st) mod 2 = 0)%N /\ fits32 (fst st))).
    - reflexivity.
    - intros [i t] [Heven Hfit]. cbn [fst] in *. apply Nat.ltb_lt.
      unfold fits32, two32 in *.
      assert (N.of_nat i <> 4294967295)%N by (intros E; rewrite E in Heven; discriminate).
      lia.
    - intros [i t] [Heven _]. cbn [fst snd].
      split; [apply u32_even_step, Heven|apply u32_lt].
    - split; [reflexivity|]. vm_compute. reflexivity. }
  split; [exact Hloop|]. split.
  - intros turns. induction turns as [|turns IH]; [reflexivity|].
    rewrite Nat.iter_succ. cbn beta. cbn [snd]. rewrite length_app, IH. simpl. lia.
  - unfold loadConfig.
    destruct (Nat.eqb_spec (num_key_value_heads c) 0) as [|_]; [contradiction|].
    rewrite Hloop. reflexivity.
Qed.
End Diverge.

Lemma loadConfig_heads_witness :
  exists m : Model R, loadConfig (cfg0 6 2 4) = Ok m /\ dAttnKV m * dAttnQ m = 6.
Proof.
  eexists. split; [reflexivity|].
  exact (proj1 (proj2 (proj2 (loadConfig_heads (cfg0 6 2 4) _ eq_refl)))).
Defined.

Lemma loadConfig_heads_counterexample :
  exists m : Model R,
    loadConfig (cfg0 5 2 4) = Ok m
    /\ num_attention_heads (cfg0 5 2 4) = 5 /\ dAttnKV m * dAttnQ m = 4.
Proof. eexists. split; [reflexivity|]. split; reflexivity. Qed.

Lemma loadConfig_ropeFreq_counterexample :
  exists m : Model R,
    loadConfig (cfg0 1 1 3) = Ok m
    /\ length (ropeFreq m) = 2 /\ head_dim (cfg0 1 1 3) / 2 = 1.
Proof. eexists. split; [reflexivity|]. split; reflexivity. Qed.

Lemma loadConfig_ropeFreq_witness :
  exists m : Model R, loadConfig (cfg0 4 2 4) = Ok m /\ length (ropeFreq m) = 2.
Proof.
  assert (H1 : num_key_value_heads (cfg0 4 2 4) <> 0) by (simpl; lia).
  assert (H2 : (N.of_nat (head_dim (cfg0 4 2 4)) + 1 < two32)%N) by (vm_compute; reflexivity).
  destruct (loadConfig_ropeFreq (cfg0 4 2 4) H1 H2) as (m & Hm & Hlen & _).
  exists m. split; [exact Hm|exact Hlen].
Defined.

(* ================================================================== *)
(** * [loadParameters] *)

Lemma u64_fits (n : nat) : fits64 n -> u64 n = n.
Proof.
  unfold fits64, u64. intros Hn.
  rewrite N.mod_small by exact Hn. apply Nat2N.id.
Qed.

Lemma chunkSize_N : N.of_nat chunkSize = 65536%N.
Proof. reflexivity. Qed.

Lemma while__inv {S} (I : S -> Prop) (cond : S -> bool) (body : S -> S) :
  (forall s, I s -> I (body s)) ->
  forall fuel s s', I s -> while_ fuel cond body s = Some s' -> I s'.
Proof.
  intros Hbody fuel. induction fuel as [|fuel IH]; intros s s' Hs; simpl.
  - discriminate.
  - destruct (cond s).
    + apply IH, Hbody, Hs.
    + intros [= <-]. exact Hs.
Qed.

Lemma v_grown_size n v : v_size (v_grown n v) = v_size v.
Proof. unfold v_grown. destruct (_ <? _); reflexivity. Qed.

(** [reserve] returns the grown vector, for a request up to [max_size()]. *)
Lemma v_reserve_Ok n v d :
  v_reserve n v = Ok d -> d = v_grown n v /\ (N.of_nat n <= max_size)%N.
Proof.
  unfold v_reserve. destruct (N.ltb_spec max_size (N.of_nat n)); [discriminate|].
  intros [= <-]. split; [reflexivity|assumption].
Qed.

Lemma v_reserve_Err n v f :
  v_reserve n v = Err f ->
  f = Thrown (LengthError "vector::reserve") /\ (max_size < N.of_nat n)%N.
Proof.
  unfold v_reserve. destruct (N.ltb_spec max_size (N.of_nat n)); [|discriminate].
  intros [= <-]. split; [reflexivity|assumption].
Qed.

Lemma v_reserve_fits n v :
  (N.of_nat n <= max_size)%N -> v_reserve n v = Ok (v_grown n v).
Proof.
  intros Hn. unfold v_reserve.
  destruct (N.ltb_spec max_size (N.of_nat n)); [lia|reflexivity].
Qed.

Lemma v_poke_size v i bs : v_size (v_poke v i bs) = v_size v.
Proof. unfold v_poke. destruct (_ <=? _); reflexivity. Qed.

Lemma read_chunks_size mo data file st :
  read_chunks mo data file = Ok st -> v_size (fst st) = v_size data.
Proof.
  unfold read_chunks, for_u64, for_wrap.
  destruct (while_ _ _ _ _) as [[i st']|] eqn:Hw; simpl; [|discriminate].
  intros [= <-].
  apply (while__inv (fun s => v_size (fst (snd s)) = v_size data)) in Hw.
  - exact Hw.
  - intros [j s] Hs. cbn [fst snd] in *. rewrite v_poke_size. exact Hs.
  - reflexivity.
Qed.

Lemma v_grown_empty n : v_grown n vector_empty
  = {| v_size := 0; v_store := replicate n Byte.x00 |}.
Proof.
  unfold v_grown, vector_empty, v_capacity. simpl.
  destruct (Nat.ltb_spec 0 n) as [Hn|Hn].
  - rewrite Nat.sub_0_r. reflexivity.
  - assert (n = 0) as -> by lia. reflexivity.
Qed.

(** The chunk loop fills the allocation with the first [mo] bytes of the
    stream, when the stream has them. *)
Lemma read_chunks_store (mo : nat) (bytes : list Byte.byte) :
  (N.of_nat mo + 65536 <= two64)%N ->
  mo <= length bytes ->
  exists st,
    read_chunks mo (v_grown mo vector_empty) {| is_rest := bytes; is_good := true |}
    = Ok st
    /\ v_size (fst st) = 0
    /\ v_store (fst st) = take mo bytes.
Proof.
  intros Hmo Hlen. unfold read_chunks, for_u64. pose proof chunkSize_N as Hc.
  rewrite for_wrap_exact.
  2:{ lia. }
  2:{ intros r Hr. apply u64_fits. unfold fits64. lia. }
  2:{ pose proof (ceil_div_le mo chunkSize). lia. }
  eexists. split; [reflexivity|]. unfold for_step.
  set (rows := (mo + chunkSize - 1) / chunkSize).
  assert (Hrows : forall r, r < rows <-> r * chunkSize < mo).
  { intros r. apply ceil_div_lt. lia. }
  rewrite v_grown_empty.
  set (I := fun (r : nat) (st : vector_char * istream) =>
              let done := Nat.min (r * chunkSize) mo in
              v_size (fst st) = 0
              /\ v_store (fst st) = take done bytes ++ replicate (mo - done) Byte.x00
              /\ snd st = {| is_rest := drop done bytes; is_good := true |}).
  assert (HI : I rows
    (for_ rows (fun r st =>
        (v_poke (fst st) (r * chunkSize)
           (fst (is_read (Nat.min chunkSize (mo - r * chunkSize)) (snd st))),
         snd (is_read (Nat.min chunkSize (mo - r * chunkSize)) (snd st))))
      ({| v_size := 0; v_store := replicate mo Byte.x00 |},
       {| is_rest := bytes; is_good := true |}))).
  { apply for__ind.
    - unfold I. simpl. rewrite Nat.sub_0_r. auto.
    - intros r [v f] Hr (Hsz & Hst & Hf). simpl in Hsz, Hst, Hf. subst f.
      apply Hrows in Hr.
      rewrite Nat.min_l in Hst by lia. rewrite Nat.min_l by lia.
      set (i := r * chunkSize) in *. set (n := Nat.min chunkSize (mo - i)).
      assert (Hn : Nat.min (Datatypes.S r * chunkSize) mo = i + n)
        by (unfold n, i; lia).
      unfold I. rewrite Hn. unfold is_read. simpl is_good. simpl is_rest. cbv iota.
      assert (Hnl : n <= length (drop i bytes)) by (rewrite length_drop; lia).
      destruct (Nat.leb_spec n (length (drop i bytes))) as [_|?]; [|lia].
      simpl fst. simpl snd. unfold v_poke, v_capacity.
      rewrite Hst, length_app, length_take, length_replicate, length_take, length_drop.
      destruct (Nat.leb_spec (i + Nat.min n (length bytes - i))
                  (Nat.min i (length bytes) + (mo - i))) as [_|?]; [|lia].
      simpl. split; [exact Hsz|]. split.
      + rewrite take_app_length' by (rewrite length_take; lia).
        rewrite drop_app_ge by (rewrite length_take; lia).
        rewrite length_take, drop_replicate.
        rewrite app_assoc, take_take_drop. f_equal. f_equal. lia.
      + rewrite drop_drop. reflexivity. }
  destruct HI as (Hsz & Hst & _). split; [exact Hsz|].
  rewrite Hst. assert (Hdone : Nat.min (rows * chunkSize) mo = mo).
  { destruct (Nat.le_gt_cases mo (rows * chunkSize)); [lia|].
    assert (rows < rows) by (apply Hrows; lia). lia. }
  rewrite Hdone, Nat.sub_diag. simpl. apply app_nil_r.
Qed.

Section LoadTheorems.
Context {F : Type}.

Lemma tensor_key_ne (name : string) : "model." +:+ name +:+ ".weight" <> "__metadata__".
Proof. simpl. discriminate. Qed.

(** [load] on the erased header of a well-formed header. *)
Lemma load_cases (m : gmap string json) (name : string) :
  well_formed_header (JObj m) ->
  (tensor_dtype (JObj m) name = Some "BF16"
   /\ exists p, load (JObj (delete "__metadata__" m)) name = Ok p)
  \/ (tensor_dtype (JObj m) name <> Some "BF16"
      /\ exists f, load (JObj (delete "__metadata__" m)) name = Err f).
Proof.
  intros (m' & [= <-] & Hwf). unfold load, tensor_dtype. simpl json_at.
  rewrite lookup_delete_ne by (apply not_eq_sym, tensor_key_ne).
  destruct (m !! ("model." +:+ name +:+ ".weight")) as [j|] eqn:Hj; simpl.
  - destruct (Hwf _ _ (tensor_key_ne name) Hj) as (e & d & b & n & -> & Hd & Ho & _).
    simpl. rewrite Hd. simpl. destruct (decide (d = "BF16")) as [->|Hne].
    + left. split; [reflexivity|]. rewrite Ho. simpl. eexists. reflexivity.
    + right. split; [congruence|]. eexists. reflexivity.
  - right. split; [discriminate|]. eexists. reflexivity.
Qed.

Lemma load_layer_cases (m : gmap string json) (idx : nat) :
  well_formed_header (JObj m) ->
  (Forall (fun name => tensor_dtype (JObj m) name = Some "BF16") (layer_tensors idx)
   /\ exists l, load_layer (JObj (delete "__metadata__" m)) idx = Ok l)
  \/ (~ Forall (fun name => tensor_dtype (JObj m) name = Some "BF16") (layer_tensors idx)
      /\ exists f, load_layer (JObj (delete "__metadata__" m)) idx = Err f).
Proof.
  intros Hwf. unfold load_layer, layer_tensors.
  cbn [fmap list_fmap]. rewrite !Forall_cons, Forall_nil.
  repeat match goal with
  | |- context [load ?h ?n ≫= _] =>
      destruct (load_cases m n Hwf) as [[? [? ->]] | [? [? ->]]];
      cbn [mbind result_bind];
      [| right; split; [tauto | eexists; reflexivity]]
  end.
  left. split; [tauto|]. eexists. reflexivity.
Qed.

Lemma load_layers_cases (m : gmap string json) (n : nat) (ls : list Layer) :
  well_formed_header (JObj m) ->
  (Forall (fun name => tensor_dtype (JObj m) name = Some "BF16")
          (concat (layer_tensors <$> seq 0 n))
   /\ exists ls', load_layers (JObj (delete "__metadata__" m)) n ls = Ok ls')
  \/ (~ Forall (fun name => tensor_dtype (JObj m) name = Some "BF16")
               (concat (layer_tensors <$> seq 0 n))
      /\ exists f, load_layers (JObj (delete "__metadata__" m)) n ls = Err f).
Proof.
  intros Hwf. unfold load_layers. induction n as [|n IH].
  - left. split; [constructor|]. eexists. reflexivity.
  - rewrite for__S, seq_S, fmap_app, concat_app, Forall_app.
    cbn [fmap list_fmap concat Nat.add]. rewrite app_nil_r.
    destruct IH as [[Hall [ls' ->]] | [Hnot [f ->]]]; cbn [mbind result_bind].
    + destruct (load_layer_cases m n Hwf) as [[Hl [l ->]] | [Hl [f ->]]];
        cbn [mbind result_bind].
      * left. split; [tauto|]. eexists. reflexivity.
      * right. split; [tauto|]. eexists. reflexivity.
    + right. split; [tauto|]. eexists. reflexivity.
Qed.

Lemma max_offset_fold (l : list (string * json)) (a : nat) :
  fits64 a ->
  (forall kj, kj ∈ l -> tensor_entry (snd kj)) ->
  exists mo,
    foldl (fun acc e => m ← acc; o ← end_offset (snd e); mret (Nat.max m o)) (Ok a) l
    = Ok mo
    /\ fits64 mo.
Proof.
  revert a. induction l as [|[k j] l IH]; intros a Ha Hl.
  - exists a. split; [reflexivity|exact Ha].
  - assert (Hj : tensor_entry j) by (apply (Hl (k, j)); left).
    destruct Hj as (e & d & b & n & -> & Hd & Ho & Hb & Hn).
    simpl. unfold end_offset at 2. simpl. rewrite Ho. simpl.
    rewrite u64_fits by exact Hn.
    apply IH; [unfold fits64 in *; lia|]. intros kj Hkj. apply Hl. right. exact Hkj.
Qed.

Lemma max_offset_ok (m : gmap string json) :
  well_formed_header (JObj m) ->
  exists mo, max_offset (JObj (delete "__metadata__" m)) = Ok mo /\ fits64 mo.
Proof.
  intros (m' & [= <-] & Hwf). unfold max_offset. apply max_offset_fold.
  - unfold fits64, two64. lia.
  - intros [k j] Hkj. simpl in Hkj. apply elem_of_map_to_list in Hkj.
    destruct (decide (k = "__metadata__")) as [->|Hk].
    + rewrite lookup_delete_eq in Hkj. discriminate.
    + rewrite lookup_delete_ne in Hkj by (apply not_eq_sym, Hk).
      simpl. apply (Hwf k j Hk Hkj).
Qed.

Lemma read_chunks_returns (mo : nat) (data : vector_char) (file : istream) :
  (N.of_nat mo + 65536 <= two64)%N ->
  exists st, read_chunks mo data file = Ok st.
Proof.
  intros Hmo. unfold read_chunks, for_u64. pose proof chunkSize_N as Hc.
  rewrite for_wrap_exact.
  - eexists. reflexivity.
  - lia.
  - intros r Hr. apply u64_fits. unfold fits64. lia.
  - pose proof (ceil_div_le mo chunkSize). lia.
Qed.

(** A buffer [reserve] has granted is one the chunk loop can count
    through: no end offset up to [max_size()] wraps the 64-bit counter. *)
Lemma max_size_counts (mo : nat) :
  (N.of_nat mo <= max_size)%N -> (N.of_nat mo + 65536 <= two64)%N.
Proof. unfold max_size, two64. lia. Qed.

(** The load of the tensors alone, after the buffer is filled. *)
Lemma load_all_cases (model : Model F) (m : gmap string json) (st : vector_char * istream) :
  well_formed_header (JObj m) ->
  let h := JObj (delete "__metadata__" m) in
  let rest :=
    embed ← load h "embed_tokens";
    ls ← load_layers h (nLayers model) (layers model);
    norm ← load h "norm";
    mret {| nLayers := nLayers model; dVocab := dVocab model; dModel := dModel model;
            dFFN := dFFN model; dAttnHead := dAttnHead model; dAttnKV := dAttnKV model;
            dAttnQ := dAttnQ model; ropeFreq := ropeFreq model; normEps := normEps model;
            embedTokens := embed; layers := ls; finalNorm := norm;
            _parameterData := fst st |} in
  is_ok rest = true
  <-> Forall (fun name => tensor_dtype (JObj m) name = Some "BF16")
             (required_tensors (nLayers model)).
Proof.
  intros Hwf h rest. subst h rest. unfold required_tensors.
  rewrite Forall_cons, Forall_app, Forall_singleton.
  destruct (load_cases m "embed_tokens" Hwf) as [[He [p ->]] | [He [f ->]]];
    cbn [mbind result_bind]; [|simpl; split; [discriminate|tauto]].
  destruct (load_layers_cases m (nLayers model) (layers model) Hwf)
    as [[Hl [ls ->]] | [Hl [f ->]]];
    cbn [mbind result_bind]; [|simpl; split; [discriminate|tauto]].
  destruct (load_cases m "norm" Hwf) as [[Hn [q ->]] | [Hn [f ->]]];
    cbn [mbind result_bind]; [|simpl; split; [discriminate|tauto]].
  simpl. tauto.
Qed.

End LoadTheorems.

Lemma header_two_well_formed : well_formed_header header_two.
Proof.
  eexists. split; [reflexivity|]. intros k j Hk Hj.
  apply lookup_insert_Some in Hj as [[<- _]|[_ Hj]]; [contradiction|].
  apply lookup_insert_Some in Hj as [[_ <-]|[_ Hj]].
  { exists (<["dtype" := JStr "BF16"]> (<["data_offsets" := JArr [JNum 0; JNum 4]]> ∅)),
      "BF16", 0, 4.
    split; [reflexivity|]. split; [reflexivity|]. split; [reflexivity|].
    split; vm_compute; reflexivity. }
  apply lookup_insert_Some in Hj as [[_ <-]|[_ Hj]].
  { exists (<["dtype" := JStr "BF16"]> (<["data_offsets" := JArr [JNum 4; JNum 8]]> ∅)),
      "BF16", 4, 8.
    split; [reflexivity|]. split; [reflexivity|]. split; [reflexivity|].
    split; vm_compute; reflexivity. }
  rewrite lookup_empty in Hj. discriminate.
Qed.



(* ================================================================== *)
(** * The owned byte buffer *)

Section Buffer.
Context {F : Type}.

(** [loadParameters] never changes [size()] of the byte vector. *)
Lemma loadParameters_size (model m' : Model F) (header : json) (file : istream) :
  loadParameters model header file = Ok m' ->
  v_size (_parameterData m') = v_size (_parameterData model).
Proof.
  unfold loadParameters.
  destruct (json_erase header "__metadata__") as [h1|]; simpl; [|discriminate].
  destruct (max_offset h1) as [mo|]; simpl; [|discriminate].
  destruct (v_reserve _ _) as [data|] eqn:Hres; simpl; [|discriminate].
  apply v_reserve_Ok in Hres as [-> _].
  destruct (read_chunks _ _ _) as [st|] eqn:Hst; simpl; [|discriminate].
  destruct (load h1 "embed_tokens") as [e|]; simpl; [|discriminate].
  destruct (load_layers _ _ _) as [ls|]; simpl; [|discriminate].
  destruct (load h1 "norm") as [nm|]; simpl; [|discriminate].
  intros [= <-]. simpl. apply read_chunks_size in Hst.
  rewrite Hst. apply v_grown_size.
Qed.

(** X1.  The bytes arrive all the same: on a model fresh from [loadConfig] and a
    stream that holds the tensor region, the allocation behind the vector
    is the first [maxOffset] bytes of the stream. *)
Lemma loadParameters_store (model m' : Model F) (m : gmap string json)
    (bytes : list Byte.byte) (mo : nat) :
  _parameterData model = vector_empty ->
  max_offset (JObj (delete "__metadata__" m)) = Ok mo ->
  (N.of_nat mo + 65536 <= two64)%N ->
  mo <= length bytes ->
  loadParameters model (JObj m) {| is_rest := bytes; is_good := true |} = Ok m' ->
  v_size (_parameterData m') = 0
  /\ v_store (_parameterData m') = take mo bytes.
Proof.
  intros Hempty Hmax Hmo Hlen. unfold loadParameters. simpl json_erase.
  cbn [mbind result_bind]. rewrite Hmax. cbn [mbind result_bind]. rewrite Hempty.
  destruct (v_reserve _ _) as [data|] eqn:Hres; cbn [mbind result_bind]; [|discriminate].
  apply v_reserve_Ok in Hres as [-> _].
  destruct (read_chunks_store mo bytes Hmo Hlen) as (st & -> & Hsz & Hst).
  cbn [mbind result_bind].
  destruct (load _ "embed_tokens") as [e|]; simpl; [|discriminate].
  destruct (load_layers _ _ _) as [ls|]; simpl; [|discriminate].
  destruct (load _ "norm") as [nm|]; simpl; [|discriminate].
  intros [= <-]. simpl. split; assumption.
Qed.
End Buffer.

(** C2, on the code: after [loadParameters] on the two-tensor container
    (maximum end offset 8) the byte vector has size 0; the eight bytes sit
    in its reserved allocation, where the two views point. *)
Theorem loadParameters_buffer_unsized :
  exists m' : Model spec_float,
    loadParameters model_no_layers header_two file8 = Ok m'
    /\ max_offset (JObj (delete "__metadata__"
                     (<["__metadata__" := JObj (<["format" := JStr "pt"]> ∅)]>
                     (<["model.embed_tokens.weight" := tensor "BF16" 0 4]>
                     (<["model.norm.weight" := tensor "BF16" 4 8]> ∅))))) = Ok 8
    /\ v_size (_parameterData m') = 0
    /\ v_store (_parameterData m') = is_rest file8
    /\ embedTokens m' = {| p_data := 0 |}
    /\ finalNorm m' = {| p_data := 4 |}.
Proof.
  eexists. split; [vm_compute; reflexivity|].
  split; [vm_compute; reflexivity|]. repeat split.
Qed.

(* ================================================================== *)
(** * Cells of an activation *)

Section Cells.
Context {F : Type} `{FloatOps F}.

Lemma length_alloc (n : nat) : length (alloc n) = n.
Proof. apply length_replicate. Qed.

Lemma length_wr (x : list F) (i : nat) (v : F) : length (wr x i v) = length x.
Proof. apply length_insert. Qed.

Lemma rd_wr_eq (x : list F) (i : nat) (v : F) :
  i < length x -> rd (wr x i v) i = v.
Proof.
  intros Hi. unfold rd, wr. rewrite nth_lookup, list_lookup_insert_eq by exact Hi.
  reflexivity.
Qed.

Lemma rd_wr_ne (x : list F) (i j : nat) (v : F) :
  i <> j -> rd (wr x i v) j = rd x j.
Proof.
  intros Hij. unfold rd, wr. rewrite !nth_lookup, list_lookup_insert_ne by exact Hij.
  reflexivity.
Qed.

(** A loop none of whose iterations touches cell [j] leaves it as it was. *)
Lemma for__miss (L n j : nat) (body : nat -> list F -> list F) :
  (forall i t, i < n -> length t = L ->
     length (body i t) = L /\ rd (body i t) j = rd t j) ->
  forall t, length t = L ->
    length (for_ n body t) = L /\ rd (for_ n body t) j = rd t j.
Proof.
  intros Hbody t Ht. induction n as [|n IH].
  - rewrite for__0. auto.
  - rewrite for__S. destruct IH as [IHl IHr].
    { intros i u Hi Hu. apply Hbody; [lia|exact Hu]. }
    destruct (Hbody n (for_ n body t)) as [Hl Hr]; [lia|exact IHl|].
    split; [exact Hl|]. rewrite Hr. exact IHr.
Qed.

(** A loop in which iteration [i0] sets cell [j] to [v] and no other
    iteration touches the cell ends with [v] there. *)
Lemma for__hit (L n j i0 : nat) (v : F) (body : nat -> list F -> list F) :
  i0 < n ->
  (forall i t, i < n -> length t = L -> length (body i t) = L) ->
  (forall t, length t = L -> rd (body i0 t) j = v) ->
  (forall i t, i < n -> i <> i0 -> length t = L -> rd (body i t) j = rd t j) ->
  forall t, length t = L ->
    length (for_ n body t) = L /\ rd (for_ n body t) j = v.
Proof.
  intros Hi0 Hlen Hhit Hmiss t Ht. induction n as [|n IH]; [lia|].
  rewrite for__S.
  assert (Hl : length (for_ n body t) = L).
  { apply (for__ind (fun _ u => length u = L)); [exact Ht|].
    intros i u Hi Hu. apply Hlen; [lia|exact Hu]. }
  split; [apply Hlen; [lia|exact Hl]|].
  destruct (Nat.eq_dec i0 n) as [->|Hne].
  - apply Hhit, Hl.
  - rewrite Hmiss by (try lia; exact Hl).
    apply IH; [lia| |].
    + intros i u Hi Hu. apply Hlen; [lia|exact Hu].
    + intros i u Hi Hii Hu. apply Hmiss; [lia|exact Hii|exact Hu].
Qed.
End Cells.

(* ================================================================== *)
(** * Index arithmetic *)

Lemma radix_inj (d a b a' b' : nat) :
  b < d -> b' < d -> a * d + b = a' * d + b' -> a = a' /\ b = b'.
Proof.
  intros Hb Hb' Heq.
  destruct (Nat.lt_trichotomy a a') as [Hlt|[->|Hgt]].
  - assert ((a + 1) * d <= a' * d) by (apply Nat.mul_le_mono_r; lia). lia.
  - lia.
  - assert ((a' + 1) * d <= a * d) by (apply Nat.mul_le_mono_r; lia). lia.
Qed.

(** The row-major position of cell [(sQ, iKV, iQ, i)]. *)
Lemma q_index_flat (dSeq dKV dQ dHead sQ iKV iQ i : nat) :
  fits32 (dSeq * dKV * dQ * dHead) ->
  sQ < dSeq -> iKV < dKV -> iQ < dQ -> i < dHead ->
  q_index dKV dQ dHead sQ iKV iQ i = ((sQ * dKV + iKV) * dQ + iQ) * dHead + i
  /\ ((sQ * dKV + iKV) * dQ + iQ) * dHead + i < dSeq * dKV * dQ * dHead.
Proof.
  intros Hfit HsQ HiKV HiQ Hi.
  assert (H1 : sQ * dKV + iKV < dSeq * dKV) by nia.
  assert (H2 : (sQ * dKV + iKV) * dQ + iQ < dSeq * dKV * dQ) by nia.
  assert (H3 : ((sQ * dKV + iKV) * dQ + iQ) * dHead + i < dSeq * dKV * dQ * dHead) by nia.
  split; [|exact H3]. unfold q_index.
  assert (Hle : forall n, n <= ((sQ * dKV + iKV) * dQ + iQ) * dHead + i -> u32 n = n).
  { intros n Hn. apply u32_fits. apply (fits32_le _ (dSeq * dKV * dQ * dHead)); [lia|exact Hfit]. }
  rewrite (Hle (sQ * dKV)) by nia.
  rewrite (Hle (sQ * dKV * dQ)) by nia.
  rewrite (Hle (sQ * dKV * dQ * dHead)) by nia.
  rewrite (Hle (iKV * dQ)) by nia.
  rewrite (Hle (iKV * dQ * dHead)) by nia.
  rewrite (Hle (sQ * dKV * dQ * dHead + iKV * dQ * dHead)) by nia.
  rewrite (Hle (iQ * dHead)) by nia.
  rewrite (Hle (sQ * dKV * dQ * dHead + iKV * dQ * dHead + iQ * dHead)) by nia.
  rewrite Hle by nia. nia.
Qed.

Lemma flat_inj (dKV dQ dHead sQ iKV iQ i sQ' iKV' iQ' i' : nat) :
  iKV < dKV -> iQ < dQ -> i < dHead -> iKV' < dKV -> iQ' < dQ -> i' < dHead ->
  ((sQ * dKV + iKV) * dQ + iQ) * dHead + i = ((sQ' * dKV + iKV') * dQ + iQ') * dHead + i' ->
  sQ = sQ' /\ iKV = iKV' /\ iQ = iQ' /\ i = i'.
Proof.
  intros HiKV HiQ Hi HiKV' HiQ' Hi' Heq.
  apply radix_inj in Heq as [Heq ->]; [|exact Hi|exact Hi'].
  apply radix_inj in Heq as [Heq ->]; [|exact HiQ|exact HiQ'].
  apply radix_inj in Heq as [-> ->]; [|exact HiKV|exact HiKV'].
  auto.
Qed.

(* ================================================================== *)
(** * [selfAttention], cell by cell *)

Section WriteLoop.
Context {F : Type} `{FloatOps F}.

(** A loop of plain stores [out[idx i] = val i]. *)
Lemma for__wr_length (n : nat) (idx : nat -> nat) (val : nat -> F) (out : list F) :
  length (for_ n (fun i o => wr o (idx i) (val i)) out) = length out.
Proof.
  apply (for__ind (fun _ o => length o = length out)); [reflexivity|].
  intros i o _ Ho. rewrite length_wr. exact Ho.
Qed.

Lemma for__wr_hit (n : nat) (idx : nat -> nat) (val : nat -> F) (out : list F) (i : nat) :
  (forall i', i' < n -> idx i' = idx i -> i' = i) ->
  i < n -> idx i < length out ->
  rd (for_ n (fun i o => wr o (idx i) (val i)) out) (idx i) = val i.
Proof.
  intros Hinj Hi Hidx.
  apply (for__hit (length out) n (idx i) i (val i)); try assumption || reflexivity.
  - intros i' t _ Ht. rewrite length_wr. exact Ht.
  - intros t Ht. apply rd_wr_eq. lia.
  - intros i' t Hi' Hne _. apply rd_wr_ne. intros Heq. apply Hne, Hinj; assumption.
Qed.

Lemma for__wr_miss (n : nat) (idx : nat -> nat) (val : nat -> F) (out : list F) (j : nat) :
  (forall i, i < n -> idx i <> j) ->
  rd (for_ n (fun i o => wr o (idx i) (val i)) out) j = rd out j.
Proof.
  intros Hne.
  apply (for__miss (length out) n j); [|reflexivity].
  intros i t Hi Ht. rewrite length_wr. split; [exact Ht|].
  apply rd_wr_ne, Hne, Hi.
Qed.
End WriteLoop.

Section AttentionCells.
Context {F : Type} `{FloatOps F}.
Variables (q k v : list F) (dKV dQ dHead dSeq : nat).
Hypothesis Hfit : fits32 (dSeq * dKV * dQ * dHead).
Hypothesis Hroom : dSeq * dKV * dQ * dHead <= length q.

(** The head loop as a loop of stores. *)
Lemma attn_head_stores (iKV sQ iQ : nat) (out : list F) :
  attn_head q k v dKV dQ dHead iKV sQ iQ out
  = for_ dHead (fun i o => wr o (q_index dKV dQ dHead sQ iKV iQ i)
                              (attn_value q k v dKV dQ dHead iKV sQ iQ i)) out.
Proof. reflexivity. Qed.

Lemma attn_head_length (iKV sQ iQ : nat) (out : list F) :
  length (attn_head q k v dKV dQ dHead iKV sQ iQ out) = length out.
Proof. rewrite attn_head_stores. apply for__wr_length. Qed.

Lemma attn_head_hit (iKV sQ iQ i : nat) (out : list F) :
  length out = length q ->
  sQ < dSeq -> iKV < dKV -> iQ < dQ -> i < dHead ->
  rd (attn_head q k v dKV dQ dHead iKV sQ iQ out) (q_index dKV dQ dHead sQ iKV iQ i)
  = attn_value q k v dKV dQ dHead iKV sQ iQ i.
Proof.
  intros Hout HsQ HiKV HiQ Hi. rewrite attn_head_stores.
  destruct (q_index_flat dSeq dKV dQ dHead sQ iKV iQ i) as [Heq Hlt]; try assumption.
  apply (for__wr_hit dHead (q_index dKV dQ dHead sQ iKV iQ)); [|exact Hi|lia].
  intros i' Hi' Hii.
  destruct (q_index_flat dSeq dKV dQ dHead sQ iKV iQ i') as [Heq' _]; try assumption.
  rewrite Heq, Heq' in Hii. lia.
Qed.

(** Another head does not touch the cell. *)
Lemma attn_head_miss (iKV sQ iQ i iKV' sQ' iQ' : nat) (out : list F) :
  sQ < dSeq -> iKV < dKV -> iQ < dQ -> i < dHead ->
  sQ' < dSeq -> iKV' < dKV -> iQ' < dQ ->
  (iKV', sQ', iQ') <> (iKV, sQ, iQ) ->
  rd (attn_head q k v dKV dQ dHead iKV' sQ' iQ' out) (q_index dKV dQ dHead sQ iKV iQ i)
  = rd out (q_index dKV dQ dHead sQ iKV iQ i).
Proof.
  intros HsQ HiKV HiQ Hi HsQ' HiKV' HiQ' Hne. rewrite attn_head_stores.
  apply for__wr_miss. intros i' Hi' Heq.
  destruct (q_index_flat dSeq dKV dQ dHead sQ iKV iQ i) as [E _]; try assumption.
  destruct (q_index_flat dSeq dKV dQ dHead sQ' iKV' iQ' i') as [E' _]; try assumption.
  rewrite E, E' in Heq.
  apply flat_inj in Heq as (-> & -> & -> & _); try assumption.
  apply Hne. reflexivity.
Qed.

(** The three outer loops of [selfAttention]. *)
Lemma attn_loops_cell (sQ iKV iQ i : nat) (out : list F) :
  length out = length q ->
  sQ < dSeq -> iKV < dKV -> iQ < dQ -> i < dHead ->
  let loops :=
    for_ dKV (fun iKV out =>
      for_ dSeq (fun sQ out =>
        for_ dQ (fun iQ out => attn_head q k v dKV dQ dHead iKV sQ iQ out) out) out)
      out in
  length loops = length q
  /\ rd loops (q_index dKV dQ dHead sQ iKV iQ i)
     = attn_value q k v dKV dQ dHead iKV sQ iQ i.
Proof.
  intros Hout HsQ HiKV HiQ Hi. cbv zeta.
  set (j := q_index dKV dQ dHead sQ iKV iQ i).
  set (val := attn_value q k v dKV dQ dHead iKV sQ iQ i).
  (* the loop over the query heads of one (iKV', sQ') *)
  assert (HQlen : forall iKV' sQ' t, length t = length q ->
            length (for_ dQ (fun iQ' o => attn_head q k v dKV dQ dHead iKV' sQ' iQ' o) t)
            = length q).
  { intros iKV' sQ' t Ht.
    apply (for__ind (fun _ o => length o = length q)); [exact Ht|].
    intros iQ' o _ Ho. rewrite attn_head_length. exact Ho. }
  assert (HQmiss : forall iKV' sQ' t, iKV' < dKV -> sQ' < dSeq ->
            (iKV', sQ') <> (iKV, sQ) -> length t = length q ->
            rd (for_ dQ (fun iQ' o => attn_head q k v dKV dQ dHead iKV' sQ' iQ' o) t) j
            = rd t j).
  { intros iKV' sQ' t HiKV' HsQ' Hne Ht.
    apply (for__miss (length q) dQ j); [|exact Ht].
    intros iQ' o HiQ' Ho. rewrite attn_head_length. split; [exact Ho|].
    apply attn_head_miss; try assumption. intros [= -> -> ->]. apply Hne. reflexivity. }
  (* the loop over the positions of one iKV' *)
  assert (HSlen : forall iKV' t, length t = length q ->
            length (for_ dSeq (fun sQ' o =>
                      for_ dQ (fun iQ' o => attn_head q k v dKV dQ dHead iKV' sQ' iQ' o) o) t)
            = length q).
  { intros iKV' t Ht.
    apply (for__ind (fun _ o => length o = length q)); [exact Ht|].
    intros sQ' o _ Ho. apply HQlen, Ho. }
  apply (for__hit (length q) dKV j iKV val); try assumption.
  - intros iKV' t _ Ht. apply HSlen, Ht.
  - intros t Ht.
    apply (for__hit (length q) dSeq j sQ val); try assumption.
    + intros sQ' o _ Ho. apply HQlen, Ho.
    + intros o Ho.
      apply (for__hit (length q) dQ j iQ val); try assumption.
      * intros iQ' u _ Hu. rewrite attn_head_length. exact Hu.
      * intros u Hu. apply attn_head_hit; assumption.
      * intros iQ' u HiQ' Hne Hu. apply attn_head_miss; try assumption.
        intros [= ->]. apply Hne. reflexivity.
    + intros sQ' o HsQ' Hne Ho. apply HQmiss; try assumption.
      intros [= ->]. apply Hne. reflexivity.
  - intros iKV' t HiKV' Hne Ht.
    apply (for__miss (length q) dSeq j); [|exact Ht].
    intros sQ' o HsQ' Ho. split; [apply HQlen, Ho|].
    apply HQmiss; try assumption. intros [= -> _]. apply Hne. reflexivity.
Qed.
End AttentionCells.

Section AttentionTheorems.
Context {F : Type} `{FloatOps F}.

(** [selfAttention] returns, and the cell of a head holds the head's
    weighted sum. *)
Lemma selfAttention_cell (q k v : list F) (dKV dQ dHead sQ iKV iQ i : nat) :
  fits32 (length q) ->
  length k / (dKV *! dHead) * dKV * dQ * dHead <= length q ->
  sQ < length k / (dKV *! dHead) -> iKV < dKV -> iQ < dQ -> i < dHead ->
  exists out,
    selfAttention q k v dKV dQ dHead = Ok out
    /\ length out = length q
    /\ rd out (q_index dKV dQ dHead sQ iKV iQ i)
       = attn_value q k v dKV dQ dHead iKV sQ iQ i.
Proof.
  intros Hfit Hroom HsQ HiKV HiQ Hi. unfold selfAttention.
  destruct (Nat.eqb_spec (dKV *! dHead) 0) as [Hz|_].
  { rewrite Hz in HsQ. simpl in HsQ. lia. }
  eexists. split; [reflexivity|].
  apply (attn_loops_cell q k v dKV dQ dHead (length k / (dKV *! dHead))); try assumption.
  - apply (fits32_le _ (length q)); assumption.
  - apply length_alloc.
Qed.

(** The value of a head reads [q] only at the head's own cells and [k], [v]
    only at the cells of its group up to its position. *)
Lemma attn_value_ext (q q' k k' v v' : list F) (dKV dQ dHead sQ iKV iQ i : nat) :
  (forall i, i < dHead ->
     rd q (q_index dKV dQ dHead sQ iKV iQ i) = rd q' (q_index dKV dQ dHead sQ iKV iQ i)) ->
  (forall sKV i, sKV <= sQ -> i < dHead ->
     rd k (kv_index dKV dHead sKV iKV i) = rd k' (kv_index dKV dHead sKV iKV i)) ->
  (forall sKV, sKV <= sQ ->
     rd v (kv_index dKV dHead sKV iKV i) = rd v' (kv_index dKV dHead sKV iKV i)) ->
  attn_value q k v dKV dQ dHead iKV sQ iQ i = attn_value q' k' v' dKV dQ dHead iKV sQ iQ i.
Proof.
  intros Hq Hk Hv. unfold attn_value.
  assert (Hs : attn_scores q k dKV dQ dHead iKV sQ iQ
               = attn_scores q' k' dKV dQ dHead iKV sQ iQ).
  { unfold attn_scores. apply for__ext. intros sKV scores HsKV. f_equal. f_equal.
    apply for__ext. intros i' sum Hi'. f_equal.
    unfold q_index, kv_index in Hq, Hk. rewrite Hq, Hk by lia. reflexivity. }
  rewrite Hs. apply for__ext. intros sKV sum HsKV. rewrite Hv by lia. reflexivity.
Qed.

End AttentionTheorems.

(* ================================================================== *)
(** * [softmaxInPlace] *)

Section Softmax.
Context {F : Type} `{FloatOps F}.

Lemma rd_lookup (x : list F) (i : nat) (a : F) : x !! i = Some a -> rd x i = a.
Proof. intros Hi. unfold rd. apply nth_lookup_Some, Hi. Qed.

Lemma rd_fmap (g : F -> F) (x : list F) (i : nat) :
  i < length x -> rd (g <$> x) i = g (rd x i).
Proof.
  intros Hi. destruct (lookup_lt_is_Some_2 x i Hi) as [a Ha].
  rewrite (rd_lookup x i a Ha). apply rd_lookup.
  rewrite list_lookup_fmap, Ha. reflexivity.
Qed.

(** One step of a loop that rewrites a buffer front to back. *)
Lemma inplace_step (g : F -> F) (x : list F) (n : nat) (a : F) :
  x !! n = Some a ->
  rd ((g <$> take n x) ++ drop n x) n = a
  /\ wr ((g <$> take n x) ++ drop n x) n (g a)
     = (g <$> take (S n) x) ++ drop (S n) x.
Proof.
  intros Ha. assert (Hn : n < length x) by (apply lookup_lt_Some in Ha; exact Ha).
  assert (Hl : length (g <$> take n x) = n) by (rewrite length_fmap, length_take; lia).
  rewrite (drop_S x a n Ha). split.
  - apply rd_lookup. rewrite lookup_app_r by lia. rewrite Hl, Nat.sub_diag. reflexivity.
  - unfold wr. rewrite insert_app_r_alt by lia. rewrite Hl, Nat.sub_diag.
    rewrite (take_S_r x n a Ha), fmap_app. simpl. rewrite <- app_assoc. reflexivity.
Qed.

Lemma for__inplace_sum (g : F -> F) (x : list F) (s0 : F) (n : nat) :
  n <= length x ->
  for_ n (fun i st =>
            let y := wr (fst st) i (g (rd (fst st) i)) in
            (y, fadd (snd st) (rd y i))) (x, s0)
  = ((g <$> take n x) ++ drop n x, fold_left fadd (g <$> take n x) s0).
Proof.
  induction n as [|n IH]; intros Hn.
  - rewrite for__0, take_0, drop_0. reflexivity.
  - rewrite for__S, IH by lia. cbn [fst snd].
    destruct (lookup_lt_is_Some_2 x n) as [a Ha]; [lia|].
    destruct (inplace_step g x n a Ha) as [Hrd Hwr].
    rewrite Hrd, Hwr.
    assert (Hnew : rd ((g <$> take (S n) x) ++ drop (S n) x) n = g a).
    { apply rd_lookup.
      rewrite lookup_app_l by (rewrite length_fmap, length_take; lia).
      rewrite list_lookup_fmap, lookup_take_lt, Ha by lia. reflexivity. }
    rewrite Hnew. f_equal.
    rewrite (take_S_r x n a Ha), fmap_app, fold_left_app. reflexivity.
Qed.

Lemma for__inplace (g : F -> F) (x : list F) (n : nat) :
  n <= length x ->
  for_ n (fun i y => wr y i (g (rd y i))) x = (g <$> take n x) ++ drop n x.
Proof.
  induction n as [|n IH]; intros Hn.
  - rewrite for__0, take_0, drop_0. reflexivity.
  - rewrite for__S, IH by lia.
    destruct (lookup_lt_is_Some_2 x n) as [a Ha]; [lia|].
    destruct (inplace_step g x n a Ha) as [Hrd Hwr].
    rewrite Hrd, Hwr. reflexivity.
Qed.

(** [softmaxInPlace] as two maps: exponentials of the differences to the
    maximum, divided by their sum. *)
Lemma softmaxInPlace_map (x : list F) :
  softmaxInPlace x
  = let max := rd x (max_element x) in
    let es := (fun a => fexp (fsub a max)) <$> x in
    (fun e => fdiv e (sum_of es)) <$> es.
Proof.
  unfold softmaxInPlace, sum_of. cbv zeta.
  rewrite (for__inplace_sum (fun a => fexp (fsub a (rd x (max_element x)))) x (fofZ 0)
             (length x)) by lia.
  cbn [fst snd]. rewrite firstn_all, drop_all, app_nil_r.
  set (es := (fun a => fexp (fsub a (rd x (max_element x)))) <$> x).
  assert (Hl : length x = length es) by (unfold es; rewrite length_fmap; reflexivity).
  rewrite Hl, (for__inplace (fun e => fdiv e (fold_left fadd es (fofZ 0))) es (length es))
    by lia.
  rewrite firstn_all, drop_all, app_nil_r. reflexivity.
Qed.

Lemma max_element_lt (x : list F) : x <> [] -> max_element x < length x.
Proof.
  intros Hx. assert (0 < length x) by (destruct x; [contradiction|simpl; lia]).
  unfold max_element.
  assert (Hle : for_ (length x - 1)
                  (fun k largest => if fltb (rd x largest) (rd x (S k)) then S k else largest) 0
                <= length x - 1).
  { apply (for__ind (fun n t => t <= n)); [lia|].
    intros i t Hi Ht. destruct (fltb _ _); lia. }
  lia.
Qed.
End Softmax.

(* ================================================================== *)
(** * [softmaxInPlace] in exact arithmetic *)

Section SoftmaxIdeal.

Lemma sum_of_from (l : list R) (a : R) : fold_left Rplus l a = (a + sum_of l)%R.
Proof.
  unfold sum_of. cbn [fadd fofZ Ideal.ops]. revert a.
  induction l as [|b l IH]; intros a; simpl.
  - lra.
  - rewrite (IH (a + b)%R), (IH (0 + b)%R). lra.
Qed.

Lemma sum_of_cons (b : R) (l : list R) : sum_of (b :: l) = (b + sum_of l)%R.
Proof.
  unfold sum_of at 1. cbn [fadd fofZ Ideal.ops fold_left]. rewrite sum_of_from. lra.
Qed.

Lemma sum_of_nil : sum_of ([] : list R) = 0%R.
Proof. reflexivity. Qed.

Lemma sum_of_div (l : list R) (s : R) :
  sum_of ((fun e => e / s)%R <$> l) = (sum_of l / s)%R.
Proof.
  induction l as [|b l IH].
  - simpl. rewrite sum_of_nil. lra.
  - rewrite fmap_cons, !sum_of_cons, IH. lra.
Qed.

Lemma sum_of_exp_pos (g : R -> R) (l : list R) :
  l <> [] -> (0 < sum_of ((fun a => exp (g a)) <$> l))%R.
Proof.
  intros Hl. destruct l as [|b l]; [contradiction|]. clear Hl.
  rewrite fmap_cons, sum_of_cons.
  assert (H0 : (0 <= sum_of ((fun a => exp (g a)) <$> l))%R).
  { induction l as [|c l IH].
    - simpl. rewrite sum_of_nil. lra.
    - rewrite fmap_cons, sum_of_cons. pose proof (exp_pos (g c)). lra. }
  pose proof (exp_pos (g b)). lra.
Qed.

Lemma fltb_shift (a b c : R) : fltb (a + c)%R (b + c)%R = fltb a b.
Proof.
  cbn [fltb Ideal.ops]. unfold Ideal.ltb. destruct (Rlt_dec (a + c)%R (b + c)%R), (Rlt_dec a b); try reflexivity; lra.
Qed.

Lemma max_element_shift (x : list R) (c : R) :
  max_element ((fun a => fadd a c) <$> x) = max_element x.
Proof.
  change (fun a : R => fadd a c) with (fun a : R => (a + c)%R).
  unfold max_element. rewrite length_fmap.
  assert (Hboth : forall n, n <= length x - 1 ->
    for_ n (fun k largest =>
              if fltb (rd ((fun a => a + c)%R <$> x) largest)
                      (rd ((fun a => a + c)%R <$> x) (S k))
              then S k else largest) 0
    = for_ n (fun k largest =>
                if fltb (rd x largest) (rd x (S k)) then S k else largest) 0
    /\ (for_ n (fun k largest =>
                  if fltb (rd x largest) (rd x (S k)) then S k else largest) 0
        <= n)).
  { induction n as [|n IH]; intros Hn.
    - rewrite !for__0. split; [reflexivity|lia].
    - rewrite !for__S. destruct IH as [-> Hle]; [lia|].
      rewrite (rd_fmap (fun a => (a + c)%R) x (S n)) by lia.
      rewrite (rd_fmap (fun a => (a + c)%R) x) by lia.
      rewrite fltb_shift.
      split; [reflexivity|].
      match goal with |- (if ?b then _ else _) <= _ => destruct b end; lia. }
  apply Hboth. lia.
Qed.

End SoftmaxIdeal.



(* ================================================================== *)
(** * binary32 arithmetic at 0 and 1 *)

Module Binary32Facts.
Import Binary32.

Lemma one_eq : one = S754_finite false 8388608 (-23).
Proof. reflexivity. Qed.

Lemma sub_self (s : spec_float) :
  is_finite s = true -> SFsub prec emax s s = S754_zero false.
Proof.
  destruct s as [[|]|[|]| |sx mx ex]; try discriminate; try reflexivity.
  intros _. unfold SFsub. rewrite Z.sub_diag. reflexivity.
Qed.

Lemma add_zero_l (v : spec_float) :
  SFadd prec emax (S754_zero false) v = unsigned_zero v.
Proof. destruct v as [[|]|[|]| |sx mx ex]; reflexivity. Qed.

Lemma succ_Z (p : positive) : Zpos (PosDef.Pos.succ p) = (Zpos p + 1)%Z.
Proof. change (PosDef.Pos.succ p) with (Pos.succ p). lia. Qed.

Lemma digits2_pos_shift23 (m : positive) :
  Zpos (digits2_pos (8388608 * m)) = (Zpos (digits2_pos m) + 23)%Z.
Proof. simpl. rewrite !succ_Z, Pos.mul_1_l. lia. Qed.

(** Shifting [m 2^23] right by 23 places gives [m] back, exactly. *)
Lemma shr_shift23 (m : positive) :
  SpecFloat.iter_pos shr_1 23 {| shr_m := Zpos (8388608 * m); shr_r := false; shr_s := false |}
  = {| shr_m := Zpos m; shr_r := false; shr_s := false |}.
Proof. reflexivity. Qed.

Lemma shr_shift23_exp (m : positive) (e : Z) :
  shr (shr_record_of_loc (Zpos (8388608 * m)) loc_Exact) (-23 + e) 23
  = ({| shr_m := Zpos m; shr_r := false; shr_s := false |}, e).
Proof.
  unfold shr, shr_record_of_loc. rewrite shr_shift23. f_equal. lia.
Qed.

Lemma mul_one_l (v : spec_float) :
  valid_binary prec emax v = true -> SFmul prec emax one v = v.
Proof.
  rewrite one_eq. destruct v as [[|]|[|]| |s m e]; try reflexivity.
  unfold valid_binary, bounded, canonical_mantissa. intros Hb.
  apply andb_prop in Hb as [Hc He]. apply Z.eqb_eq in Hc.
  unfold SFmul, binary_round_aux, shr_fexp, Zdigits2.
  rewrite digits2_pos_shift23.
  replace (Zpos (digits2_pos m) + 23 + (-23 + e))%Z with (Zpos (digits2_pos m) + e)%Z by lia.
  rewrite Hc. replace (e - (-23 + e))%Z with 23%Z by lia.
  rewrite shr_shift23_exp.
  cbn [loc_of_shr_record shr_m round_nearest_even].
  rewrite Hc, Z.sub_diag. cbn [shr shr_record_of_loc shr_m].
  rewrite He. reflexivity.
Qed.
End Binary32Facts.

(* ================================================================== *)
(** * [selfAttention] with one position, on binary32 *)

Section Binary32Attention.
Import Binary32 Binary32Facts.
Variable exp_finite : bool -> positive -> Z -> spec_float.
#[local] Instance b32 : FloatOps spec_float := ops exp_finite.

(** The softmax of one finite score is exactly 1. *)
Lemma softmax_single (s : spec_float) :
  is_finite s = true -> softmaxInPlace [s] = [one].
Proof.
  intros Hs. unfold softmaxInPlace, max_element. simpl length.
  rewrite for__0, !for__S, !for__0. cbn [fst snd rd wr nth].
  cbn [fsub fexp fadd fdiv fofZ b32 ops].
  rewrite (sub_self s Hs). reflexivity.
Qed.

Lemma attn_scores_single (q k : list spec_float) (dKV dQ dHead iKV iQ : nat) :
  attn_scores q k dKV dQ dHead iKV 0 iQ
  = [rd (attn_scores q k dKV dQ dHead iKV 0 iQ) 0].
Proof. unfold attn_scores. rewrite for__S, for__0. reflexivity. Qed.

(** The softmax of one score that is not finite is NaN. *)
Lemma softmax_single_nan (s : spec_float) :
  is_finite s = false -> softmaxInPlace [s] = [S754_nan].
Proof.
  intros Hs. unfold softmaxInPlace, max_element. simpl length.
  rewrite for__0, !for__S, !for__0. cbn [fst snd rd wr nth].
  cbn [fsub fexp fadd fdiv fofZ b32 ops].
  destruct s as [[|]|[|]| |sx mx ex]; try discriminate; reflexivity.
Qed.

End Binary32Attention.




(* ================================================================== *)
(** * Rows: [rmsNorm], [project] and the other operators of the pipeline *)

Section Rows.
Context {F : Type} `{FloatOps F}.

Lemma rd_drop (x : list F) (n i : nat) : rd (drop n x) i = rd x (n + i).
Proof. unfold rd. rewrite !nth_lookup, lookup_drop. reflexivity. Qed.

Lemma rd_take (x : list F) (n i : nat) : i < n -> rd (take n x) i = rd x i.
Proof. intros Hi. unfold rd. rewrite !nth_lookup, lookup_take_lt by exact Hi. reflexivity. Qed.

(** Two buffers of one length with equal cells are equal. *)
Lemma rd_ext (x y : list F) :
  length x = length y -> (forall i, i < length x -> rd x i = rd y i) -> x = y.
Proof. intros Hl Hrd. apply (nth_ext x y funinit funinit Hl). exact Hrd. Qed.

Lemma addInPlace_length (lhs rhs : list F) : length (addInPlace lhs rhs) = length lhs.
Proof.
  unfold addInPlace.
  apply (for__ind (fun _ t => length t = length lhs)); [reflexivity|].
  intros i t _ Ht. rewrite length_wr. exact Ht.
Qed.

Lemma embeddingLookup_length (tokens : list nat) (weight : nat -> Z) (dModel : nat) :
  length (embeddingLookup tokens weight dModel) = length tokens * dModel.
Proof.
  unfold embeddingLookup.
  apply (for__ind (fun _ t => length t = length tokens * dModel)); [apply length_alloc|].
  intros n t _ Ht.
  apply (for__ind (fun _ t => length t = length tokens * dModel)); [exact Ht|].
  intros i u _ Hu. rewrite length_wr. exact Hu.
Qed.

(** ** [rmsNorm] *)

Lemma rmsNorm_row_length x weight dModel eps i0 (y : list F) :
  length (rmsNorm_row x weight dModel eps i0 y) = length y.
Proof. unfold rmsNorm_row. apply for__wr_length. Qed.

Lemma rmsNorm_length (x y : list F) (weight : nat -> Z) (dModel : nat) (eps : F) :
  rmsNorm x weight dModel eps = Ok y -> length y = length x.
Proof.
  unfold rmsNorm, for_u32, for_wrap.
  destruct (while_ _ _ _ _) as [[i y']|] eqn:Hw; simpl; [|discriminate].
  intros [= <-].
  apply (while__inv (fun st => length (snd st) = length x)) in Hw.
  - exact Hw.
  - intros [j t] Ht. cbn [fst snd] in *. rewrite rmsNorm_row_length. exact Ht.
  - apply length_alloc.
Qed.

(** On whole rows that fit 32-bit indexing the loop of [rmsNorm] ends, one
    row per iteration. *)
Lemma rmsNorm_rows (x : list F) (weight : nat -> Z) (dModel rows : nat) (eps : F) :
  0 < dModel -> length x = rows * dModel -> fits32 (length x) ->
  rmsNorm x weight dModel eps
  = Ok (for_ rows (fun r => rmsNorm_row x weight dModel eps (r * dModel))
             (alloc (length x))).
Proof.
  intros Hd Hx Hfit. unfold rmsNorm, for_u32.
  assert (Hrows : (length x + dModel - 1) / dModel = rows).
  { rewrite Hx. replace (rows * dModel + dModel - 1) with ((dModel - 1) + rows * dModel) by lia.
    rewrite Nat.div_add by lia. rewrite Nat.div_small by lia. reflexivity. }
  rewrite for_wrap_exact.
  - unfold for_step. rewrite Hrows. reflexivity.
  - exact Hd.
  - intros r Hr. apply u32_fits, (fits32_le _ (length x)); [|exact Hfit].
    rewrite Hx in *. assert (r < rows) by nia. nia.
  - rewrite Hrows. assert (rows <= rows * dModel) by nia. lia.
Qed.

(** The cells of the row that starts at [r0 * dModel]. *)
Lemma rmsNorm_cell (x : list F) (weight : nat -> Z) (dModel rows : nat) (eps : F)
    (r0 i : nat) :
  0 < dModel -> length x = rows * dModel -> fits32 (length x) ->
  r0 < rows -> i < dModel ->
  exists y, rmsNorm x weight dModel eps = Ok y
    /\ length y = length x
    /\ rd y (r0 * dModel + i) = rms_value x weight dModel eps (r0 * dModel) i.
Proof.
  intros Hd Hx Hfit Hr0 Hi. rewrite (rmsNorm_rows x weight dModel rows eps Hd Hx Hfit).
  eexists. split; [reflexivity|].
  assert (Hu : forall r j, r < rows -> j < dModel -> r * dModel +! j = r * dModel + j).
  { intros r j Hr Hj. apply u32_fits, (fits32_le _ (length x)); [|exact Hfit].
    rewrite Hx. nia. }
  assert (Hrow : forall r y, r < rows ->
            rmsNorm_row x weight dModel eps (r * dModel) y
            = for_ dModel (fun j o => wr o (r * dModel + j)
                                         (rms_value x weight dModel eps (r * dModel) j)) y).
  { intros r y Hr. unfold rmsNorm_row, rms_value. apply for__ext.
    intros j o Hj. rewrite (Hu r j Hr Hj). reflexivity. }
  apply (for__hit (length x) rows (r0 * dModel + i) r0); try assumption.
  - intros r t _ Ht. rewrite rmsNorm_row_length. exact Ht.
  - intros t Ht. rewrite (Hrow r0 t Hr0).
    apply (for__wr_hit dModel (fun j => r0 * dModel + j)); [lia|exact Hi|].
    rewrite Ht, Hx. nia.
  - intros r t Hr Hne Ht. rewrite (Hrow r t Hr).
    apply for__wr_miss. intros j Hj Heq.
    apply radix_inj in Heq as [-> _]; [|exact Hj|exact Hi]. apply Hne. reflexivity.
  - apply length_alloc.
Qed.

(** The last row of [rmsNorm] is [rmsNorm] of the last row. *)
Lemma rmsNorm_last_row (x : list F) (weight : nat -> Z) (dModel rows : nat) (eps : F) :
  0 < dModel -> 0 < rows -> length x = rows * dModel -> fits32 (length x) ->
  exists y last,
    rmsNorm x weight dModel eps = Ok y
    /\ rmsNorm (drop ((rows - 1) * dModel) x) weight dModel eps = Ok last
    /\ length y = length x
    /\ length last = dModel
    /\ drop ((rows - 1) * dModel) y = last.
Proof.
  intros Hd Hrows Hx Hfit.
  set (k := (rows - 1) * dModel).
  assert (Hk : k + dModel = length x) by (unfold k; rewrite Hx; nia).
  assert (Hlx' : length (drop k x) = 1 * dModel) by (rewrite length_drop; lia).
  assert (Hfit' : fits32 (length (drop k x))).
  { apply (fits32_le _ (length x)); [rewrite length_drop; lia|exact Hfit]. }
  destruct (rmsNorm_cell x weight dModel rows eps (rows - 1) 0 Hd Hx Hfit)
    as (y & Hy & Hly & _); [lia|lia|].
  destruct (rmsNorm_cell (drop k x) weight dModel 1 eps 0 0 Hd Hlx' Hfit')
    as (last & Hlast & Hll & _); [lia|lia|].
  exists y, last. split; [exact Hy|]. split; [exact Hlast|]. split; [exact Hly|].
  split; [lia|].
  apply rd_ext; [rewrite length_drop; lia|].
  intros i Hi. rewrite length_drop in Hi. rewrite rd_drop.
  destruct (rmsNorm_cell x weight dModel rows eps (rows - 1) i Hd Hx Hfit)
    as (y1 & Hy1 & _ & Hc); [lia|lia|].
  destruct (rmsNorm_cell (drop k x) weight dModel 1 eps 0 i Hd Hlx' Hfit')
    as (l1 & Hl1 & _ & Hc'); [lia|lia|].
  rewrite Hy in Hy1. injection Hy1 as <-.
  rewrite Hlast in Hl1. injection Hl1 as <-.
  fold k in Hc. rewrite Hc. simpl in Hc'. rewrite Hc'.
  assert (Hu : forall j, j < dModel -> k +! j = k + j /\ 0 +! j = j).
  { intros j Hj. split; apply u32_fits, (fits32_le _ (length x)); try exact Hfit; lia. }
  unfold rms_value.
  assert (Hsum : for_ dModel (fun j s => fadd s (fmul (rd x (k +! j)) (rd x (k +! j)))) (fofZ 0)
               = for_ dModel (fun j s => fadd s (fmul (rd (drop k x) (0 +! j))
                                                     (rd (drop k x) (0 +! j)))) (fofZ 0)).
  { apply for__ext. intros j s Hj. destruct (Hu j Hj) as [-> ->].
    rewrite rd_drop. reflexivity. }
  rewrite Hsum. destruct (Hu i) as [-> ->]; [lia|]. rewrite rd_drop. reflexivity.
Qed.
End Rows.

Section DivergeOps.
Context {F : Type} `{FloatOps F}.

(** X3.  A row width of 0 on a non-empty buffer: the counter of [rmsNorm] never
    moves. *)
Lemma rmsNorm_no_return (x : list F) (weight : nat -> Z) (eps : F) :
  x <> [] -> rmsNorm x weight 0 eps = Err NoReturn.
Proof.
  intros Hx. unfold rmsNorm, for_u32, for_wrap.
  rewrite (while__diverges (fun st : nat * list F => fst st = 0)).
  - reflexivity.
  - intros [i t] Hi. cbn [fst] in *. subst i. apply Nat.ltb_lt.
    destruct x; [contradiction|simpl; lia].
  - intros [i t] Hi. cbn [fst] in *. subst i. reflexivity.
  - reflexivity.
Qed.
End DivergeOps.

(** ** [project] *)

Section Project.
Context {F : Type} `{FloatOps F}.

Lemma project_length (x y : list F) (weight : nat -> Z) (dIn dOut : nat) :
  project x weight dIn dOut = Ok y ->
  dIn <> 0 /\ length y = length x / dIn * dOut.
Proof.
  unfold project. destruct (Nat.eqb_spec dIn 0) as [|Hd]; [discriminate|].
  intros [= <-]. split; [exact Hd|].
  apply (for__ind (fun _ t => length t = length x / dIn * dOut)); [apply length_alloc|].
  intros j t _ Ht. rewrite for__wr_length. exact Ht.
Qed.

(** Row [n0], column [j0] of [project] holds the dot product of input row
    [n0] and weight row [j0]. *)
Lemma project_cell (x : list F) (weight : nat -> Z) (dIn dOut n0 j0 : nat) :
  dIn <> 0 -> fits32 (length x / dIn * dOut) ->
  n0 < length x / dIn -> j0 < dOut ->
  exists y, project x weight dIn dOut = Ok y
    /\ length y = length x / dIn * dOut
    /\ rd y (n0 * dOut + j0) = dot_row x weight dIn n0 j0.
Proof.
  intros Hd Hfit Hn0 Hj0. unfold project.
  destruct (Nat.eqb_spec dIn 0) as [|_]; [contradiction|].
  eexists. split; [reflexivity|].
  set (rows := length x / dIn) in *.
  assert (Hu : forall n j, n < rows -> j < dOut -> n *! dOut +! j = n * dOut + j).
  { intros n j Hn Hj.
    assert (Hle : n * dOut + j < rows * dOut) by nia.
    rewrite (u32_fits (n * dOut)) by (apply (fits32_le _ (rows * dOut)); [lia|exact Hfit]).
    apply u32_fits, (fits32_le _ (rows * dOut)); [lia|exact Hfit]. }
  assert (Hinner : forall j t, j < dOut ->
            for_ rows (fun n y =>
              wr y (n *! dOut +! j)
                 (for_ dIn (fun i dot =>
                    fadd dot (fmul (rd x (n *! dIn +! i))
                                   (bf16_to_float (weight (j *! dIn +! i))))) (fofZ 0))) t
            = for_ rows (fun n y => wr y (n * dOut + j) (dot_row x weight dIn n j)) t).
  { intros j t Hj. apply for__ext. intros n y Hn. rewrite (Hu n j Hn Hj). reflexivity. }
  apply (for__hit (rows * dOut) dOut (n0 * dOut + j0) j0); try assumption.
  - intros j t _ Ht. rewrite for__wr_length. exact Ht.
  - intros t Ht. rewrite (Hinner j0 t Hj0).
    apply (for__wr_hit rows (fun n => n * dOut + j0)
             (fun n => dot_row x weight dIn n j0) t n0); [|exact Hn0|].
    + intros n Hn Heq. apply radix_inj in Heq as [-> _]; [reflexivity|exact Hj0|exact Hj0].
    + rewrite Ht. nia.
  - intros j t Hj Hne Ht. rewrite (Hinner j t Hj).
    apply for__wr_miss. intros n Hn Heq.
    apply radix_inj in Heq as [_ ->]; [|exact Hj|exact Hj0]. apply Hne. reflexivity.
  - apply length_alloc.
Qed.

(** The last row of [project] is [project] of the last row. *)
Lemma project_last_row (x : list F) (weight : nat -> Z) (dIn dOut rows : nat) :
  0 < dIn -> 0 < rows -> length x = rows * dIn ->
  fits32 (length x) -> fits32 (rows * dOut) ->
  exists y last,
    project x weight dIn dOut = Ok y
    /\ project (drop ((rows - 1) * dIn) x) weight dIn dOut = Ok last
    /\ length y = rows * dOut
    /\ length last = dOut
    /\ drop ((rows - 1) * dOut) y = last.
Proof.
  intros Hd Hrows Hx Hfit Hfit'.
  set (k := (rows - 1) * dIn).
  assert (Hrx : length x / dIn = rows) by (rewrite Hx; apply Nat.div_mul; lia).
  assert (Hrk : length (drop k x) / dIn = 1).
  { rewrite length_drop, Hx. replace (rows * dIn - k) with (1 * dIn) by (unfold k; nia).
    apply Nat.div_mul. lia. }
  assert (Hret : forall z, exists y, project z weight dIn dOut = Ok y).
  { intros z. unfold project. destruct (Nat.eqb_spec dIn 0) as [|_]; [lia|].
    eexists. reflexivity. }
  destruct (Hret x) as (y & Hy). destruct (Hret (drop k x)) as (last & Hlast).
  assert (Hly : length y = rows * dOut).
  { destruct (project_length _ _ _ _ _ Hy) as [_ ->]. rewrite Hrx. reflexivity. }
  assert (Hll : length last = dOut).
  { destruct (project_length _ _ _ _ _ Hlast) as [_ ->]. rewrite Hrk. lia. }
  exists y, last. repeat (split; [assumption|]).
  apply rd_ext; [rewrite length_drop; nia|].
  intros j Hj. rewrite length_drop in Hj. rewrite rd_drop.
  assert (Hjo : j < dOut) by nia.
  destruct (project_cell x weight dIn dOut (rows - 1) j) as (y1 & Hy1 & _ & Hc);
    try (rewrite ?Hrx; first [lia | assumption]).
  destruct (project_cell (drop k x) weight dIn dOut 0 j) as (l1 & Hl1 & _ & Hc');
    try (rewrite ?Hrk; first [lia | idtac]).
  { apply (fits32_le _ (rows * dOut)); [nia|exact Hfit']. }
  rewrite Hy in Hy1. injection Hy1 as <-.
  rewrite Hlast in Hl1. injection Hl1 as <-.
  rewrite Hc. simpl in Hc'. rewrite Hc'.
  unfold dot_row. apply for__ext. intros i dot Hi. f_equal. f_equal.
  assert (E1 : (rows - 1) *! dIn +! i = k + i).
  { fold k.
    rewrite (u32_fits k) by (apply (fits32_le _ (length x)); [unfold k; nia|exact Hfit]).
    apply u32_fits, (fits32_le _ (length x)); [unfold k; nia|exact Hfit]. }
  assert (E2 : 0 *! dIn +! i = i).
  { change (0 * dIn) with 0. replace (u32 0) with 0 by reflexivity.
    change (0 + i) with i.
    apply u32_fits, (fits32_le _ (length x)); [nia|exact Hfit]. }
  rewrite E1, E2, rd_drop. reflexivity.
Qed.
End Project.

(* ================================================================== *)
(** * [predict] *)

Section Predict.
Context {F : Type} `{FloatOps F} `{FloatTrig F}.

(** The residual additions keep the size of the hidden state. *)
Lemma forward_layers_length (model : Model F) (hidden hidden' : list F) :
  forward_layers model hidden = Ok hidden' -> length hidden' = length hidden.
Proof.
  unfold forward_layers.
  assert (Hfold : forall (ls : list Layer) (acc : result (list F)) (h' : list F),
            foldl (fun acc layer =>
                     hidden ← acc;
                     a ← attention model layer hidden;
                     let hidden := addInPlace hidden a in
                     m ← mlp model layer hidden;
                     mret (addInPlace hidden m)) acc ls = Ok h' ->
            exists h0, acc = Ok h0 /\ length h' = length h0).
  { induction ls as [|l ls IH]; intros acc h' Hh'.
    - exists h'. auto.
    - simpl in Hh'. apply IH in Hh' as (h1 & Hh1 & Hlen).
      destruct acc as [h0|]; [|discriminate]. exists h0. split; [reflexivity|].
      cbn [mbind result_bind] in Hh1.
      destruct (attention model l h0) as [a|]; [|discriminate].
      cbn [mbind result_bind] in Hh1.
      destruct (mlp model l (addInPlace h0 a)) as [m|]; [|discriminate].
      injection Hh1 as <-. rewrite Hlen, !addInPlace_length. reflexivity. }
  intros Hh'. apply Hfold in Hh' as (h0 & [= <-] & Hlen). exact Hlen.
Qed.

Lemma max_element_nil : max_element ([] : list F) = 0.
Proof. reflexivity. Qed.


(** The logits buffer holds one row of [dVocab] entries per token. *)
Lemma predict_logits_length (model : Model F) (tokens : list nat) (logits : list F) :
  predict_logits model tokens = Ok logits ->
  length logits = length tokens * dVocab model.
Proof.
  unfold predict_logits. intros Hlogits.
  destruct (forward_layers model _) as [hidden|] eqn:Hfwd; [|discriminate].
  cbn [mbind result_bind] in Hlogits.
  destruct (rmsNorm hidden _ _ _) as [y|] eqn:Hy; [|discriminate].
  cbn [mbind result_bind] in Hlogits.
  apply project_length in Hlogits as [Hd ->].
  rewrite (rmsNorm_length _ _ _ _ _ Hy), (forward_layers_length _ _ _ Hfwd).
  rewrite embeddingLookup_length, Nat.div_mul by exact Hd. reflexivity.
Qed.

(** C10.  The logits buffer has [length tokens * dVocab] entries.  For a
    non-empty token sequence that is at least [dVocab], the slice the
    arg-max reads starts at a non-negative offset and [predict] returns;
    for the empty sequence the buffer is empty, the slice starts [dVocab]
    entries before it, and with a non-empty vocabulary the arg-max reads
    out of bounds. *)
Theorem predict_slice_bounds (model : Model F) (tokens : list nat) (logits : list F) :
  predict_logits model tokens = Ok logits ->
  length logits = length tokens * dVocab model
  /\ (tokens <> [] ->
      dVocab model <= length logits
      /\ (0 <= Z.of_nat (length logits) - Z.of_nat (dVocab model))%Z
      /\ is_ok (predict model tokens) = true)
  /\ (tokens = [] ->
      length logits = 0
      /\ (Z.of_nat (length logits) - Z.of_nat (dVocab model) = - Z.of_nat (dVocab model))%Z
      /\ (0 < dVocab model -> predict model tokens = Err OutOfBounds)).
Proof.
  intros Hlogits. pose proof (predict_logits_length model tokens logits Hlogits) as Hlen.
  split; [exact Hlen|]. unfold predict. rewrite Hlogits. cbn [mbind result_bind].
  unfold max_element_range. split.
  - intros Htok.
    assert (Hrows : 0 < length tokens) by (destruct tokens; [contradiction|simpl; lia]).
    assert (Hle : dVocab model <= length logits) by (rewrite Hlen; nia).
    split; [exact Hle|]. split; [lia|].
    destruct (Z.eqb_spec (Z.of_nat (length logits) - Z.of_nat (dVocab model))
                (Z.of_nat (length logits))); [reflexivity|].
    destruct (Z.ltb_spec (Z.of_nat (length logits) - Z.of_nat (dVocab model)) 0); [lia|].
    destruct (Z.ltb_spec (Z.of_nat (length logits)) (Z.of_nat (length logits))); [lia|].
    destruct (Z.ltb_spec (Z.of_nat (length logits))
                (Z.of_nat (length logits) - Z.of_nat (dVocab model))); [lia|].
    reflexivity.
  - intros ->. simpl in Hlen. rewrite Hlen. split; [reflexivity|]. split; [lia|].
    intros Hv. destruct (Z.eqb_spec (Z.of_nat 0 - Z.of_nat (dVocab model)) (Z.of_nat 0));
      [lia|].
    destruct (Z.ltb_spec (Z.of_nat 0 - Z.of_nat (dVocab model)) 0); [reflexivity|lia].
Qed.
End Predict.

(* ================================================================== *)
(** * The forward pass returns *)

Section Returns.
Context {F : Type} `{FloatOps F} `{FloatTrig F}.

Lemma project_returns (x : list F) (weight : nat -> Z) (dIn dOut : nat) :
  dIn <> 0 -> exists y, project x weight dIn dOut = Ok y.
Proof.
  intros Hd. unfold project. destruct (Nat.eqb_spec dIn 0) as [|_]; [contradiction|].
  eexists. reflexivity.
Qed.

Lemma rotate_returns (x freq : list F) (nHeads : nat) :
  nHeads *! u32 (2 * length freq) <> 0 -> exists y, rotate x freq nHeads = Ok y.
Proof.
  intros Hd. unfold rotate.
  destruct (Nat.eqb_spec (nHeads *! u32 (2 * length freq)) 0) as [|_]; [contradiction|].
  eexists. reflexivity.
Qed.

Lemma selfAttention_returns (q k v : list F) (dKV dQ dHead : nat) :
  dKV *! dHead <> 0 -> exists out, selfAttention q k v dKV dQ dHead = Ok out.
Proof.
  intros Hd. unfold selfAttention.
  destruct (Nat.eqb_spec (dKV *! dHead) 0) as [|_]; [contradiction|].
  eexists. reflexivity.
Qed.

Lemma rmsNorm_returns (x : list F) (weight : nat -> Z) (dModel rows : nat) (eps : F) :
  0 < dModel -> length x = rows * dModel -> fits32 (length x) ->
  exists y, rmsNorm x weight dModel eps = Ok y /\ length y = length x.
Proof.
  intros Hd Hx Hfit. rewrite (rmsNorm_rows x weight dModel rows eps Hd Hx Hfit).
  eexists. split; [reflexivity|].
  apply (for__ind (fun _ t => length t = length x)); [apply length_alloc|].
  intros r t _ Ht. rewrite rmsNorm_row_length. exact Ht.
Qed.

Lemma attention_returns (model : Model F) (layer : Layer) (x : list F) (rows : nat) :
  dims_ok model -> length x = rows * dModel model -> fits32 (length x) ->
  exists y, attention model layer x = Ok y.
Proof.
  intros (Hd & Hf & Hqw & Hkw & Hqr & Hkr) Hx Hfit. unfold attention.
  destruct (rmsNorm_returns x (weights model (attnNorm layer)) (dModel model) rows
              (normEps model) Hd Hx Hfit) as (z & -> & _).
  cbn [mbind result_bind].
  destruct (project_returns z (weights model (attnQ layer)) (dModel model)
              (dAttnKV model *! dAttnQ model *! dAttnHead model)) as (q & ->); [lia|].
  cbn [mbind result_bind].
  destruct (project_returns z (weights model (attnK layer)) (dModel model)
              (dAttnKV model *! dAttnHead model)) as (k & ->); [lia|].
  cbn [mbind result_bind].
  destruct (project_returns z (weights model (attnV layer)) (dModel model)
              (dAttnKV model *! dAttnHead model)) as (v & ->); [lia|].
  cbn [mbind result_bind].
  destruct (rotate_returns q (ropeFreq model) (dAttnKV model *! dAttnQ model) Hqr)
    as (q' & ->).
  cbn [mbind result_bind].
  destruct (rotate_returns k (ropeFreq model) (dAttnKV model) Hkr) as (k' & ->).
  cbn [mbind result_bind].
  destruct (selfAttention_returns q' k' v (dAttnKV model) (dAttnQ model)
              (dAttnHead model) Hkw) as (mix & ->).
  cbn [mbind result_bind].
  apply project_returns. exact Hqw.
Qed.

Lemma mlp_returns (model : Model F) (layer : Layer) (x : list F) (rows : nat) :
  dims_ok model -> length x = rows * dModel model -> fits32 (length x) ->
  exists y, mlp model layer x = Ok y.
Proof.
  intros (Hd & Hf & _) Hx Hfit. unfold mlp.
  destruct (rmsNorm_returns x (weights model (mlpNorm layer)) (dModel model) rows
              (normEps model) Hd Hx Hfit) as (z & -> & _).
  cbn [mbind result_bind].
  destruct (project_returns z (weights model (mlpUp layer)) (dModel model) (dFFN model))
    as (up & ->); [lia|].
  cbn [mbind result_bind].
  destruct (project_returns z (weights model (mlpGate layer)) (dModel model) (dFFN model))
    as (gate & ->); [lia|].
  cbn [mbind result_bind].
  apply project_returns. lia.
Qed.

Lemma forward_layers_returns (model : Model F) (hidden : list F) (rows : nat) :
  dims_ok model -> length hidden = rows * dModel model -> fits32 (length hidden) ->
  exists hidden', forward_layers model hidden = Ok hidden'.
Proof.
  intros Hok Hlen Hfit. unfold forward_layers.
  generalize (layers model). intros ls. revert hidden Hlen Hfit.
  induction ls as [|l ls IH]; intros hidden Hlen Hfit.
  - eexists. reflexivity.
  - simpl. cbn [mbind result_bind].
    destruct (attention_returns model l hidden rows Hok Hlen Hfit) as (a & ->).
    cbn [mbind result_bind].
    destruct (mlp_returns model l (addInPlace hidden a) rows Hok) as (m & ->);
      [rewrite addInPlace_length; exact Hlen|rewrite addInPlace_length; exact Hfit|].
    cbn [mbind result_bind mret result_ret].
    apply IH; rewrite !addInPlace_length; assumption.
Qed.

(** On a model with non-zero dimensions [predict] computes its logits for
    every token sequence that fits 32-bit indexing. *)
Lemma predict_logits_returns (model : Model F) (tokens : list nat) :
  dims_ok model -> fits32 (length tokens * dModel model) ->
  exists logits, predict_logits model tokens = Ok logits.
Proof.
  intros Hok Hfit. unfold predict_logits.
  pose proof (embeddingLookup_length tokens (weights model (embedTokens model))
                (dModel model)) as Hlen.
  destruct (forward_layers_returns model _ (length tokens) Hok Hlen) as (hidden & Hh);
    [rewrite Hlen; exact Hfit|].
  rewrite Hh. cbn [mbind result_bind].
  apply forward_layers_length in Hh. rewrite Hlen in Hh.
  destruct Hok as (Hd & _).
  destruct (rmsNorm_returns hidden (weights model (finalNorm model)) (dModel model)
              (length tokens) (normEps model) Hd Hh) as (y & -> & _);
    [rewrite Hh; exact Hfit|].
  cbn [mbind result_bind]. apply project_returns. lia.
Qed.
End Returns.

(** With no token the slice of the arg-max lies before the logits. *)
Lemma predict_empty_out_of_bounds {F : Type} `{FloatOps F} `{FloatTrig F}
    (model : Model F) :
  dims_ok model -> 0 < dVocab model -> predict model [] = Err OutOfBounds.
Proof.
  intros Hok Hv.
  destruct (predict_logits_returns model [] Hok) as (logits & Hlogits);
    [vm_compute; reflexivity|].
  pose proof (predict_logits_length model [] logits Hlogits) as Hlen. simpl in Hlen.
  unfold predict. rewrite Hlogits. cbn [mbind result_bind].
  unfold max_element_range. rewrite Hlen.
  destruct (Z.eqb_spec (Z.of_nat 0 - Z.of_nat (dVocab model)) (Z.of_nat 0)); [lia|].
  destruct (Z.ltb_spec (Z.of_nat 0 - Z.of_nat (dVocab model)) 0); [reflexivity|lia].
Qed.

Lemma model_one_layer_dims : dims_ok model_one_layer.
Proof. repeat split; vm_compute; (lia || discriminate). Qed.

Lemma model_one_layer_loops (rows : nat) :
  rows <= 1000 -> loops_fit model_one_layer rows.
Proof.
  intros Hrows. unfold loops_fit.
  change (dAttnKV model_one_layer *! dAttnQ model_one_layer *! dAttnHead model_one_layer)
    with 2.
  change (dAttnKV model_one_layer *! dAttnHead model_one_layer) with 2.
  cbn [dModel dFFN ropeFreq model_one_layer length].
  unfold fits32, two32. repeat split; lia.
Qed.


Lemma predict_slice_bounds_witness :
  exists logits : list R,
    predict_logits model_one_layer [1] = Ok logits
    /\ length logits = length [1] * dVocab model_one_layer.
Proof.
  assert (H3 : fits32 (length [1] * dModel model_one_layer)) by (vm_compute; reflexivity).
  destruct (predict_logits_returns model_one_layer [1] model_one_layer_dims H3)
    as (logits & Hlogits).
  exists logits. split; [exact Hlogits|].
  exact (proj1 (predict_slice_bounds model_one_layer [1] logits Hlogits)).
Defined.

(* ================================================================== *)
(** * Further runs *)

Lemma loadParameters_store_witness :
  exists m' : Model spec_float,
    loadParameters model_no_layers header_two file8 = Ok m'
    /\ v_store (_parameterData m') = take 8 (is_rest file8).
Proof.
  assert (Hrun : exists m' : Model spec_float,
             loadParameters model_no_layers header_two file8 = Ok m')
    by (eexists; vm_compute; reflexivity).
  destruct Hrun as (m' & Hm'). exists m'. split; [exact Hm'|].
  refine (proj2 (loadParameters_store model_no_layers m' _ (is_rest file8) 8
                   eq_refl _ _ _ Hm')).
  - vm_compute. reflexivity.
  - vm_compute. discriminate.
  - simpl. lia.
Defined.

Lemma rmsNorm_no_return_witness :
  @rmsNorm _ (Binary32.ops Binary32.exp_fixed) [Binary32.one] (fun _ => 0%Z) 0
    (S754_zero false) = Err NoReturn.
Proof.
  apply (@rmsNorm_no_return _ (Binary32.ops Binary32.exp_fixed)). discriminate.
Defined.

Lemma loadConfig_bad_alloc_witness :
  loadConfig (cfg0 1 1 (N.to_nat 4294967295)) = Err (Thrown BadAlloc).
Proof.
  apply loadConfig_bad_alloc.
  - cbn [num_key_value_heads cfg0]. lia.
  - cbn [head_dim cfg0]. rewrite N2Nat.id. reflexivity.
Defined.


(* ================================================================== *)
(** * Flat indices and rows *)

Lemma u32_add_l (a b : nat) : u32 (u32 a + b) = u32 (a + b).
Proof.
  unfold u32. f_equal. rewrite Nat2N.inj_add, N2Nat.id, Nat2N.inj_add.
  apply N.Div0.add_mod_idemp_l.
Qed.

(** A flat index below a size that fits is computed without wrapping. *)
Lemma row_index (rows d n i : nat) :
  fits32 (rows * d) -> n < rows -> i < d ->
  n *! d +! i = n * d + i /\ n * d + i < rows * d.
Proof.
  intros Hfit Hn Hi.
  assert (Hlt : n * d + i < rows * d) by nia.
  split; [|exact Hlt].
  rewrite (u32_fits (n * d)) by (apply (fits32_le _ (rows * d)); [lia|exact Hfit]).
  apply u32_fits, (fits32_le _ (rows * d)); [lia|exact Hfit].
Qed.

Section RowsMore.
Context {F : Type} `{FloatOps F}.

(** Two tensors of rows of width [w] that agree on the cells of the first
    [n] rows. *)
Lemma take_rows (y y' : list F) (w n : nat) :
  length y' = n * w -> n * w <= length y ->
  (forall r i, r < n -> i < w -> rd y' (r * w + i) = rd y (r * w + i)) ->
  y' = take (n * w) y.
Proof.
  intros Hy' Hy Hcells. apply rd_ext.
  - rewrite length_take. lia.
  - intros j Hj. rewrite Hy' in Hj. rewrite rd_take by exact Hj.
    assert (Hw : w <> 0) by (intros ->; lia).
    rewrite (Nat.div_mod_eq j w), (Nat.mul_comm w).
    apply Hcells.
    + apply Nat.Div0.div_lt_upper_bound. lia.
    + apply Nat.mod_upper_bound, Hw.
Qed.
End RowsMore.

(* ================================================================== *)
(** * The loader: pointers, tensor data and malformed entries *)

Section LoadPointers.
Context {F : Type}.

(** An error of the fold of [max_offset] stays. *)
Lemma max_offset_fold_err (l : list (string * json)) (f : fault) :
  foldl (fun acc e => m ← acc; o ← end_offset (snd e); mret (Nat.max m o)) (Err f) l
  = Err f.
Proof. induction l as [|x l IH]; [reflexivity|]. simpl. exact IH. Qed.

(** The fold of [max_offset] returns only when every entry has an end,
    and then no end is above the result. *)
Lemma max_offset_fold_ok (l : list (string * json)) (a mo : nat) :
  foldl (fun acc e => m ← acc; o ← end_offset (snd e); mret (Nat.max m o)) (Ok a) l
  = Ok mo ->
  a <= mo /\ forall kj, kj ∈ l -> exists o, end_offset (snd kj) = Ok o /\ o <= mo.
Proof.
  revert a. induction l as [|x l IH]; intros a; simpl.
  - intros [= <-]. split; [lia|]. intros kj Hin. inversion Hin.
  - destruct (end_offset (snd x)) as [o|f] eqn:Ho; simpl.
    + intros Hfold. destruct (IH _ Hfold) as [Hle Hall]. split; [lia|].
      intros kj Hin. apply elem_of_cons in Hin as [->|Hin].
      * exists o. split; [exact Ho|lia].
      * apply Hall, Hin.
    + rewrite max_offset_fold_err. discriminate.
Qed.

Lemma end_offset_ok (j : json) (o : nat) :
  end_offset j = Ok o ->
  exists e b n rest, j = JObj e
    /\ e !! "data_offsets" = Some (JArr (b :: JNum n :: rest)) /\ o = u64 n.
Proof.
  unfold end_offset. destruct j as [| | | | |e]; cbn; try discriminate.
  destruct (e !! "data_offsets") as [[| | | |[|b [|[| |n| | |] rest]]|]|] eqn:He;
    cbn; try discriminate.
  intros [= <-]. exists e, b, n, rest. auto.
Qed.

Lemma load_ok (m : gmap string json) (name : string) (p : ParameterPtr) (mo : nat) :
  max_offset (JObj (delete "__metadata__" m)) = Ok mo ->
  load (JObj (delete "__metadata__" m)) name = Ok p ->
  tensor_dtype (JObj m) name = Some "BF16"
  /\ exists n, tensor_offsets (JObj m) name = Some (p_data p, n) /\ n <= mo.
Proof.
  intros Hmax. unfold load, tensor_dtype, tensor_offsets. cbn [json_at mbind result_bind].
  rewrite lookup_delete_ne by (apply not_eq_sym, tensor_key_ne).
  destruct (m !! _) as [j|] eqn:Hj; cbn; [|discriminate].
  assert (Hin : ("model." +:+ name +:+ ".weight", j)
                ∈ json_items (JObj (delete "__metadata__" m))).
  { apply elem_of_map_to_list. rewrite lookup_delete_ne by (apply not_eq_sym, tensor_key_ne).
    exact Hj. }
  destruct (max_offset_fold_ok _ _ _ Hmax) as [_ Hall].
  destruct (Hall _ Hin) as (o & Ho & Hle). cbn [snd] in Ho.
  destruct (end_offset_ok _ _ Ho) as (e & b & n & rest & -> & He & ->).
  cbn. rewrite He.
  destruct (e !! "dtype") as [[| | |d| |]|]; cbn; try discriminate.
  destruct (decide (d = "BF16")) as [->|]; [|discriminate].
  destruct b as [| |b| | |]; cbn; try discriminate.
  intros [= <-]. split; [reflexivity|]. exists (u64 n). split; [reflexivity|exact Hle].
Qed.

Lemma load_layer_ok (m : gmap string json) (idx : nat) (l : Layer) (mo : nat) :
  max_offset (JObj (delete "__metadata__" m)) = Ok mo ->
  load_layer (JObj (delete "__metadata__" m)) idx = Ok l ->
  Forall2 (fun name p => tensor_dtype (JObj m) name = Some "BF16"
             /\ exists n, tensor_offsets (JObj m) name = Some (p, n) /\ n <= mo)
          (layer_tensors idx) (layer_pointers l).
Proof.
  intros Hmax. unfold load_layer.
  repeat match goal with
         | |- (load ?h ?n ≫= _) = _ -> _ =>
             let p := fresh "p" in let Hp := fresh "Hp" in
             destruct (load h n) as [p|] eqn:Hp; cbn [mbind result_bind]; [|discriminate];
             apply (load_ok _ _ _ _ Hmax) in Hp
         end.
unfold mret, result_ret. intros [= <-]. unfold layer_tensors, layer_pointers. cbn [fmap list_fmap].
  repeat (constructor; [assumption|]). constructor.
Qed.

Lemma load_layers_ok (m : gmap string json) (n : nat) (ls ls' : list Layer) (mo : nat) :
  max_offset (JObj (delete "__metadata__" m)) = Ok mo ->
  load_layers (JObj (delete "__metadata__" m)) n ls = Ok ls' ->
  exists new, ls' = ls ++ new /\ length new = n
    /\ forall idx l, new !! idx = Some l ->
         Forall2 (fun name p => tensor_dtype (JObj m) name = Some "BF16"
                    /\ exists n, tensor_offsets (JObj m) name = Some (p, n) /\ n <= mo)
                 (layer_tensors idx) (layer_pointers l).
Proof.
  intros Hmax. unfold load_layers. revert ls'.
  induction n as [|n IH]; intros ls'.
  - rewrite for__0. intros [= <-]. exists []. rewrite app_nil_r.
    repeat split. intros idx l Hl. discriminate.
  - rewrite for__S.
    destruct (for_ n _ _) as [acc|]; cbn [mbind result_bind]; [|discriminate].
    destruct (IH acc eq_refl) as (new & -> & Hlen & Hall).
    destruct (load_layer _ n) as [l|] eqn:Hl; cbn [mbind result_bind]; [|discriminate].
    unfold mret, result_ret. intros [= <-]. exists (new ++ [l]). rewrite <- app_assoc. split; [reflexivity|].
    split; [rewrite length_app; simpl; lia|].
    intros idx l' Hidx. destruct (decide (idx < n)) as [Hlt|Hge].
    + rewrite lookup_app_l in Hidx by lia. apply Hall, Hidx.
    + rewrite lookup_app_r in Hidx by lia.
      replace idx with n in *.
      2:{ apply lookup_lt_Some in Hidx. simpl in Hidx. lia. }
      rewrite Hlen, Nat.sub_diag in Hidx. injection Hidx as <-.
      apply (load_layer_ok _ _ _ _ Hmax Hl).
Qed.

(** X5.  After a load that returns, every pointer is the start offset the
    header records for its tensor, the layers of the header are appended
    to the layers the model had, and the dimensions are untouched. *)
Theorem loadParameters_pointers (model m' : Model F) (header : json) (file : istream) :
  loadParameters model header file = Ok m' ->
  fst <$> tensor_offsets header "embed_tokens" = Some (p_data (embedTokens m'))
  /\ fst <$> tensor_offsets header "norm" = Some (p_data (finalNorm m'))
  /\ (exists new, layers m' = layers model ++ new
        /\ length new = nLayers model
        /\ forall idx l, new !! idx = Some l ->
             (fun name => fst <$> tensor_offsets header name) <$> layer_tensors idx
             = Some <$> layer_pointers l)
  /\ nLayers m' = nLayers model /\ dVocab m' = dVocab model
  /\ dModel m' = dModel model /\ dFFN m' = dFFN model
  /\ dAttnHead m' = dAttnHead model /\ ropeFreq m' = ropeFreq model.
Proof.
  unfold loadParameters.
  destruct header as [| | | | |m]; cbn [json_erase mbind result_bind]; try discriminate.
  destruct (max_offset _) as [mo|] eqn:Hmax; cbn [mbind result_bind]; [|discriminate].
  destruct (v_reserve _ _) as [data|]; cbn [mbind result_bind]; [|discriminate].
  destruct (read_chunks _ _ _) as [st|]; cbn [mbind result_bind]; [|discriminate].
  destruct (load _ "embed_tokens") as [e|] eqn:He; cbn [mbind result_bind]; [|discriminate].
  destruct (load_layers _ _ _) as [ls|] eqn:Hls; cbn [mbind result_bind]; [|discriminate].
  destruct (load _ "norm") as [nm|] eqn:Hnm; cbn [mbind result_bind]; [|discriminate].
  unfold mret, result_ret. intros [= <-].
  cbn [embedTokens finalNorm layers nLayers dVocab dModel dFFN dAttnHead ropeFreq].
  destruct (load_ok _ _ _ _ Hmax He) as (_ & n1 & -> & _).
  destruct (load_ok _ _ _ _ Hmax Hnm) as (_ & n2 & -> & _).
  destruct (load_layers_ok _ _ _ _ _ Hmax Hls) as (new & -> & Hlen & Hall).
  repeat split; try reflexivity.
  exists new. repeat split; [exact Hlen|].
  intros idx l Hl. specialize (Hall idx l Hl).
  unfold layer_tensors, layer_pointers in *. cbn [fmap list_fmap] in *.
  repeat match goal with
         | H : Forall2 _ (_ :: _) (_ :: _) |- _ =>
             apply Forall2_cons in H as [(_ & ? & -> & _) H]
         end.
  reflexivity.
Qed.

(** A tensor of the header ends inside the region [max_offset] counts. *)
Lemma tensor_offsets_le (m : gmap string json) (name : string) (b e mo : nat) :
  max_offset (JObj (delete "__metadata__" m)) = Ok mo ->
  tensor_offsets (JObj m) name = Some (b, e) -> e <= mo.
Proof.
  intros Hmax. unfold tensor_offsets.
  destruct (m !! _) as [j|] eqn:Hj; [|discriminate].
  assert (Hin : ("model." +:+ name +:+ ".weight", j)
                ∈ json_items (JObj (delete "__metadata__" m))).
  { apply elem_of_map_to_list. rewrite lookup_delete_ne by (apply not_eq_sym, tensor_key_ne).
    exact Hj. }
  destruct (max_offset_fold_ok _ _ _ Hmax) as [_ Hall].
  destruct (Hall _ Hin) as (o & Ho & Hle). cbn [snd] in Ho.
  destruct (end_offset_ok _ _ Ho) as (e' & b' & n & rest & -> & He & ->).
  rewrite He. destruct b'; try discriminate. intros [= <- <-]. exact Hle.
Qed.

(** X6.  What the operators read as element [i] of a tensor: on a model
    fresh from [loadConfig] and a stream that holds the whole tensor
    region, the little-endian 16-bit value at bytes [b + 2i] and
    [b + 2i + 1] of the region, for a tensor recorded at [b, e). *)
Theorem loadParameters_tensor_data (model m' : Model F) (m : gmap string json)
    (bytes : list Byte.byte) (mo : nat) (name : string) (b e i : nat) :
  _parameterData model = vector_empty ->
  max_offset (JObj (delete "__metadata__" m)) = Ok mo ->
  (N.of_nat mo + 65536 <= two64)%N ->
  mo <= length bytes ->
  loadParameters model (JObj m) {| is_rest := bytes; is_good := true |} = Ok m' ->
  tensor_offsets (JObj m) name = Some (b, e) ->
  b + 2 * i + 1 < e ->
  weights m' {| p_data := b |} i
  = le16 (nth (b + 2 * i) bytes Byte.x00) (nth (b + 2 * i + 1) bytes Byte.x00).
Proof.
  intros Hempty Hmax Hmo Hlen Hload Hoff Hi.
  pose proof (tensor_offsets_le _ _ _ _ _ Hmax Hoff) as He.
  assert (Hstore : v_store (_parameterData m') = take mo bytes).
  { revert Hload. unfold loadParameters. simpl json_erase.
    cbn [mbind result_bind]. rewrite Hmax. cbn [mbind result_bind]. rewrite Hempty.
    destruct (v_reserve _ _) as [data|] eqn:Hres; cbn [mbind result_bind]; [|discriminate].
    apply v_reserve_Ok in Hres as [-> _].
    destruct (read_chunks_store mo bytes Hmo Hlen) as (st & -> & Hsz & Hst).
    cbn [mbind result_bind].
    destruct (load _ "embed_tokens") as [e0|]; simpl; [|discriminate].
    destruct (load_layers _ _ _) as [ls|]; simpl; [|discriminate].
    destruct (load _ "norm") as [nm|]; simpl; [|discriminate].
    intros [= <-]. exact Hst. }
  unfold weights, get_bf16, le16. rewrite Hstore. cbn [p_data].
  rewrite !nth_lookup, !lookup_take_lt by lia.
  rewrite (Nat.add_assoc b (2 * i) 1). reflexivity.
Qed.

(** The fold of [max_offset] fails when one entry has no end. *)
Lemma max_offset_fold_bad (l : list (string * json)) (acc : result nat) (kj : string * json) :
  kj ∈ l -> is_ok (end_offset (snd kj)) = false ->
  (forall f, acc = Err f -> exists w, f = Thrown (JsonTypeError w)) ->
  exists w,
    foldl (fun acc e => m ← acc; o ← end_offset (snd e); mret (Nat.max m o)) acc l
    = Err (Thrown (JsonTypeError w)).
Proof.
  intros Hin Hbad. revert acc. induction l as [|x l IH]; intros acc Hacc.
  - inversion Hin.
  - simpl. destruct acc as [a|f]; cbn [mbind result_bind].
    + destruct (end_offset (snd x)) as [o|f] eqn:Hx; cbn [mbind result_bind].
      * apply elem_of_cons in Hin as [->|Hin]; [rewrite Hx in Hbad; discriminate|].
        apply (IH Hin). intros f; discriminate.
      * assert (exists w, f = Thrown (JsonTypeError w)) as [w ->].
        { revert Hx. unfold end_offset, json_at, json_idx, get_uint64.
          destruct (snd x) as [| | | | |ex]; cbn; try (intros [= <-]; eauto).
          destruct (default JNull (ex !! "data_offsets")) as [| | | |lx|]; cbn;
            try (intros [= <-]; eauto).
          destruct (default JNull (lx !! 1)); cbn; intros [= <-]; eauto. }
        rewrite max_offset_fold_err. eauto.
    + destruct (Hacc f eq_refl) as [w ->]. rewrite max_offset_fold_err. eauto.
Qed.

(** X7.  Every entry of the header except [__metadata__] is read for its
    end offset, also one no tensor of the model is stored under: an entry
    without a numeric [data_offsets[1]] makes the load throw a JSON type
    error, before the stream is read. *)
Theorem loadParameters_bad_entry (model : Model F) (m : gmap string json)
    (file : istream) (k : string) (j : json) :
  k <> "__metadata__" -> m !! k = Some j -> is_ok (end_offset j) = false ->
  exists w, loadParameters model (JObj m) file = Err (Thrown (JsonTypeError w)).
Proof.
  intros Hk Hj Hbad. unfold loadParameters. cbn [json_erase mbind result_bind].
  destruct (max_offset_fold_bad (json_items (JObj (delete "__metadata__" m))) (Ok 0) (k, j))
    as [w Hw].
  - apply elem_of_map_to_list. rewrite lookup_delete_ne by (apply not_eq_sym, Hk). exact Hj.
  - exact Hbad.
  - intros f; discriminate.
  - exists w. unfold max_offset. rewrite Hw. reflexivity.
Qed.
End LoadPointers.

Lemma loadParameters_pointers_witness :
  exists m' : Model spec_float,
    loadParameters model_cfg_one_layer header_one_layer file22 = Ok m'
    /\ fst <$> tensor_offsets header_one_layer "norm" = Some (p_data (finalNorm m')).
Proof.
  assert (Hrun : exists m' : Model spec_float,
             loadParameters model_cfg_one_layer header_one_layer file22 = Ok m')
    by (eexists; vm_compute; reflexivity).
  destruct Hrun as (m' & Hm'). exists m'. split; [exact Hm'|].
  exact (proj1 (proj2 (loadParameters_pointers _ _ _ _ Hm'))).
Defined.

Lemma loadParameters_tensor_data_witness :
  exists m' : Model spec_float,
    loadParameters model_no_layers header_two file8 = Ok m'
    /\ weights m' {| p_data := 4 |} 1 = le16 Byte.x07 Byte.x08.
Proof.
  assert (Hrun : exists m' : Model spec_float,
             loadParameters model_no_layers header_two file8 = Ok m')
    by (eexists; vm_compute; reflexivity).
  destruct Hrun as (m' & Hm'). exists m'. split; [exact Hm'|].
  refine (loadParameters_tensor_data model_no_layers m' _ (is_rest file8) 8 "norm" 4 8 1
            eq_refl _ _ _ Hm' _ _).
  - vm_compute. reflexivity.
  - vm_compute. discriminate.
  - simpl. lia.
  - vm_compute. reflexivity.
  - lia.
Defined.

Lemma loadParameters_bad_entry_witness :
  exists w, loadParameters model_no_layers (JObj header_note) file8
            = Err (Thrown (JsonTypeError w)).
Proof.
  apply (loadParameters_bad_entry model_no_layers header_note file8 "note"
           (JStr "converted")).
  - discriminate.
  - vm_compute. reflexivity.
  - reflexivity.
Defined.

(* ================================================================== *)
(** * The rotary frequencies in exact arithmetic *)

Section RopeIdeal.

(** [std::clamp] on the reals lands in the interval. *)
Lemma clamp_range (z : R) : (0 <= clamp z 0%R 1%R <= 1)%R.
Proof.
  unfold clamp. cbn [fltb Ideal.ops]. unfold Ideal.ltb.
  destruct (Rlt_dec z 0); [lra|]. destruct (Rlt_dec 1 z); lra.
Qed.

Lemma clamp_high (z : R) : (1 <= z)%R -> clamp z 0%R 1%R = 1%R.
Proof.
  intros Hz. unfold clamp. cbn [fltb Ideal.ops]. unfold Ideal.ltb.
  destruct (Rlt_dec z 0); [lra|]. destruct (Rlt_dec 1 z); lra.
Qed.

Lemma clamp_low (z : R) : (z <= 0)%R -> clamp z 0%R 1%R = 0%R.
Proof.
  intros Hz. unfold clamp. cbn [fltb Ideal.ops]. unfold Ideal.ltb.
  destruct (Rlt_dec z 0); [lra|]. destruct (Rlt_dec 1 z); lra.
Qed.

(** X8.  The rotary frequencies in exact arithmetic, for a scale factor of
    at least 1: every entry lies between the unscaled frequency
    [f = theta^(-i/headDim)] divided by the factor and [f] itself; it is [f]
    where [originalLength f / (2 pi)] reaches the high-frequency factor and
    [f / factor] where it stays at or below the low-frequency factor. *)
Theorem loadConfig_rope_bounds (c : Config R) :
  num_key_value_heads c <> 0 ->
  (N.of_nat (head_dim c) + 1 < two32)%N ->
  (1 <= rope_factor c)%R ->
  exists m, loadConfig c = Ok m
    /\ forall r e, ropeFreq m !! r = Some e ->
         let f := Rpower (rope_theta c)
                         (- IZR (Z.of_nat (r * 2)) / IZR (Z.of_nat (head_dim c))) in
         let a := (IZR (Z.of_nat (original_max_position_embeddings c)) * f / (2 * PI))%R in
         (0 < f / rope_factor c <= e)%R /\ (e <= f)%R
         /\ (low_freq_factor c < high_freq_factor c ->
             (high_freq_factor c <= a -> e = f)
             /\ (a <= low_freq_factor c -> e = (f / rope_factor c)%R))%R.
Proof.
  intros Hkv Hhd Hfac.
  destruct (loadConfig_ok c Hkv Hhd) as (m & Hm & Hfreq & _).
  exists m. split; [exact Hm|]. intros r e He.
  rewrite Hfreq in He. apply list_lookup_fmap_Some in He as (r' & -> & Hr').
  apply lookup_seq in Hr' as [-> _]. cbn [Nat.add].
  unfold rope_entry. cbn [fpow fdiv fneg fsub fmul fadd fofZ fpi Ideal.ops Ideal.trig].
  unfold fofN. cbn [fofZ Ideal.ops].
  cbv zeta. set (f := Rpower _ _).
  set (a := (IZR (Z.of_nat (original_max_position_embeddings c)) * f / (2 * PI))%R).
  set (z0 := ((a - low_freq_factor c) / _)%R).
  assert (Hf : (0 < f)%R) by (unfold f, Rpower; apply exp_pos).
  pose proof (clamp_range z0) as Hz.
  assert (Hinv : (0 < / rope_factor c <= 1)%R).
  { split; [apply Rinv_0_lt_compat; lra|].
    rewrite <- Rinv_1. apply Rinv_le_contravar; lra. }
  unfold Rdiv in *. repeat split.
  - apply Rmult_lt_0_compat; lra.
  - apply Rmult_le_compat_l; [lra|]. nra.
  - rewrite <- (Rmult_1_r f) at 2. apply Rmult_le_compat_l; [lra|]. nra.
  - intros Hhi. rewrite clamp_high; [lra|].
    subst z0. apply (Rmult_le_reg_r (high_freq_factor c - low_freq_factor c));
      [lra|]. rewrite Rmult_assoc, Rinv_l by lra. lra.
  - intros Hlo. rewrite clamp_low; [lra|].
    subst z0. apply (Rmult_le_reg_r (high_freq_factor c - low_freq_factor c));
      [lra|]. rewrite Rmult_assoc, Rinv_l by lra. lra.
Qed.
End RopeIdeal.

Lemma loadConfig_rope_bounds_witness :
  exists m : Model R,
    loadConfig (cfg0 4 2 4) = Ok m
    /\ forall r e, ropeFreq m !! r = Some e ->
         (e <= Rpower 500000 (- IZR (Z.of_nat (r * 2)) / IZR (Z.of_nat 4)))%R.
Proof.
  destruct (loadConfig_rope_bounds (cfg0 4 2 4)) as (m & Hm & Hall).
  - discriminate.
  - vm_compute. reflexivity.
  - simpl. lra.
  - exists m. split; [exact Hm|]. intros r e He.
    exact (proj1 (proj2 (Hall r e He))).
Defined.

(* ================================================================== *)
(** * [embeddingLookup] *)



Section Embedding.
Context {F : Type} `{FloatOps F}.

Lemma embeddingLookup_cell (tokens : list nat) (weight : nat -> Z) (dModel n i : nat) :
  fits32 (length tokens * dModel) -> n < length tokens -> i < dModel ->
  rd (embeddingLookup tokens weight dModel) (n * dModel + i)
  = bf16_to_float (weight (u32 (nth n tokens 0 * dModel + i))).
Proof.
  intros Hfit Hn Hi. unfold embeddingLookup.
  apply (for__hit (length tokens * dModel) (length tokens) (n * dModel + i) n).
  - exact Hn.
  - intros n' t Hn' Ht. rewrite for__wr_length. exact Ht.
  - intros t Ht.
    destruct (row_index _ _ n i Hfit Hn Hi) as [Hidx Hlt].
    rewrite <- Hidx.
    rewrite (for__wr_hit dModel (fun i => n *! dModel +! i)
               (fun i => bf16_to_float (weight (nth n tokens 0 *! dModel +! i))) t i).
    + rewrite u32_add_l. reflexivity.
    + intros i' Hi' Heq.
      destruct (row_index _ _ n i' Hfit Hn Hi') as [Hidx' _]. lia.
    + exact Hi.
    + rewrite Hidx, Ht. exact Hlt.
  - intros n' t Hn' Hne Ht.
    apply (for__wr_miss dModel (fun i => n' *! dModel +! i)).
    intros i' Hi'. destruct (row_index _ _ n' i' Hfit Hn' Hi') as [-> _].
    intros Heq. apply radix_inj in Heq as [? _]; [contradiction|assumption..].
  - apply length_alloc.
Qed.

(** X9.  Row [n] of the result of [embeddingLookup] is the row of the table
    at the offset [tokens[n] * dModel], an offset computed in 32 bits; the
    token is not compared with the size of the table. *)
Theorem embeddingLookup_row (tokens : list nat) (weight : nat -> Z) (dModel n i : nat) :
  fits32 (length tokens * dModel) -> n < length tokens -> i < dModel ->
  length (embeddingLookup tokens weight dModel) = length tokens * dModel
  /\ rd (embeddingLookup tokens weight dModel) (n * dModel + i)
     = bf16_to_float (weight (u32 (nth n tokens 0 * dModel + i)))
  /\ (fits32 (nth n tokens 0 * dModel + i) ->
      rd (embeddingLookup tokens weight dModel) (n * dModel + i)
      = bf16_to_float (weight (nth n tokens 0 * dModel + i))).
Proof.
  intros Hfit Hn Hi. split; [apply embeddingLookup_length|].
  pose proof (embeddingLookup_cell tokens weight dModel n i Hfit Hn Hi) as Hrd.
  split; [exact Hrd|].
  intros Hfit'. rewrite Hrd, (u32_fits _ Hfit'). reflexivity.
Qed.
End Embedding.

Lemma embeddingLookup_row_witness :
  @rd R _ (embeddingLookup [2; 0] (fun k => Z.of_nat k) 3) (0 * 3 + 1)
  = bf16_to_float (Z.of_nat (2 * 3 + 1)).
Proof.
  refine (proj2 (proj2 (embeddingLookup_row (F := R) [2; 0] (fun k => Z.of_nat k) 3 0 1
                          _ _ _)) _); try (simpl; lia); vm_compute; reflexivity.
Defined.

(* ================================================================== *)
(** * [rmsNorm]: rows and bounds *)

Section RowsMore.
Context {F : Type} `{FloatOps F}.


Lemma rms_value_ext (x x' : list F) (weight : nat -> Z) (dModel : nat) (eps : F)
    (i0 i0' i : nat) :
  i < dModel ->
  (forall j, j < dModel -> rd x (i0 +! j) = rd x' (i0' +! j)) ->
  rms_value x weight dModel eps i0 i = rms_value x' weight dModel eps i0' i.
Proof.
  intros Hi Hrow. unfold rms_value.
  rewrite (for__ext dModel
             (fun j s => fadd s (fmul (rd x (i0 +! j)) (rd x (i0 +! j))))
             (fun j s => fadd s (fmul (rd x' (i0' +! j)) (rd x' (i0' +! j))))).
  - rewrite (Hrow i Hi). reflexivity.
  - intros j s Hj. rewrite (Hrow j Hj). reflexivity.
Qed.

(** [rmsNorm] of the first [n] rows is the first [n] rows of [rmsNorm]. *)
Lemma rmsNorm_prefix (x y : list F) (weight : nat -> Z) (dModel rows n : nat) (eps : F) :
  0 < dModel -> length x = rows * dModel -> fits32 (length x) -> n <= rows ->
  rmsNorm x weight dModel eps = Ok y ->
  rmsNorm (take (n * dModel) x) weight dModel eps = Ok (take (n * dModel) y).
Proof.
  intros Hd Hx Hfit Hn Hy.
  assert (Hlx' : length (take (n * dModel) x) = n * dModel).
  { rewrite length_take. nia. }
  assert (Hfit' : fits32 (length (take (n * dModel) x))).
  { apply (fits32_le _ (length x)); [rewrite Hlx'; nia|exact Hfit]. }
  destruct (rmsNorm_returns (take (n * dModel) x) weight dModel n eps Hd Hlx' Hfit')
    as (y' & Hy' & Hly').
  rewrite Hy'. f_equal.
  pose proof (rmsNorm_length _ _ _ _ _ Hy) as Hly.
  apply take_rows; [lia|nia|].
  intros r i Hr Hi.
  destruct (rmsNorm_cell x weight dModel rows eps r i Hd Hx Hfit) as (y1 & Hy1 & _ & Hc1);
    [lia|exact Hi|].
  rewrite Hy in Hy1. injection Hy1 as <-. rewrite Hc1.
  destruct (rmsNorm_cell (take (n * dModel) x) weight dModel n eps r i Hd Hlx' Hfit')
    as (y2 & Hy2 & _ & Hc); [exact Hr|exact Hi|].
  rewrite Hy' in Hy2. injection Hy2 as <-. rewrite Hc.
  apply rms_value_ext; [exact Hi|].
  intros j Hj. apply rd_take.
  rewrite u32_fits; [nia|]. apply (fits32_le _ (length x)); [nia|exact Hfit].
Qed.

(** X10.  [rmsNorm] works row by row: on whole rows that fit 32-bit
    indexing, row [r] of the result is [rmsNorm] of row [r] alone. *)
Theorem rmsNorm_row_alone (x : list F) (weight : nat -> Z) (dModel rows r : nat) (eps : F) :
  0 < dModel -> length x = rows * dModel -> fits32 (length x) -> r < rows ->
  exists y row,
    rmsNorm x weight dModel eps = Ok y
    /\ rmsNorm (take dModel (drop (r * dModel) x)) weight dModel eps = Ok row
    /\ length y = length x
    /\ take dModel (drop (r * dModel) y) = row.
Proof.
  intros Hd Hx Hfit Hr.
  set (x' := take dModel (drop (r * dModel) x)).
  assert (Hlx' : length x' = 1 * dModel).
  { unfold x'. rewrite length_take, length_drop. nia. }
  assert (Hfit' : fits32 (length x')).
  { apply (fits32_le _ (length x)); [rewrite Hlx'; nia|exact Hfit]. }
  destruct (rmsNorm_returns x weight dModel rows eps Hd Hx Hfit) as (y & Hy & Hly).
  destruct (rmsNorm_returns x' weight dModel 1 eps Hd Hlx' Hfit') as (row & Hrow & Hlrow).
  exists y, row. repeat split; try assumption.
  symmetry. apply rd_ext.
  - rewrite length_take, length_drop. nia.
  - intros i Hi. rewrite Hlrow, Hlx' in Hi. rewrite rd_take, rd_drop by lia.
    destruct (rmsNorm_cell x weight dModel rows eps r i Hd Hx Hfit) as (y1 & Hy1 & _ & Hc1);
      [exact Hr|lia|].
    rewrite Hy in Hy1. injection Hy1 as <-. rewrite Hc1.
    destruct (rmsNorm_cell x' weight dModel 1 eps 0 i Hd Hlx' Hfit')
      as (y2 & Hy2 & _ & Hc); [lia|lia|].
    rewrite Hrow in Hy2. injection Hy2 as <-. cbn [Nat.mul Nat.add] in Hc. rewrite Hc.
    apply rms_value_ext; [lia|].
    intros j Hj. unfold x'. 
    rewrite (u32_fits (0 + j)) by (apply (fits32_le _ (length x)); [nia|exact Hfit]).
    rewrite rd_take, rd_drop by lia. cbn [Nat.add].
    rewrite u32_fits; [reflexivity|]. apply (fits32_le _ (length x)); [nia|exact Hfit].
Qed.
End RowsMore.

Section RmsIdeal.

(** A sum of squares is at least each of its terms. *)
Lemma sum_squares_ge (g : nat -> R) (d i : nat) :
  i < d ->
  (0 <= for_ d (fun j s => s + g j * g j) 0
   /\ g i * g i <= for_ d (fun j s => s + g j * g j) 0)%R.
Proof.
  assert (Hpos : forall d, (0 <= for_ d (fun j s => s + g j * g j) 0)%R).
  { intros k. induction k as [|k IH]; [rewrite for__0; lra|].
    rewrite for__S. pose proof (Rle_0_sqr (g k)) as Hk. unfold Rsqr in Hk. lra. }
  intros Hi. split; [apply Hpos|].
  induction d as [|d IH]; [lia|]. rewrite for__S.
  destruct (decide (i = d)) as [->|Hne].
  - pose proof (Hpos d). lra.
  - pose proof (Rle_0_sqr (g d)) as Hk. unfold Rsqr in Hk.
    assert (i < d) by lia. specialize (IH ltac:(assumption)). lra.
Qed.

(** X11.  In exact arithmetic and with [eps > 0] no element of the result
    of [rmsNorm] exceeds [sqrt dModel] times its weight in magnitude:
    the square of the element is at most [dModel] times the square of
    the weight. *)
Theorem rmsNorm_bounded (x : list R) (weight : nat -> Z) (dModel rows r i : nat) (eps : R) :
  0 < dModel -> length x = rows * dModel -> fits32 (length x) ->
  r < rows -> i < dModel -> (0 < eps)%R ->
  exists y, rmsNorm x weight dModel eps = Ok y
    /\ (rd y (r * dModel + i) * rd y (r * dModel + i)
        <= IZR (Z.of_nat dModel) * (bf16_to_float (weight i) * bf16_to_float (weight i)))%R.
Proof.
  intros Hd Hx Hfit Hr Hi Heps.
  destruct (rmsNorm_cell x weight dModel rows eps r i Hd Hx Hfit Hr Hi) as (y & Hy & _ & Hc).
  exists y. split; [exact Hy|]. rewrite Hc. unfold rms_value.
  cbn [fadd fmul fdiv fsqrt fofZ Ideal.ops]. unfold fofN. cbn [fofZ Ideal.ops].
  set (g := fun j => rd x (r * dModel +! j)).
  change (rd x (r * dModel +! i)) with (g i).
  destruct (sum_squares_ge g dModel i Hi) as [HS0 HSi].
  set (S := for_ dModel _ _) in *.
  set (w := bf16_to_float (weight i)).
  set (D := IZR (Z.of_nat dModel)).
  assert (HD : (1 <= D)%R) by (apply IZR_le; lia).
  set (T := (S / D + eps)%R).
  assert (HT : (0 < T)%R).
  { unfold T, Rdiv. assert (0 <= S * / D)%R; [|lra].
    apply Rmult_le_pos; [exact HS0|]. left. apply Rinv_0_lt_compat. lra. }
  assert (Hsq : (sqrt T * sqrt T = T)%R) by (apply sqrt_sqrt; lra).
  assert (Hs : (0 < sqrt T)%R) by (apply sqrt_lt_R0, HT).
  assert (HDT : (g i * g i <= D * T)%R).
  { unfold T. unfold Rdiv. rewrite Rmult_plus_distr_l.
    replace (D * (S * / D))%R with S by (field; lra).
    assert (0 <= D * eps)%R by (apply Rmult_le_pos; lra). lra. }
  replace (g i * (1 / sqrt T) * w * (g i * (1 / sqrt T) * w))%R
    with ((g i * g i) * / T * (w * w))%R.
  2:{ rewrite <- Hsq at 1. field. lra. }
  apply Rmult_le_compat_r; [apply Rle_0_sqr|].
  apply (Rmult_le_reg_r T); [exact HT|].
  rewrite Rmult_assoc, Rinv_l by lra. lra.
Qed.
End RmsIdeal.

Lemma rmsNorm_row_alone_witness :
  exists y row : list R,
    rmsNorm [1; 2; 3; 4]%R (fun _ => 16256%Z) 2 1%R = Ok y
    /\ rmsNorm (take 2 (drop (1 * 2) [1; 2; 3; 4]%R)) (fun _ => 16256%Z) 2 1%R = Ok row
    /\ take 2 (drop (1 * 2) y) = row.
Proof.
  destruct (rmsNorm_row_alone [1; 2; 3; 4]%R (fun _ => 16256%Z) 2 2 1 1%R)
    as (y & row & Hy & Hrow & _ & Heq).
  - lia.
  - reflexivity.
  - vm_compute. reflexivity.
  - lia.
  - exists y, row. split; [exact Hy|]. split; [exact Hrow|exact Heq].
Defined.

Lemma rmsNorm_bounded_witness :
  exists y : list R,
    rmsNorm [1; 2; 3; 4]%R (fun _ => 16256%Z) 2 1%R = Ok y
    /\ (rd y (1 * 2 + 0) * rd y (1 * 2 + 0)
        <= IZR (Z.of_nat 2) * (bf16_to_float 16256 * bf16_to_float 16256))%R.
Proof.
  apply (rmsNorm_bounded [1; 2; 3; 4]%R (fun _ => 16256%Z) 2 2 1 0 1%R).
  - lia.
  - reflexivity.
  - vm_compute. reflexivity.
  - lia.
  - lia.
  - lra.
Defined.

(* ================================================================== *)
(** * [project]: rows and the parallel loop *)




Section ProjectMore.
Context {F : Type} `{FloatOps F}.

Lemma dot_row_ext (x x' : list F) (weight : nat -> Z) (dIn n j : nat) :
  (forall i, i < dIn -> rd x (n *! dIn +! i) = rd x' (n *! dIn +! i)) ->
  dot_row x weight dIn n j = dot_row x' weight dIn n j.
Proof.
  intros Hrow. unfold dot_row. apply for__ext. intros i dot Hi.
  rewrite (Hrow i Hi). reflexivity.
Qed.

(** [project] of the first [n] rows is the first [n] rows of [project]. *)
Lemma project_prefix (x y : list F) (weight : nat -> Z) (dIn dOut rows n : nat) :
  0 < dIn -> length x = rows * dIn -> fits32 (length x) -> fits32 (rows * dOut) ->
  n <= rows ->
  project x weight dIn dOut = Ok y ->
  project (take (n * dIn) x) weight dIn dOut = Ok (take (n * dOut) y).
Proof.
  intros Hd Hx Hfit Hfit' Hn Hy.
  assert (Hrows : length x / dIn = rows) by (rewrite Hx; apply Nat.div_mul; lia).
  assert (Hlx' : length (take (n * dIn) x) = n * dIn) by (rewrite length_take; nia).
  assert (Hrows' : length (take (n * dIn) x) / dIn = n)
    by (rewrite Hlx'; apply Nat.div_mul; lia).
  destruct (project_returns (take (n * dIn) x) weight dIn dOut) as (y' & Hy'); [lia|].
  rewrite Hy'. f_equal.
  destruct (project_length _ _ _ _ _ Hy) as [_ Hly].
  destruct (project_length _ _ _ _ _ Hy') as [_ Hly'].
  rewrite Hrows in Hly. rewrite Hrows' in Hly'.
  apply take_rows; [exact Hly'|nia|].
  intros r j Hr Hj.
  destruct (project_cell x weight dIn dOut r j) as (y1 & Hy1 & _ & Hc1);
    [lia|rewrite Hrows; exact Hfit'|rewrite Hrows; lia|exact Hj|].
  rewrite Hy in Hy1. injection Hy1 as <-. rewrite Hc1.
  destruct (project_cell (take (n * dIn) x) weight dIn dOut r j) as (y2 & Hy2 & _ & Hc2);
    [lia| |rewrite Hrows'; exact Hr|exact Hj|].
  { rewrite Hrows'. apply (fits32_le _ (rows * dOut)); [nia|exact Hfit']. }
  rewrite Hy' in Hy2. injection Hy2 as <-. rewrite Hc2.
  apply dot_row_ext. intros i Hi. apply rd_take.
  destruct (row_index rows dIn r i) as [-> _]; [rewrite <- Hx; exact Hfit|lia|exact Hi|].
  nia.
Qed.

(** A cell that some store of a list of stores hits, all of them with the
    same value. *)
Lemma fold_wr_cell {A} (l : list A) (idx : A -> nat) (val : A -> F) (out : list F)
    (j : nat) (v : F) :
  rd out j = v \/ (exists a, a ∈ l /\ idx a = j) ->
  (forall a, a ∈ l -> idx a = j -> val a = v) ->
  j < length out ->
  rd (fold_left (fun y a => wr y (idx a) (val a)) l out) j = v.
Proof.
  revert out. induction l as [|a l IH]; intros out Hsome Hall Hj.
  - destruct Hsome as [Hv|(a & Hin & _)]; [exact Hv|inversion Hin].
  - simpl. apply IH.
    + destruct (decide (idx a = j)) as [Heq|Hne].
      * left. rewrite Heq, rd_wr_eq by exact Hj. apply Hall; [left|exact Heq].
      * destruct Hsome as [Hv|(b & Hin & Hb)].
        -- left. rewrite rd_wr_ne by exact Hne. exact Hv.
        -- apply elem_of_cons in Hin as [->|Hin]; [contradiction|]. right. eauto.
    + intros b Hin. apply Hall. right. exact Hin.
    + rewrite length_wr. exact Hj.
Qed.

Lemma fold_wr_length {A} (l : list A) (idx : A -> nat) (val : A -> F) (out : list F) :
  length (fold_left (fun y a => wr y (idx a) (val a)) l out) = length out.
Proof.
  revert out. induction l as [|a l IH]; intros out; [reflexivity|].
  simpl. rewrite IH. apply length_wr.
Qed.

(** X12.  The parallel loop of [project] has no race: as long as the
    output fits 32-bit indexing, the stores of the pairs (column, row) can
    happen in any order, each pair once or more often, and the result is
    the one of the loop run in sequence. *)
Theorem project_any_order (sched : list (nat * nat)) (x : list F) (weight : nat -> Z)
    (dIn dOut : nat) :
  fits32 (length x / dIn * dOut) ->
  (forall j n, (j, n) ∈ sched <-> j < dOut /\ n < length x / dIn) ->
  project_scheduled sched x weight dIn dOut = project x weight dIn dOut.
Proof.
  intros Hfit Hsched. unfold project_scheduled.
  destruct (dIn =? 0) eqn:HdIn; [unfold project; rewrite HdIn; reflexivity|].
  apply Nat.eqb_neq in HdIn.
  destruct (project_returns x weight dIn dOut HdIn) as (y & Hy). rewrite Hy. f_equal.
  destruct (project_length _ _ _ _ _ Hy) as [_ Hly].
  set (rows := length x / dIn) in *.
  apply rd_ext.
  - rewrite fold_wr_length, length_alloc. symmetry. exact Hly.
  - intros c Hc. rewrite fold_wr_length, length_alloc in Hc.
    assert (HdOut : dOut <> 0) by (intros ->; lia).
    set (n0 := c / dOut). set (j0 := c mod dOut).
    assert (Hn0 : n0 < rows) by (apply Nat.Div0.div_lt_upper_bound; lia).
    assert (Hj0 : j0 < dOut) by (apply Nat.mod_upper_bound, HdOut).
    assert (Hc0 : c = n0 * dOut + j0).
    { unfold n0, j0. rewrite Nat.mul_comm. apply Nat.div_mod_eq. }
    destruct (project_cell x weight dIn dOut n0 j0 HdIn Hfit Hn0 Hj0) as (y1 & Hy1 & _ & Hc1).
    rewrite Hy in Hy1. injection Hy1 as <-. rewrite Hc0, Hc1.
    apply (fold_wr_cell sched (fun jn => snd jn *! dOut +! fst jn)).
    + right. exists (j0, n0). split; [apply Hsched; split; assumption|].
      cbn [fst snd]. apply (row_index rows dOut n0 j0 Hfit Hn0 Hj0).
    + intros [j n] Hin Hidx. cbn [fst snd] in *.
      apply Hsched in Hin as [Hj Hn].
      destruct (row_index rows dOut n j Hfit Hn Hj) as [Hidx' _].
      rewrite Hidx' in Hidx. apply radix_inj in Hidx as [-> ->]; [|assumption..].
      reflexivity.
    + rewrite length_alloc. lia.
Qed.
End ProjectMore.

Lemma project_any_order_witness :
  @project_scheduled R _ [(1, 0); (0, 0); (1, 0)] [1; 2]%R (fun k => Z.of_nat k) 2 2
  = project [1; 2]%R (fun k => Z.of_nat k) 2 2.
Proof.
  apply (project_any_order (F := R)).
  - vm_compute. reflexivity.
  - intros j n. change (length [1%R; 2%R] / 2) with 1.
    rewrite !elem_of_cons, elem_of_nil. split.
    + intros [Heq|[Heq|[Heq|[]]]]; injection Heq as -> ->; lia.
    + intros [Hj Hn]. assert (n = 0) as -> by lia.
      destruct j as [|[|j]]; [right; left; reflexivity|left; reflexivity|lia].
Defined.

(* ================================================================== *)
(** * [rotate] *)

Section RotateValues.
Context {F : Type} `{FloatOps F} `{FloatTrig F}.

Lemma rotate_value_re (x freq : list F) (nHeads n h i : nat) :
  i < (length freq) ->
  rotate_value x freq nHeads n h i
  = fsub (fmul (fcos (fmul (rd freq i) (fofN n)))
               (rd x ((n * nHeads + h) * (2 * (length freq)) + i)))
         (fmul (fsin (fmul (rd freq i) (fofN n)))
               (rd x ((n * nHeads + h) * (2 * (length freq)) + i + (length freq)))).
Proof.
  intros Hi. unfold rotate_value. cbv zeta.
  destruct (Nat.ltb_spec i (length freq)); [reflexivity|lia].
Qed.

Lemma rotate_value_im (x freq : list F) (nHeads n h i : nat) :
  rotate_value x freq nHeads n h (i + (length freq))
  = fadd (fmul (fcos (fmul (rd freq i) (fofN n)))
               (rd x ((n * nHeads + h) * (2 * (length freq)) + i + (length freq))))
         (fmul (fsin (fmul (rd freq i) (fofN n)))
               (rd x ((n * nHeads + h) * (2 * (length freq)) + i))).
Proof.
  unfold rotate_value. cbv zeta.
  destruct (Nat.ltb_spec (i + (length freq)) (length freq)); [lia|].
  replace (i + (length freq) - (length freq)) with i by lia. reflexivity.
Qed.

End RotateValues.

Section RotateCells.
Context {F : Type} `{FloatOps F} `{FloatTrig F}.
Variables (x freq : list F) (nHeads P : nat).
Hypothesis Hx : length x = P * nHeads * (2 * (length freq)).
Hypothesis Hfit : fits32 (length x).

(** The indices of block [(n, h)] without wrapping. *)
Lemma rotate_index (n h i : nat) :
  n < P -> h < nHeads -> i < (length freq) ->
  u32 (2 * (length freq)) = 2 * (length freq)
  /\ n *! nHeads *! u32 (2 * (length freq)) +! h *! u32 (2 * (length freq)) +! i
     = (n * nHeads + h) * (2 * (length freq)) + i
  /\ (n * nHeads + h) * (2 * (length freq)) + i + (length freq) < length x.
Proof.
  intros Hn Hh Hi.
  assert (Hblock : (n * nHeads + h) * (2 * (length freq)) + 2 * (length freq) <= length x).
  { rewrite Hx. assert (n * nHeads + h + 1 <= P * nHeads) by nia. nia. }
  assert (Hu : forall a, a <= length x -> u32 a = a).
  { intros a Ha. apply u32_fits, (fits32_le _ (length x)); [exact Ha|exact Hfit]. }
  assert (H2 : u32 (2 * (length freq)) = 2 * (length freq)) by (apply Hu; nia).
  split; [exact H2|]. split; [|lia].
  rewrite H2.
  rewrite (Hu (n * nHeads)) by nia.
  rewrite (Hu (n * nHeads * (2 * (length freq)))) by nia.
  rewrite (Hu (h * (2 * (length freq)))) by nia.
  rewrite (Hu (n * nHeads * (2 * (length freq)) + h * (2 * (length freq)))) by nia.
  rewrite Hu by nia. nia.
Qed.

Lemma rotate_blocks :
  nHeads *! u32 (2 * (length freq)) <> 0 ->
  rotate x freq nHeads
  = Ok (for_ P (fun n y => for_ nHeads (fun h y => rotate_block x freq nHeads n h y) y)
             (alloc (length x))).
Proof.
  intros HW. unfold rotate. cbv zeta.
  destruct (Nat.eqb_spec (nHeads *! u32 (2 * (length freq))) 0) as [Hz0|_]; [contradiction|].
  f_equal.
  destruct (decide (P = 0)) as [HP|HP].
  { subst P. simpl in Hx. rewrite Hx. simpl. rewrite Nat.Div0.div_0_l. reflexivity. }
  assert (Hu : forall a, a <= length x -> u32 a = a).
  { intros a Ha. apply u32_fits, (fits32_le _ (length x)); [exact Ha|exact Hfit]. }
  assert (HnH : nHeads <> 0).
  { intros Hz. rewrite Hz in HW. apply HW. reflexivity. }
  assert (HPn : 1 <= P * nHeads) by nia.
  assert (HP1 : 1 <= P) by lia.
  assert (H2 : u32 (2 * (length freq)) = 2 * (length freq)) by (apply Hu; rewrite Hx; nia).
  assert (HW' : nHeads *! u32 (2 * (length freq)) = nHeads * (2 * (length freq))).
  { rewrite H2. apply Hu. rewrite Hx. nia. }
  assert (Hdiv : length x / (nHeads *! u32 (2 * (length freq))) = P).
  { rewrite HW', Hx, <- Nat.mul_assoc. apply Nat.div_mul. rewrite <- HW'. exact HW. }
  rewrite Hdiv. apply for__ext. intros n y Hn.
  apply for__ext. intros h y' Hh. unfold rotate_block.
  apply for__ext. intros i y'' Hi.
  destruct (rotate_index n h i Hn Hh Hi) as (_ & -> & _).
  rewrite (rotate_value_re x freq nHeads n h i Hi), rotate_value_im. reflexivity.
Qed.

Lemma rotate_block_length (n h : nat) (y : list F) :
  length (rotate_block x freq nHeads n h y) = length y.
Proof.
  unfold rotate_block. apply (for__ind (fun _ t => length t = length y)); [reflexivity|].
  intros i t _ Ht. rewrite !length_wr. exact Ht.
Qed.

Lemma rotate_block_hit (n h c : nat) (y : list F) :
  n < P -> h < nHeads -> c < 2 * (length freq) -> length y = length x ->
  rd (rotate_block x freq nHeads n h y) ((n * nHeads + h) * (2 * (length freq)) + c)
  = rotate_value x freq nHeads n h c.
Proof.
  intros Hn Hh Hc Hy. unfold rotate_block.
  set (B := (n * nHeads + h) * (2 * (length freq))).
  set (i0 := if c <? (length freq) then c else c - (length freq)).
  assert (Hi0 : i0 < (length freq)) by (unfold i0; destruct (Nat.ltb_spec c (length freq)); lia).
  destruct (rotate_index n h i0 Hn Hh Hi0) as (_ & _ & Hlt). fold B in Hlt.
  apply (for__hit (length x) (length freq) (B + c) i0); try assumption.
  - intros i t _ Ht. rewrite !length_wr. exact Ht.
  - intros t Ht. unfold i0 in *. destruct (Nat.ltb_spec c (length freq)) as [Hlo|Hhi].
    + rewrite rd_wr_ne by lia. apply rd_wr_eq. rewrite Ht. lia.
    + replace (B + (c - (length freq)) + (length freq)) with (B + c) by lia.
      rewrite rd_wr_eq by (rewrite length_wr, Ht; lia).
      f_equal. lia.
  - intros i t Hi Hne Ht. unfold i0 in *.
    rewrite !rd_wr_ne; [reflexivity| |];
      destruct (Nat.ltb_spec c (length freq)); lia.
Qed.

Lemma rotate_block_miss (n h n' h' c : nat) (y : list F) :
  n < P -> h < nHeads -> n' < P -> h' < nHeads -> c < 2 * (length freq) ->
  (n', h') <> (n, h) ->
  rd (rotate_block x freq nHeads n' h' y) ((n * nHeads + h) * (2 * (length freq)) + c)
  = rd y ((n * nHeads + h) * (2 * (length freq)) + c).
Proof.
  intros Hn Hh Hn' Hh' Hc Hne. unfold rotate_block.
  apply (for__ind (fun _ t => rd t ((n * nHeads + h) * (2 * (length freq)) + c)
                              = rd y ((n * nHeads + h) * (2 * (length freq)) + c)));
    [reflexivity|].
  intros i t Hi Ht.
  assert (Hblk : forall c', c' < 2 * (length freq) ->
            (n' * nHeads + h') * (2 * (length freq)) + c' <> (n * nHeads + h) * (2 * (length freq)) + c).
  { intros c' Hc' Heq. apply radix_inj in Heq as [Heq _]; [|assumption..].
    apply radix_inj in Heq as [-> ->]; [|assumption..]. apply Hne. reflexivity. }
  rewrite !rd_wr_ne; [exact Ht| |].
  - apply Hblk. lia.
  - replace ((n' * nHeads + h') * (2 * (length freq)) + i + (length freq))
      with ((n' * nHeads + h') * (2 * (length freq)) + (i + (length freq))) by lia.
    apply Hblk. lia.
Qed.

(** The cells of [rotate]. *)
Lemma rotate_cell (n h c : nat) :
  n < P -> h < nHeads -> c < 2 * (length freq) ->
  exists y, rotate x freq nHeads = Ok y
    /\ length y = length x
    /\ rd y ((n * nHeads + h) * (2 * (length freq)) + c) = rotate_value x freq nHeads n h c.
Proof.
  intros Hn Hh Hc.
  assert (Hu : forall a, a <= length x -> u32 a = a).
  { intros a Ha. apply u32_fits, (fits32_le _ (length x)); [exact Ha|exact Hfit]. }
  assert (HPn : 1 <= P * nHeads) by nia.
  assert (HP1 : 1 <= P) by lia.
  assert (HW : nHeads *! u32 (2 * (length freq)) <> 0).
  { rewrite (Hu (2 * (length freq))) by (rewrite Hx; nia). rewrite Hu by (rewrite Hx; nia). nia. }
  rewrite (rotate_blocks HW). eexists. split; [reflexivity|].
  apply (for__hit (length x) P _ n); try assumption.
  - intros n' t _ Ht. apply (for__ind (fun _ t' => length t' = length x)); [exact Ht|].
    intros h' t' _ Ht'. rewrite rotate_block_length. exact Ht'.
  - intros t Ht.
    apply (for__hit (length x) nHeads _ h); try assumption.
    + intros h' t' _ Ht'. rewrite rotate_block_length. exact Ht'.
    + intros t' Ht'. apply rotate_block_hit; assumption.
    + intros h' t' Hh' Hne Ht'. apply rotate_block_miss; try assumption. congruence.
  - intros n' t Hn' Hne Ht.
    apply (for__ind (fun _ t' => rd t' ((n * nHeads + h) * (2 * (length freq)) + c)
                                 = rd t ((n * nHeads + h) * (2 * (length freq)) + c)));
      [reflexivity|].
    intros h' t' Hh' Ht'. rewrite rotate_block_miss; try assumption. congruence.
  - apply length_alloc.
Qed.
End RotateCells.


Section RotateMore.
Context {F : Type} `{FloatOps F} `{FloatTrig F}.

Lemma rotate_value_ext (x x' freq : list F) (nHeads n h c : nat) :
  c < 2 * length freq ->
  (forall c', c' < 2 * length freq ->
     rd x ((n * nHeads + h) * (2 * length freq) + c')
     = rd x' ((n * nHeads + h) * (2 * length freq) + c')) ->
  rotate_value x freq nHeads n h c = rotate_value x' freq nHeads n h c.
Proof.
  intros Hc Hblk. unfold rotate_value. cbv zeta.
  set (B := (n * nHeads + h) * (2 * length freq)) in *.
  destruct (Nat.ltb_spec c (length freq)) as [Hlo|Hhi].
  - rewrite <- (Nat.add_assoc B c), !Hblk by lia. reflexivity.
  - rewrite <- (Nat.add_assoc B (c - length freq)), !Hblk by lia. reflexivity.
Qed.

(** [rotate] of the first [n] positions is the first [n] positions of
    [rotate]. *)
Lemma rotate_prefix (x y freq : list F) (nHeads P n : nat) :
  length x = P * nHeads * (2 * length freq) -> fits32 (length x) -> n <= P ->
  rotate x freq nHeads = Ok y ->
  rotate (take (n * (nHeads * (2 * length freq))) x) freq nHeads
  = Ok (take (n * (nHeads * (2 * length freq))) y).
Proof.
  intros Hx Hfit Hn Hy.
  set (W := nHeads * (2 * length freq)) in *.
  assert (HW : nHeads *! u32 (2 * length freq) <> 0).
  { revert Hy. unfold rotate. cbv zeta.
    destruct (Nat.eqb_spec (nHeads *! u32 (2 * length freq)) 0); [discriminate|auto]. }
  destruct (rotate_returns (take (n * W) x) freq nHeads HW) as (y' & Hy').
  rewrite Hy'. f_equal.
  assert (Hlx' : length (take (n * W) x) = n * nHeads * (2 * length freq)).
  { rewrite length_take. unfold W. nia. }
  assert (Hfit' : fits32 (length (take (n * W) x))).
  { apply (fits32_le _ (length x)); [rewrite length_take; lia|exact Hfit]. }
  assert (Hly : length y = length x).
  { revert Hy. unfold rotate. cbv zeta.
    destruct (Nat.eqb_spec (nHeads *! u32 (2 * length freq)) 0); [discriminate|].
    intros [= <-].
    apply (for__ind (fun _ t => length t = length x)); [apply length_alloc|].
    intros p t _ Ht. apply (for__ind (fun _ t' => length t' = length x)); [exact Ht|].
    intros h t' _ Ht'. apply (for__ind (fun _ t'' => length t'' = length x)); [exact Ht'|].
    intros i t'' _ Ht''. rewrite !length_wr. exact Ht''. }
  assert (Hly' : length y' = n * W).
  { revert Hy'. unfold rotate. cbv zeta.
    destruct (Nat.eqb_spec (nHeads *! u32 (2 * length freq)) 0); [discriminate|].
    intros [= <-].
    apply (for__ind (fun _ t => length t = n * W));
      [rewrite length_alloc, Hlx'; unfold W; lia|].
    intros p t _ Ht. apply (for__ind (fun _ t' => length t' = n * W)); [exact Ht|].
    intros h t' _ Ht'. apply (for__ind (fun _ t'' => length t'' = n * W)); [exact Ht'|].
    intros i t'' _ Ht''. rewrite !length_wr. exact Ht''. }
  apply take_rows; [exact Hly'|rewrite Hly, Hx; unfold W; nia|].
  intros r j Hr Hj.
  assert (H2 : 2 * length freq <> 0) by (intros Hz; unfold W in Hj; rewrite Hz in Hj; lia).
  set (h := j / (2 * length freq)). set (c := j mod (2 * length freq)).
  assert (Hh : h < nHeads).
  { apply Nat.Div0.div_lt_upper_bound. unfold W in Hj. lia. }
  assert (Hc : c < 2 * length freq) by (apply Nat.mod_upper_bound, H2).
  assert (Hj0 : r * W + j = (r * nHeads + h) * (2 * length freq) + c).
  { pose proof (Nat.div_mod_eq j (2 * length freq)) as Hdm. fold h c in Hdm.
    unfold W. nia. }
  rewrite Hj0.
  destruct (rotate_cell x freq nHeads P Hx Hfit r h c) as (y1 & Hy1 & _ & Hc1);
    [lia|exact Hh|exact Hc|].
  rewrite Hy in Hy1. injection Hy1 as <-. rewrite Hc1.
  destruct (rotate_cell (take (n * W) x) freq nHeads n Hlx' Hfit' r h c)
    as (y2 & Hy2 & _ & Hc2); [exact Hr|exact Hh|exact Hc|].
  rewrite Hy' in Hy2. injection Hy2 as <-. rewrite Hc2.
  apply rotate_value_ext; [exact Hc|].
  intros c' Hc'. apply rd_take. unfold W.
  assert (r * nHeads + h + 1 <= n * nHeads) by nia. nia.
Qed.
End RotateMore.

Section RotateIdeal.

(** X13.  [rotate] in exact arithmetic: every pair (real part, imaginary
    part) keeps its length, and position 0 is not changed at all. *)
Theorem rotate_isometry (x freq : list R) (nHeads P n h i : nat) :
  length x = P * nHeads * (2 * length freq) -> fits32 (length x) ->
  n < P -> h < nHeads -> i < length freq ->
  exists y, rotate x freq nHeads = Ok y
    /\ length y = length x
    /\ let re := (n * nHeads + h) * (2 * length freq) + i in
       let im := re + length freq in
       (rd y re * rd y re + rd y im * rd y im
        = rd x re * rd x re + rd x im * rd x im)%R
       /\ (n = 0 -> rd y re = rd x re /\ rd y im = rd x im).
Proof.
  intros Hx Hfit Hn Hh Hi.
  destruct (rotate_cell x freq nHeads P Hx Hfit n h i Hn Hh) as (y & Hy & Hly & Hre); [lia|].
  destruct (rotate_cell x freq nHeads P Hx Hfit n h (i + length freq) Hn Hh)
    as (y' & Hy' & _ & Him); [lia|].
  rewrite Hy in Hy'. injection Hy' as <-.
  exists y. split; [exact Hy|]. split; [exact Hly|]. cbv zeta.
  rewrite Nat.add_assoc in Him. rewrite Hre, Him.
  rewrite (rotate_value_re x freq nHeads n h i Hi), rotate_value_im.
  cbn [fadd fsub fmul fcos fsin Ideal.ops Ideal.trig].
  set (a := (rd freq i * fofN n)%R).
  set (re := rd x _). set (im := rd x _).
  split.
  - pose proof (sin2_cos2 a) as Hsc. unfold Rsqr in Hsc.
    replace ((cos a * re - sin a * im) * (cos a * re - sin a * im)
             + (cos a * im + sin a * re) * (cos a * im + sin a * re))%R
      with ((sin a * sin a + cos a * cos a) * (re * re + im * im))%R by ring.
    rewrite Hsc. ring.
  - intros ->. unfold a, fofN. cbn [fofZ Ideal.ops]. simpl Z.of_nat.
    rewrite Rmult_0_r, cos_0, sin_0. split; ring.
Qed.
End RotateIdeal.

Lemma rotate_isometry_witness :
  exists y : list R,
    rotate [3; 4; 1; 2]%R [1%R] 1 = Ok y
    /\ (rd y 2 * rd y 2 + rd y 3 * rd y 3 = 1 * 1 + 2 * 2)%R.
Proof.
  destruct (rotate_isometry [3; 4; 1; 2]%R [1%R] 1 2 1 0 0) as (y & Hy & _ & Hiso & _).
  - reflexivity.
  - vm_compute. reflexivity.
  - lia.
  - lia.
  - simpl. lia.
  - exists y. split; [exact Hy|exact Hiso].
Defined.

(* ================================================================== *)
(** * [softmaxInPlace]: probabilities *)

Section SoftmaxMore.

(** A sum of non-negative numbers is at least each of them. *)
Lemma sum_of_ge (l : list R) (i : nat) (a : R) :
  (forall b, b ∈ l -> (0 <= b)%R) -> l !! i = Some a -> (a <= sum_of l)%R.
Proof.
  revert i. induction l as [|b l IH]; intros i Hpos Hi; [discriminate|].
  rewrite sum_of_cons.
  assert (Hl : (0 <= sum_of l)%R).
  { clear -Hpos. induction l as [|c l IH]; [rewrite sum_of_nil; lra|].
    rewrite sum_of_cons.
    assert (0 <= c)%R by (apply Hpos; right; left).
    assert (0 <= sum_of l)%R; [|lra].
    apply IH. intros d Hd. apply Hpos. apply elem_of_cons in Hd as [->|Hd];
      [left|right; right; exact Hd]. }
  destruct i as [|i]; simpl in Hi.
  - injection Hi as ->. lra.
  - assert (0 <= b)%R by (apply Hpos; left).
    assert (a <= sum_of l)%R; [|lra].
    apply (IH i); [|exact Hi]. intros c Hc. apply Hpos. right. exact Hc.
Qed.

End SoftmaxMore.


(* ================================================================== *)
(** * [selfAttention]: prefixes *)

(** The row-major position of cell [(sKV, iKV, i)]. *)
Lemma kv_index_flat (dSeq dKV dHead sKV iKV i : nat) :
  fits32 (dSeq * dKV * dHead) ->
  sKV < dSeq -> iKV < dKV -> i < dHead ->
  kv_index dKV dHead sKV iKV i = (sKV * dKV + iKV) * dHead + i
  /\ (sKV * dKV + iKV) * dHead + i < dSeq * dKV * dHead.
Proof.
  intros Hfit HsKV HiKV Hi.
  assert (H1 : sKV * dKV + iKV < dSeq * dKV) by nia.
  assert (H2 : (sKV * dKV + iKV) * dHead + i < dSeq * dKV * dHead) by nia.
  split; [|exact H2]. unfold kv_index.
  assert (Hle : forall n, n <= (sKV * dKV + iKV) * dHead + i -> u32 n = n).
  { intros n Hn. apply u32_fits. apply (fits32_le _ (dSeq * dKV * dHead)); [lia|exact Hfit]. }
  rewrite (Hle (sKV * dKV)) by nia.
  rewrite (Hle (sKV * dKV * dHead)) by nia.
  rewrite (Hle (iKV * dHead)) by nia.
  rewrite (Hle (sKV * dKV * dHead + iKV * dHead)) by nia.
  rewrite Hle by nia. nia.
Qed.

(** Every position below [a * b * c] is a cell [(x, y, z)]. *)
Lemma flat3 (a b c j : nat) :
  j < a * b * c ->
  exists x y z, x < a /\ y < b /\ z < c /\ j = (x * b + y) * c + z.
Proof.
  intros Hj.
  assert (Hc : c <> 0) by (intros ->; lia).
  assert (Hb : b <> 0) by (intros ->; lia).
  exists (j / c / b), ((j / c) mod b), (j mod c).
  assert (Hjc : j / c < a * b) by (apply Nat.Div0.div_lt_upper_bound; lia).
  repeat split.
  - apply Nat.Div0.div_lt_upper_bound. lia.
  - apply Nat.mod_upper_bound, Hb.
  - apply Nat.mod_upper_bound, Hc.
  - pose proof (Nat.div_mod_eq j c). pose proof (Nat.div_mod_eq (j / c) b). nia.
Qed.

Section AttentionPrefix.
Context {F : Type} `{FloatOps F}.

Lemma selfAttention_length (q k v out : list F) (dKV dQ dHead : nat) :
  selfAttention q k v dKV dQ dHead = Ok out ->
  dKV *! dHead <> 0 /\ length out = length q.
Proof.
  unfold selfAttention.
  destruct (Nat.eqb_spec (dKV *! dHead) 0) as [|Hnz]; [discriminate|].
  intros [= <-]. split; [exact Hnz|].
  apply (for__ind (fun _ t => length t = length q)); [apply length_alloc|].
  intros iKV t _ Ht. apply (for__ind (fun _ t' => length t' = length q)); [exact Ht|].
  intros sQ t' _ Ht'. apply (for__ind (fun _ t'' => length t'' = length q)); [exact Ht'|].
  intros iQ t'' _ Ht''. rewrite attn_head_length. exact Ht''.
Qed.

(** [selfAttention] of the first [n] positions is the first [n] positions
    of [selfAttention]: no position attends to a later one. *)
Lemma selfAttention_prefix (q k v out : list F) (dKV dQ dHead dSeq n : nat) :
  length q = dSeq * dKV * dQ * dHead -> length k = dSeq * dKV * dHead ->
  fits32 (length q) -> fits32 (length k) -> n <= dSeq ->
  selfAttention q k v dKV dQ dHead = Ok out ->
  selfAttention (take (n * (dKV * dQ * dHead)) q) (take (n * (dKV * dHead)) k)
                (take (n * (dKV * dHead)) v) dKV dQ dHead
  = Ok (take (n * (dKV * dQ * dHead)) out).
Proof.
  intros Hq Hk Hfq Hfk Hn Hout.
  destruct (selfAttention_length _ _ _ _ _ _ _ Hout) as [Hnz Hlout].
  destruct (selfAttention_returns (take (n * (dKV * dQ * dHead)) q)
              (take (n * (dKV * dHead)) k) (take (n * (dKV * dHead)) v) dKV dQ dHead Hnz)
    as (out' & Hout').
  rewrite Hout'. f_equal.
  destruct (selfAttention_length _ _ _ _ _ _ _ Hout') as [_ Hlout'].
  assert (HqW : length q = dSeq * (dKV * dQ * dHead)) by (rewrite Hq; ring).
  assert (HkW : length k = dSeq * (dKV * dHead)) by (rewrite Hk; ring).
  assert (HnW : n * (dKV * dQ * dHead) <= dSeq * (dKV * dQ * dHead))
    by (apply Nat.mul_le_mono_r; exact Hn).
  assert (HnWk : n * (dKV * dHead) <= dSeq * (dKV * dHead))
    by (apply Nat.mul_le_mono_r; exact Hn).
  assert (Hlq' : length (take (n * (dKV * dQ * dHead)) q) = n * dKV * dQ * dHead).
  { rewrite length_take, HqW, Nat.min_l by exact HnW. ring. }
  assert (Hlk' : length (take (n * (dKV * dHead)) k) = n * dKV * dHead).
  { rewrite length_take, HkW, Nat.min_l by exact HnWk. ring. }
  apply take_rows; [rewrite Hlout', Hlq'; ring|rewrite Hlout, HqW; exact HnW|].
  intros r j Hr Hj.
  assert (HS : 1 <= dSeq) by lia.
  assert (Hkd : dKV *! dHead = dKV * dHead).
  { apply u32_fits, (fits32_le _ (length k)); [rewrite Hk; nia|exact Hfk]. }
  assert (Hkd0 : dKV * dHead <> 0) by (rewrite <- Hkd; exact Hnz).
  assert (Hseq : length k / (dKV *! dHead) = dSeq).
  { rewrite Hkd, Hk, <- Nat.mul_assoc. apply Nat.div_mul, Hkd0. }
  assert (Hseq' : length (take (n * (dKV * dHead)) k) / (dKV *! dHead) = n).
  { rewrite Hkd, Hlk', <- Nat.mul_assoc. apply Nat.div_mul, Hkd0. }
  assert (Hfq' : fits32 (length (take (n * (dKV * dQ * dHead)) q))).
  { apply (fits32_le _ (length q)); [rewrite length_take; lia|exact Hfq]. }
  destruct (flat3 dKV dQ dHead j Hj) as (iKV & iQ & i & HiKV & HiQ & Hi & ->).
  destruct (q_index_flat dSeq dKV dQ dHead r iKV iQ i) as [Hidx _];
    [rewrite <- Hq; exact Hfq|lia|assumption..|].
  destruct (q_index_flat n dKV dQ dHead r iKV iQ i) as [_ Hlt];
    [rewrite <- Hlq'; exact Hfq'|lia|assumption..|].
  replace (r * (dKV * dQ * dHead) + ((iKV * dQ + iQ) * dHead + i))
    with (q_index dKV dQ dHead r iKV iQ i) by (rewrite Hidx; nia).
  destruct (selfAttention_cell q k v dKV dQ dHead r iKV iQ i) as (o1 & Ho1 & _ & Hc1);
    [exact Hfq|rewrite Hseq, Hq; lia|rewrite Hseq; lia|assumption..|].
  rewrite Hout in Ho1. injection Ho1 as <-. rewrite Hc1.
  destruct (selfAttention_cell (take (n * (dKV * dQ * dHead)) q)
              (take (n * (dKV * dHead)) k) (take (n * (dKV * dHead)) v)
              dKV dQ dHead r iKV iQ i) as (o2 & Ho2 & _ & Hc2);
    [exact Hfq'|rewrite Hseq', Hlq'; lia|rewrite Hseq'; lia|assumption..|].
  rewrite Hout' in Ho2. injection Ho2 as <-. rewrite Hc2.
  assert (Hkv : forall sKV i0, sKV <= r -> i0 < dHead ->
            kv_index dKV dHead sKV iKV i0 < n * (dKV * dHead)).
  { intros sKV i0 HsKV Hi0.
    destruct (kv_index_flat n dKV dHead sKV iKV i0) as [-> Hlt'];
      [rewrite <- Hlk'; apply (fits32_le _ (length k));
         [rewrite length_take; lia|exact Hfk]|lia|assumption..|].
    lia. }
  apply attn_value_ext.
  - intros i0 Hi0. apply rd_take.
    destruct (q_index_flat n dKV dQ dHead r iKV iQ i0) as [-> Hlt0];
      [rewrite <- Hlq'; exact Hfq'|lia|assumption..|]. lia.
  - intros sKV i0 HsKV Hi0. apply rd_take, Hkv; assumption.
  - intros sKV HsKV. apply rd_take, Hkv; assumption.
Qed.

(** X19.  [selfAttention] is causal: two runs on sequences of any lengths
    whose queries, keys and values agree on the first [n] positions agree
    on the first [n] positions of their outputs. *)
Theorem selfAttention_common_prefix (q1 k1 v1 q2 k2 v2 out1 out2 : list F)
    (dKV dQ dHead dSeq1 dSeq2 n : nat) :
  length q1 = dSeq1 * dKV * dQ * dHead -> length k1 = dSeq1 * dKV * dHead ->
  length q2 = dSeq2 * dKV * dQ * dHead -> length k2 = dSeq2 * dKV * dHead ->
  fits32 (length q1) -> fits32 (length k1) -> fits32 (length q2) -> fits32 (length k2) ->
  n <= dSeq1 -> n <= dSeq2 ->
  take (n * (dKV * dQ * dHead)) q1 = take (n * (dKV * dQ * dHead)) q2 ->
  take (n * (dKV * dHead)) k1 = take (n * (dKV * dHead)) k2 ->
  take (n * (dKV * dHead)) v1 = take (n * (dKV * dHead)) v2 ->
  selfAttention q1 k1 v1 dKV dQ dHead = Ok out1 ->
  selfAttention q2 k2 v2 dKV dQ dHead = Ok out2 ->
  take (n * (dKV * dQ * dHead)) out1 = take (n * (dKV * dQ * dHead)) out2.
Proof.
  intros Hq1 Hk1 Hq2 Hk2 Hfq1 Hfk1 Hfq2 Hfk2 Hn1 Hn2 Hq Hk Hv Ho1 Ho2.
  pose proof (selfAttention_prefix q1 k1 v1 out1 dKV dQ dHead dSeq1 n
                Hq1 Hk1 Hfq1 Hfk1 Hn1 Ho1) as Hp1.
  pose proof (selfAttention_prefix q2 k2 v2 out2 dKV dQ dHead dSeq2 n
                Hq2 Hk2 Hfq2 Hfk2 Hn2 Ho2) as Hp2.
  rewrite Hq, Hk, Hv, Hp2 in Hp1. injection Hp1 as Heq. symmetry. exact Heq.
Qed.
End AttentionPrefix.

Lemma selfAttention_common_prefix_witness :
  @selfAttention _ (Binary32.ops Binary32.exp_fixed)
     [Binary32.one] [Binary32.one] [Binary32.one] 1 1 1 = Ok [Binary32.one]
  /\ @selfAttention _ (Binary32.ops Binary32.exp_fixed)
       ones2 [Binary32.one; big] [Binary32.one; S754_nan] 1 1 1
     = Ok [Binary32.one; S754_nan]
  /\ take (1 * (1 * 1 * 1)) [Binary32.one]
     = take (1 * (1 * 1 * 1)) [Binary32.one; S754_nan].
Proof.
  assert (H1 : @selfAttention _ (Binary32.ops Binary32.exp_fixed)
                 [Binary32.one] [Binary32.one] [Binary32.one] 1 1 1 = Ok [Binary32.one])
    by (vm_compute; reflexivity).
  assert (H2 : @selfAttention _ (Binary32.ops Binary32.exp_fixed)
                 ones2 [Binary32.one; big] [Binary32.one; S754_nan] 1 1 1
               = Ok [Binary32.one; S754_nan])
    by (vm_compute; reflexivity).
  split; [exact H1|]. split; [exact H2|].
  refine (selfAttention_common_prefix (H := Binary32.ops Binary32.exp_fixed)
            _ _ _ _ _ _ _ _ 1 1 1 1 2 1 _ _ _ _ _ _ _ _ _ _ _ _ _ H1 H2);
    try reflexivity; try lia; vm_compute; reflexivity.
Defined.

(* ================================================================== *)
(** * Element-wise operators and shapes *)

Section Elementwise.
Context {F : Type} `{FloatOps F}.

(** A loop that updates cell [i] in its iteration [i]. *)
Lemma for__update (g : nat -> F -> F) (x : list F) (n j : nat) :
  n <= length x ->
  length (for_ n (fun i y => wr y i (g i (rd y i))) x) = length x
  /\ rd (for_ n (fun i y => wr y i (g i (rd y i))) x) j
     = if j <? n then g j (rd x j) else rd x j.
Proof.
  induction n as [|n IH]; intros Hn.
  - rewrite for__0. split; reflexivity.
  - rewrite for__S. destruct IH as [Hlen Hrd]; [lia|].
    split; [rewrite length_wr; exact Hlen|].
    destruct (decide (j = n)) as [->|Hne].
    + rewrite rd_wr_eq by lia. rewrite Hrd.
      destruct (Nat.ltb_spec n n); [lia|]. destruct (Nat.ltb_spec n (S n)); [reflexivity|lia].
    + rewrite rd_wr_ne by lia. rewrite Hrd.
      destruct (Nat.ltb_spec j n), (Nat.ltb_spec j (S n)); try lia; reflexivity.
Qed.

Lemma addInPlace_cell (lhs rhs : list F) (i : nat) :
  i < length lhs -> rd (addInPlace lhs rhs) i = fadd (rd lhs i) (rd rhs i).
Proof.
  intros Hi. unfold addInPlace.
  destruct (for__update (fun i a => fadd a (rd rhs i)) lhs (length lhs) i) as [_ ->]; [lia|].
  destruct (Nat.ltb_spec i (length lhs)); [reflexivity|lia].
Qed.

Lemma swiGluInPlace_length (x gate : list F) :
  length (swiGluInPlace x gate) = length x.
Proof.
  unfold swiGluInPlace.
  apply (for__update (fun i a => fmul a (fdiv (rd gate i)
                                   (fadd (fofZ 1) (fexp (fneg (rd gate i)))))) x
           (length x) 0). lia.
Qed.

Lemma swiGluInPlace_cell (x gate : list F) (i : nat) :
  i < length x ->
  rd (swiGluInPlace x gate) i
  = fmul (rd x i) (fdiv (rd gate i) (fadd (fofZ 1) (fexp (fneg (rd gate i))))).
Proof.
  intros Hi. unfold swiGluInPlace.
  destruct (for__update (fun i a => fmul a (fdiv (rd gate i)
                                     (fadd (fofZ 1) (fexp (fneg (rd gate i)))))) x
              (length x) i) as [_ ->]; [lia|].
  destruct (Nat.ltb_spec i (length x)); [reflexivity|lia].
Qed.

Lemma addInPlace_prefix (lhs rhs : list F) (m : nat) :
  m <= length lhs ->
  addInPlace (take m lhs) (take m rhs) = take m (addInPlace lhs rhs).
Proof.
  intros Hm. apply rd_ext.
  - rewrite addInPlace_length, !length_take, addInPlace_length. reflexivity.
  - intros i Hi. rewrite addInPlace_length, length_take in Hi.
    rewrite addInPlace_cell by (rewrite length_take; lia).
    rewrite !rd_take by lia. rewrite addInPlace_cell by lia. reflexivity.
Qed.

Lemma swiGluInPlace_prefix (x gate : list F) (m : nat) :
  m <= length x ->
  swiGluInPlace (take m x) (take m gate) = take m (swiGluInPlace x gate).
Proof.
  intros Hm. apply rd_ext.
  - rewrite swiGluInPlace_length, !length_take, swiGluInPlace_length. reflexivity.
  - intros i Hi. rewrite swiGluInPlace_length, length_take in Hi.
    rewrite swiGluInPlace_cell by (rewrite length_take; lia).
    rewrite !rd_take by lia. rewrite swiGluInPlace_cell by lia. reflexivity.
Qed.

Lemma embeddingLookup_prefix (tokens : list nat) (weight : nat -> Z) (dModel n : nat) :
  fits32 (length tokens * dModel) -> n <= length tokens ->
  embeddingLookup (take n tokens) weight dModel
  = take (n * dModel) (embeddingLookup tokens weight dModel).
Proof.
  intros Hfit Hn.
  assert (Hlt : length (take n tokens) = n) by (rewrite length_take; lia).
  assert (Hfit' : fits32 (length (take n tokens) * dModel)).
  { apply (fits32_le _ (length tokens * dModel)); [rewrite Hlt; nia|exact Hfit]. }
  apply take_rows.
  - rewrite embeddingLookup_length, Hlt. reflexivity.
  - rewrite embeddingLookup_length. nia.
  - intros r i Hr Hi.
    rewrite !embeddingLookup_cell by first [assumption|rewrite Hlt; lia|lia].
    rewrite !nth_lookup, lookup_take_lt by exact Hr. reflexivity.
Qed.
End Elementwise.

Section Shapes.
Context {F : Type} `{FloatOps F} `{FloatTrig F}.

Lemma rotate_length (x y freq : list F) (nHeads : nat) :
  rotate x freq nHeads = Ok y ->
  nHeads *! u32 (2 * length freq) <> 0 /\ length y = length x.
Proof.
  unfold rotate. cbv zeta.
  destruct (Nat.eqb_spec (nHeads *! u32 (2 * length freq)) 0) as [|Hnz]; [discriminate|].
  intros [= <-]. split; [exact Hnz|].
  apply (for__ind (fun _ t => length t = length x)); [apply length_alloc|].
  intros p t _ Ht. apply (for__ind (fun _ t' => length t' = length x)); [exact Ht|].
  intros h t' _ Ht'. apply (for__ind (fun _ t'' => length t'' = length x)); [exact Ht'|].
  intros i t'' _ Ht''. rewrite !length_wr. exact Ht''.
Qed.

(** X15.  [attention] and [mlp] keep the shape: on an input of whole rows
    of [dModel] they return, when they return, an activation of the size
    of the input, so that each [addInPlace] of [predict] adds two
    activations of one size. *)
Theorem attention_mlp_shape (model : Model F) (layer : Layer) (x y : list F) (rows : nat) :
  length x = rows * dModel model ->
  (attention model layer x = Ok y -> length y = length x)
  /\ (mlp model layer x = Ok y -> length y = length x).
Proof.
  intros Hx. split.
  - unfold attention.
    destruct (rmsNorm x _ _ _) as [z|] eqn:Hz; cbn [mbind result_bind]; [|discriminate].
    destruct (project z (weights model (attnQ layer)) _ _) as [q|] eqn:Hq;
      cbn [mbind result_bind]; [|discriminate].
    destruct (project z (weights model (attnK layer)) _ _) as [k|] eqn:Hk;
      cbn [mbind result_bind]; [|discriminate].
    destruct (project z (weights model (attnV layer)) _ _) as [v|] eqn:Hv;
      cbn [mbind result_bind]; [|discriminate].
    destruct (rotate q _ _) as [q'|] eqn:Hq'; cbn [mbind result_bind]; [|discriminate].
    destruct (rotate k _ _) as [k'|] eqn:Hk'; cbn [mbind result_bind]; [|discriminate].
    destruct (selfAttention q' k' v _ _ _) as [mix|] eqn:Hmix;
      cbn [mbind result_bind]; [|discriminate].
    intros Hy.
    apply rmsNorm_length in Hz. apply project_length in Hq as [Hd Hq].
    apply rotate_length in Hq' as [_ Hq']. apply selfAttention_length in Hmix as [_ Hmix].
    apply project_length in Hy as [HW Hy].
    rewrite Hy, Hmix, Hq', Hq, Hz, Hx, !Nat.div_mul by assumption. reflexivity.
  - unfold mlp.
    destruct (rmsNorm x _ _ _) as [z|] eqn:Hz; cbn [mbind result_bind]; [|discriminate].
    destruct (project z (weights model (mlpUp layer)) _ _) as [up|] eqn:Hup;
      cbn [mbind result_bind]; [|discriminate].
    destruct (project z (weights model (mlpGate layer)) _ _) as [gate|] eqn:Hgate;
      cbn [mbind result_bind]; [|discriminate].
    intros Hy.
    apply rmsNorm_length in Hz. apply project_length in Hup as [Hd Hup].
    apply project_length in Hy as [HW Hy].
    rewrite Hy, swiGluInPlace_length, Hup, Hz, Hx, !Nat.div_mul by assumption. reflexivity.
Qed.
End Shapes.

Lemma attention_mlp_shape_witness :
  exists y : list R,
    attention model_one_layer (layer_at 4) [1; 2]%R = Ok y /\ length y = 2.
Proof.
  destruct (attention_returns model_one_layer (layer_at 4) [1; 2]%R 1
              model_one_layer_dims eq_refl) as (y & Hy).
  - vm_compute. reflexivity.
  - exists y. split; [exact Hy|].
    exact (proj1 (attention_mlp_shape model_one_layer (layer_at 4) [1; 2]%R y 1 eq_refl) Hy).
Defined.

(* ================================================================== *)
(** * The forward pass on a prefix of the tokens *)

Section PipelinePrefix.
Context {F : Type} `{FloatOps F} `{FloatTrig F}.

(** The widths of [attention] under [dims_fit], without wrapping. *)
Lemma dims_fit_widths (model : Model F) (rows : nat) :
  dims_fit model rows ->
  dAttnKV model *! dAttnQ model = dAttnKV model * dAttnQ model
  /\ dAttnKV model * dAttnQ model *! dAttnHead model
     = dAttnKV model * dAttnQ model * dAttnHead model
  /\ dAttnKV model *! dAttnHead model = dAttnKV model * dAttnHead model
  /\ u32 (2 * length (ropeFreq model)) = dAttnHead model
  /\ 0 < dAttnKV model * dAttnQ model * dAttnHead model
  /\ 0 < dAttnKV model * dAttnHead model
  /\ fits32 (rows * (dAttnKV model * dAttnHead model)).
Proof.
  intros (Hd & Hf & HKV & HQ & HHd & Hhalf & HW & _ & _ & HrW & _).
  assert (Hu : forall t, t <= dAttnKV model * dAttnQ model * dAttnHead model -> u32 t = t).
  { intros t Ht. apply u32_fits, (fits32_le _ _ Ht HW). }
  set (a := dAttnKV model) in *. set (b := dAttnQ model) in *.
  set (c := dAttnHead model) in *.
  assert (Hab : a * b <= a * b * c).
  { rewrite <- (Nat.mul_1_r (a * b)) at 1. apply Nat.mul_le_mono_l. lia. }
  assert (Hac : a * c <= a * b * c).
  { rewrite <- (Nat.mul_assoc a b c). apply Nat.mul_le_mono_l.
    rewrite <- (Nat.mul_1_l c) at 1. apply Nat.mul_le_mono_r. lia. }
  assert (Hc : c <= a * c).
  { rewrite <- (Nat.mul_1_l c) at 1. apply Nat.mul_le_mono_r. lia. }
  assert (Hac0 : 0 < a * c) by lia.
  repeat split.
  - apply Hu. exact Hab.
  - apply Hu. lia.
  - apply Hu. exact Hac.
  - rewrite Hhalf. apply Hu. lia.
  - lia.
  - exact Hac0.
  - apply (fits32_le _ (rows * (a * b * c))); [|exact HrW].
    apply Nat.mul_le_mono_l. exact Hac.
Qed.

Lemma attention_prefix (model : Model F) (layer : Layer) (x y : list F) (rows n : nat) :
  dims_fit model rows -> length x = rows * dModel model -> n <= rows ->
  attention model layer x = Ok y ->
  attention model layer (take (n * dModel model) x) = Ok (take (n * dModel model) y).
Proof.
  intros Hdims Hx Hn.
  destruct (dims_fit_widths model rows Hdims) as (HKQ & HW & HWk & H2 & HW0 & HWk0 & HfWk).
  destruct Hdims as (Hd & Hf & HKV & HQ & HHd & Hhalf & HfW & Hfd & _ & HfrW & _).
  unfold attention. rewrite !HKQ, !HW, !HWk.
  set (W := dAttnKV model * dAttnQ model * dAttnHead model) in *.
  set (Wk := dAttnKV model * dAttnHead model) in *.
  set (d := dModel model) in *.
  assert (Hfx : fits32 (length x)) by (rewrite Hx; exact Hfd).
  destruct (rmsNorm x _ _ _) as [z|] eqn:Hz; cbn [mbind result_bind]; [|discriminate].
  rewrite (rmsNorm_prefix x z _ d rows n _ Hd Hx Hfx Hn Hz). cbn [mbind result_bind].
  pose proof (rmsNorm_length _ _ _ _ _ Hz) as Hlz. rewrite Hx in Hlz.
  assert (Hfz : fits32 (length z)) by (rewrite Hlz; exact Hfd).
  destruct (project z (weights model (attnQ layer)) _ _) as [q|] eqn:Hq;
    cbn [mbind result_bind]; [|discriminate].
  rewrite (project_prefix z q _ d W rows n Hd Hlz Hfz HfrW Hn Hq). cbn [mbind result_bind].
  destruct (project z (weights model (attnK layer)) _ _) as [k|] eqn:Hk;
    cbn [mbind result_bind]; [|discriminate].
  rewrite (project_prefix z k _ d Wk rows n Hd Hlz Hfz HfWk Hn Hk). cbn [mbind result_bind].
  destruct (project z (weights model (attnV layer)) _ _) as [v|] eqn:Hv;
    cbn [mbind result_bind]; [|discriminate].
  rewrite (project_prefix z v _ d Wk rows n Hd Hlz Hfz HfWk Hn Hv). cbn [mbind result_bind].
  assert (Hrows : length z / d = rows) by (rewrite Hlz; apply Nat.div_mul; lia).
  destruct (project_length _ _ _ _ _ Hq) as [_ Hlq]. rewrite Hrows in Hlq.
  destruct (project_length _ _ _ _ _ Hk) as [_ Hlk]. rewrite Hrows in Hlk.
  assert (HWr : W = dAttnKV model * dAttnQ model * (2 * length (ropeFreq model)))
    by (rewrite Hhalf; reflexivity).
  assert (HWkr : Wk = dAttnKV model * (2 * length (ropeFreq model)))
    by (rewrite Hhalf; reflexivity).
  destruct (rotate q _ _) as [q'|] eqn:Hq'; cbn [mbind result_bind]; [|discriminate].
  assert (Hq'p : rotate (take (n * W) q) (ropeFreq model) (dAttnKV model * dAttnQ model)
                 = Ok (take (n * W) q')).
  { rewrite HWr. apply (rotate_prefix q q' _ _ rows n); [|rewrite Hlq; exact HfrW|exact Hn|exact Hq'].
    rewrite Hlq, HWr. ring. }
  rewrite Hq'p. cbn [mbind result_bind].
  destruct (rotate k _ _) as [k'|] eqn:Hk'; cbn [mbind result_bind]; [|discriminate].
  assert (Hk'p : rotate (take (n * Wk) k) (ropeFreq model) (dAttnKV model)
                 = Ok (take (n * Wk) k')).
  { rewrite HWkr. apply (rotate_prefix k k' _ _ rows n); [|rewrite Hlk; exact HfWk|exact Hn|exact Hk'].
    rewrite Hlk, HWkr. ring. }
  rewrite Hk'p. cbn [mbind result_bind].
  destruct (rotate_length _ _ _ _ Hq') as [_ Hlq'].
  destruct (rotate_length _ _ _ _ Hk') as [_ Hlk'].
  subst W Wk.
  destruct (selfAttention q' k' v _ _ _) as [mix|] eqn:Hmix;
    cbn [mbind result_bind]; [|discriminate].
  rewrite (selfAttention_prefix q' k' v mix _ _ _ rows n); cycle 1.
  - rewrite Hlq', Hlq. ring.
  - rewrite Hlk', Hlk. ring.
  - rewrite Hlq', Hlq. exact HfrW.
  - rewrite Hlk', Hlk. exact HfWk.
  - exact Hn.
  - exact Hmix.
  - cbn [mbind result_bind].
    destruct (selfAttention_length _ _ _ _ _ _ _ Hmix) as [_ Hlmix].
    rewrite Hlq', Hlq in Hlmix.
    intros Hy. apply (project_prefix mix y _ _ d rows n); try assumption.
    rewrite Hlmix. exact HfrW.
Qed.

Lemma mlp_prefix (model : Model F) (layer : Layer) (x y : list F) (rows n : nat) :
  dims_fit model rows -> length x = rows * dModel model -> n <= rows ->
  mlp model layer x = Ok y ->
  mlp model layer (take (n * dModel model) x) = Ok (take (n * dModel model) y).
Proof.
  intros Hdims Hx Hn.
  destruct Hdims as (Hd & Hf & _ & _ & _ & _ & _ & Hfd & Hff & _ & _).
  unfold mlp.
  assert (Hfx : fits32 (length x)) by (rewrite Hx; exact Hfd).
  destruct (rmsNorm x _ _ _) as [z|] eqn:Hz; cbn [mbind result_bind]; [|discriminate].
  rewrite (rmsNorm_prefix x z _ _ rows n _ Hd Hx Hfx Hn Hz). cbn [mbind result_bind].
  pose proof (rmsNorm_length _ _ _ _ _ Hz) as Hlz. rewrite Hx in Hlz.
  assert (Hfz : fits32 (length z)) by (rewrite Hlz; exact Hfd).
  destruct (project z (weights model (mlpUp layer)) _ _) as [up|] eqn:Hup;
    cbn [mbind result_bind]; [|discriminate].
  rewrite (project_prefix z up _ _ _ rows n Hd Hlz Hfz Hff Hn Hup). cbn [mbind result_bind].
  destruct (project z (weights model (mlpGate layer)) _ _) as [gate|] eqn:Hgate;
    cbn [mbind result_bind]; [|discriminate].
  rewrite (project_prefix z gate _ _ _ rows n Hd Hlz Hfz Hff Hn Hgate).
  cbn [mbind result_bind].
  assert (Hrows : length z / dModel model = rows) by (rewrite Hlz; apply Nat.div_mul; lia).
  destruct (project_length _ _ _ _ _ Hup) as [_ Hlup]. rewrite Hrows in Hlup.
  rewrite swiGluInPlace_prefix by (rewrite Hlup; apply Nat.mul_le_mono_r, Hn).
  intros Hy. apply (project_prefix _ y _ _ _ rows n); try assumption.
  - rewrite swiGluInPlace_length. exact Hlup.
  - rewrite swiGluInPlace_length, Hlup. exact Hff.
Qed.

Lemma layers_prefix (model : Model F) (ls : list Layer) (hidden hidden' : list F)
    (rows n : nat) :
  dims_fit model rows -> length hidden = rows * dModel model -> n <= rows ->
  foldl (fun acc layer =>
           hidden ← acc;
           a ← attention model layer hidden;
           let hidden := addInPlace hidden a in
           m ← mlp model layer hidden;
           mret (addInPlace hidden m))
        (Ok hidden) ls = Ok hidden' ->
  foldl (fun acc layer =>
           hidden ← acc;
           a ← attention model layer hidden;
           let hidden := addInPlace hidden a in
           m ← mlp model layer hidden;
           mret (addInPlace hidden m))
        (Ok (take (n * dModel model) hidden)) ls
  = Ok (take (n * dModel model) hidden').
Proof.
  intros Hdims. revert hidden.
  induction ls as [|layer ls IH]; intros hidden Hh Hn; simpl.
  - intros [= <-]. reflexivity.
  - destruct (attention model layer hidden) as [a|f] eqn:Ha; cbn [mbind result_bind].
    2:{ intros Hbad. exfalso. revert Hbad. clear.
        induction ls as [|l ls IH]; simpl; [discriminate|exact IH]. }
    rewrite (attention_prefix model layer hidden a rows n Hdims Hh Hn Ha).
    cbn [mbind result_bind].
    assert (Hnd : n * dModel model <= length hidden).
    { rewrite Hh. apply Nat.mul_le_mono_r, Hn. }
    rewrite addInPlace_prefix by exact Hnd.
    assert (Hh1 : length (addInPlace hidden a) = rows * dModel model)
      by (rewrite addInPlace_length; exact Hh).
    destruct (mlp model layer (addInPlace hidden a)) as [m|f] eqn:Hm;
      cbn [mbind result_bind].
    2:{ intros Hbad. exfalso. revert Hbad. clear.
        induction ls as [|l ls IH]; simpl; [discriminate|exact IH]. }
    rewrite (mlp_prefix model layer _ m rows n Hdims Hh1 Hn Hm). cbn [mbind result_bind].
    unfold mret, result_ret.
    rewrite addInPlace_prefix by (rewrite Hh1; apply Nat.mul_le_mono_r, Hn).
    apply IH; [|exact Hn]. rewrite addInPlace_length. exact Hh1.
Qed.

Lemma forward_layers_prefix (model : Model F) (hidden hidden' : list F) (rows n : nat) :
  dims_fit model rows -> length hidden = rows * dModel model -> n <= rows ->
  forward_layers model hidden = Ok hidden' ->
  forward_layers model (take (n * dModel model) hidden)
  = Ok (take (n * dModel model) hidden').
Proof. intros Hdims Hh Hn. apply (layers_prefix model _ hidden hidden' rows n); assumption. Qed.

Lemma predict_logits_take (model : Model F) (tokens : list nat) (logits : list F)
    (n : nat) :
  dims_fit model (length tokens) -> n <= length tokens ->
  predict_logits model tokens = Ok logits ->
  predict_logits model (take n tokens) = Ok (take (n * dVocab model) logits).
Proof.
  intros Hdims Hn. pose proof Hdims as (Hd & _ & _ & _ & _ & _ & _ & Hfd & _ & _ & Hfv).
  unfold predict_logits. cbv zeta.
  rewrite embeddingLookup_prefix by assumption.
  set (hidden := embeddingLookup tokens _ _).
  assert (Hh : length hidden = length tokens * dModel model)
    by apply embeddingLookup_length.
  destruct (forward_layers model hidden) as [h1|] eqn:Hfold;
    cbn [mbind result_bind]; [|discriminate].
  rewrite (forward_layers_prefix model hidden h1 (length tokens) n Hdims Hh Hn Hfold).
  cbn [mbind result_bind].
  assert (Hh1 : length h1 = length tokens * dModel model).
  { rewrite <- Hh. apply (forward_layers_length model). exact Hfold. }
  assert (Hfh1 : fits32 (length h1)) by (rewrite Hh1; exact Hfd).
  destruct (rmsNorm h1 _ _ _) as [z|] eqn:Hz; cbn [mbind result_bind]; [|discriminate].
  rewrite (rmsNorm_prefix h1 z _ _ (length tokens) n _ Hd Hh1 Hfh1 Hn Hz).
  cbn [mbind result_bind].
  pose proof (rmsNorm_length _ _ _ _ _ Hz) as Hlz. rewrite Hh1 in Hlz.
  intros Hy. apply (project_prefix z logits _ _ _ (length tokens) n); try assumption.
  rewrite Hlz. exact Hfd.
Qed.

(** X16.  The forward pass is causal: the logits of the first [n] tokens
    are the first [n] rows of the logits of the whole sequence, and the
    token [predict] returns for the first [n] tokens is the arg-max of
    row [n - 1] of those logits. *)
Theorem predict_prefix (model : Model F) (tokens : list nat) (logits : list F) (n : nat) :
  dims_fit model (length tokens) -> n <= length tokens ->
  predict_logits model tokens = Ok logits ->
  predict_logits model (take n tokens) = Ok (take (n * dVocab model) logits)
  /\ (0 < n ->
      predict model (take n tokens)
      = Ok (max_element (take (dVocab model) (drop ((n - 1) * dVocab model) logits)))).
Proof.
  intros Hdims Hn Hlogits.
  pose proof (predict_logits_take model tokens logits n Hdims Hn Hlogits) as Hpre.
  split; [exact Hpre|]. intros Hn0.
  pose proof (predict_logits_length model tokens logits Hlogits) as Hlen.
  unfold predict. rewrite Hpre. cbn [mbind result_bind].
  clear Hpre Hlogits Hdims. revert Hlen. generalize (dVocab model). intros dV Hlen.
  assert (HndV : n * dV <= length logits).
  { rewrite Hlen. apply Nat.mul_le_mono_r, Hn. }
  assert (Hlt : length (take (n * dV) logits) = n * dV) by (rewrite length_take; lia).
  rewrite Hlt. unfold max_element_range.
  assert (Hsplit : n * dV = (n - 1) * dV + dV) by nia.
  destruct (Z.eqb_spec (Z.of_nat (n * dV) - Z.of_nat dV) (Z.of_nat (n * dV))) as [Heq|Hne].
  - assert (dV = 0) as -> by lia. reflexivity.
  - destruct (Z.ltb_spec (Z.of_nat (n * dV) - Z.of_nat dV) 0); [lia|].
    destruct (Z.ltb_spec (Z.of_nat (length (take (n * dV) logits))) (Z.of_nat (n * dV)));
      [lia|].
    destruct (Z.ltb_spec (Z.of_nat (n * dV)) (Z.of_nat (n * dV) - Z.of_nat dV)); [lia|].
    cbn [orb]. f_equal. f_equal.
    replace (Z.to_nat (Z.of_nat (n * dV) - (Z.of_nat (n * dV) - Z.of_nat dV))) with dV by lia.
    replace (Z.to_nat (Z.of_nat (n * dV) - Z.of_nat dV)) with ((n - 1) * dV) by lia.
    rewrite Hsplit at 1. rewrite <- take_drop_commute, take_take, Nat.min_id. reflexivity.
Qed.
End PipelinePrefix.

Lemma model_one_layer_fit : dims_fit model_one_layer 3.
Proof. repeat split; try (simpl; lia); vm_compute; reflexivity. Qed.

Lemma predict_prefix_witness :
  exists logits : list R,
    predict_logits model_one_layer [1; 0; 2] = Ok logits
    /\ predict_logits model_one_layer (take 2 [1; 0; 2]) = Ok (take (2 * 3) logits).
Proof.
  destruct (predict_logits_returns model_one_layer [1; 0; 2] model_one_layer_dims)
    as (logits & Hlogits).
  - vm_compute. reflexivity.
  - exists logits. split; [exact Hlogits|].
    refine (proj1 (predict_prefix model_one_layer [1; 0; 2] logits 2
                     model_one_layer_fit _ Hlogits)).
    simpl. lia.
Defined.

(* ================================================================== *)
(** * The token [predict] returns *)

Section PredictRange.
Context {F : Type} `{FloatOps F} `{FloatTrig F}.

(** The range [predict] takes the arg-max of, when it returns. *)
Lemma predict_slice (model : Model F) (tokens : list nat) (logits : list F) (t : nat) :
  predict_logits model tokens = Ok logits ->
  predict model tokens = Ok t -> 0 < dVocab model ->
  dVocab model <= length logits
  /\ t = max_element (take (dVocab model) (drop (length logits - dVocab model) logits)).
Proof.
  intros Hlogits. unfold predict. rewrite Hlogits. cbn [mbind result_bind].
  unfold max_element_range. intros Ht HdV.
  destruct (Z.eqb_spec (Z.of_nat (length logits) - Z.of_nat (dVocab model))
              (Z.of_nat (length logits))) as [Heq|Hne]; [lia|].
  destruct (Z.ltb_spec (Z.of_nat (length logits) - Z.of_nat (dVocab model)) 0);
    [discriminate|].
  destruct (Z.ltb_spec (Z.of_nat (length logits)) (Z.of_nat (length logits)));
    [discriminate|].
  destruct (Z.ltb_spec (Z.of_nat (length logits))
              (Z.of_nat (length logits) - Z.of_nat (dVocab model))); [discriminate|].
  cbn [orb] in Ht. injection Ht as <-. split; [lia|].
  f_equal. f_equal; [|f_equal]; lia.
Qed.

(** X17.  The token [predict] returns is an index into the vocabulary,
    whatever the logits are (NaN included). *)
Theorem predict_token_range (model : Model F) (tokens : list nat) (t : nat) :
  predict model tokens = Ok t -> 0 < dVocab model -> t < dVocab model.
Proof.
  intros Ht HdV.
  destruct (predict_logits model tokens) as [logits|f] eqn:Hlogits.
  2:{ unfold predict in Ht. rewrite Hlogits in Ht. discriminate. }
  destruct (predict_slice model tokens logits t Hlogits Ht HdV) as [Hle ->].
  set (row := take (dVocab model) (drop (length logits - dVocab model) logits)).
  assert (Hrow : length row = dVocab model).
  { unfold row. rewrite length_take, length_drop. lia. }
  rewrite <- Hrow. apply max_element_lt. intros Hnil. rewrite Hnil in Hrow. simpl in Hrow. lia.
Qed.
End PredictRange.

Section ArgmaxIdeal.

(** [std::max_element] on the reals: the first of the largest elements. *)
Lemma max_element_first_max (x : list R) :
  x <> [] ->
  max_element x < length x
  /\ (forall i, i < length x -> (rd x i <= rd x (max_element x))%R)
  /\ (forall i, i < max_element x -> (rd x i < rd x (max_element x))%R).
Proof.
  intros Hx. split; [apply max_element_lt, Hx|].
  assert (Hlen : 0 < length x) by (destruct x; [contradiction|simpl; lia]).
  unfold max_element.
  assert (Hinv : forall k, k <= length x - 1 ->
            let m := for_ k (fun k largest =>
                       if fltb (rd x largest) (rd x (S k)) then S k else largest) 0 in
            m <= k
            /\ (forall i, i <= k -> (rd x i <= rd x m)%R)
            /\ (forall i, i < m -> (rd x i < rd x m)%R)).
  { induction k as [|k IH]; intros Hk; cbv zeta.
    - rewrite for__0. split; [lia|]. split.
      + intros i Hi. assert (i = 0) as -> by lia. lra.
      + intros i Hi. lia.
    - rewrite for__S. destruct IH as (Hm & Hmax & Hfirst); [lia|].
      set (m := for_ k _ 0) in *.
      cbn [fltb Ideal.ops]. unfold Ideal.ltb.
      destruct (Rlt_dec (rd x m) (rd x (S k))) as [Hlt|Hge].
      + split; [lia|]. split.
        * intros i Hi. destruct (decide (i = S k)) as [->|Hne]; [lra|].
          specialize (Hmax i ltac:(lia)). lra.
        * intros i Hi. specialize (Hmax i ltac:(lia)). lra.
      + split; [lia|]. split.
        * intros i Hi. destruct (decide (i = S k)) as [->|Hne]; [lra|].
          apply Hmax. lia.
        * exact Hfirst. }
  destruct (Hinv (length x - 1)) as (_ & Hmax & Hfirst); [lia|].
  split; [|exact Hfirst]. intros i Hi. apply Hmax. lia.
Qed.

(** X18.  Greedy decoding in exact arithmetic: the token [predict] returns
    has the largest logit of the last position, and of the tokens with
    that logit it is the one with the lowest id. *)
Theorem predict_argmax (model : Model R) (tokens : list nat) (logits : list R) (t : nat) :
  predict_logits model tokens = Ok logits ->
  predict model tokens = Ok t -> 0 < dVocab model ->
  let base := length logits - dVocab model in
  t < dVocab model
  /\ (forall j, j < dVocab model -> (rd logits (base + j) <= rd logits (base + t))%R)
  /\ (forall j, j < t -> (rd logits (base + j) < rd logits (base + t))%R).
Proof.
  intros Hlogits Ht HdV base.
  destruct (predict_slice model tokens logits t Hlogits Ht HdV) as [Hle Heq].
  fold base in Heq.
  set (row := take (dVocab model) (drop base logits)) in *.
  assert (Hrow : length row = dVocab model).
  { unfold row. rewrite length_take, length_drop. unfold base. lia. }
  assert (Hnil : row <> []).
  { intros Hnil. rewrite Hnil in Hrow. simpl in Hrow. lia. }
  destruct (max_element_first_max row Hnil) as (Hlt & Hmax & Hfirst).
  rewrite <- Heq in *. rewrite Hrow in *.
  assert (Hrd : forall j, j < dVocab model -> rd row j = rd logits (base + j)).
  { intros j Hj. unfold row. rewrite rd_take by exact Hj. apply rd_drop. }
  split; [exact Hlt|]. split.
  - intros j Hj. rewrite <- !Hrd by assumption. apply Hmax, Hj.
  - intros j Hj. rewrite <- !Hrd by lia. apply Hfirst, Hj.
Qed.
End ArgmaxIdeal.

(** [predict] returns on the dimensions of [dims_ok]. *)
Lemma predict_runs {F : Type} `{FloatOps F} `{FloatTrig F}
    (model : Model F) (tokens : list nat) :
  dims_ok model -> tokens <> [] -> fits32 (length tokens * dModel model) ->
  exists logits token,
    predict_logits model tokens = Ok logits /\ predict model tokens = Ok token.
Proof.
  intros Hok Htok Hfit.
  destruct (predict_logits_returns model tokens Hok Hfit) as (logits & Hlogits).
  pose proof (predict_logits_length model tokens logits Hlogits) as Hlen.
  assert (Hrows : 0 < length tokens) by (destruct tokens; [contradiction|simpl; lia]).
  exists logits. unfold predict. rewrite Hlogits. cbn [mbind result_bind].
  unfold max_element_range.
  destruct (Z.eqb_spec (Z.of_nat (length logits) - Z.of_nat (dVocab model))
              (Z.of_nat (length logits))); [eexists; split; reflexivity|].
  destruct (Z.ltb_spec (Z.of_nat (length logits) - Z.of_nat (dVocab model)) 0); [nia|].
  destruct (Z.ltb_spec (Z.of_nat (length logits)) (Z.of_nat (length logits))); [lia|].
  destruct (Z.ltb_spec (Z.of_nat (length logits))
              (Z.of_nat (length logits) - Z.of_nat (dVocab model))); [lia|].
  eexists. split; reflexivity.
Qed.

Lemma predict_token_range_witness :
  exists token : nat, predict model_one_layer [1; 0; 2] = Ok token /\ token < 3.
Proof.
  destruct (predict_runs model_one_layer [1; 0; 2] model_one_layer_dims)
    as (logits & token & _ & Htoken).
  - discriminate.
  - vm_compute. reflexivity.
  - exists token. split; [exact Htoken|].
    apply (predict_token_range model_one_layer [1; 0; 2] token Htoken). simpl. lia.
Defined.

Lemma predict_argmax_witness :
  exists (logits : list R) (token : nat),
    predict model_one_layer [1; 0; 2] = Ok token
    /\ forall j, j < 3 -> (rd logits (length logits - 3 + j)
                           <= rd logits (length logits - 3 + token))%R.
Proof.
  destruct (predict_runs model_one_layer [1; 0; 2] model_one_layer_dims)
    as (logits & token & Hlogits & Htoken).
  - discriminate.
  - vm_compute. reflexivity.
  - exists logits, token. split; [exact Htoken|].
    refine (proj1 (proj2 (predict_argmax model_one_layer [1; 0; 2] logits token
                            Hlogits Htoken _))).
    simpl. lia.
Defined.

(* ================================================================== *)
(** * Printing an activation *)

Lemma string_app_assoc (a b c : string) : (a +:+ b) +:+ c = a +:+ b +:+ c.
Proof.
  induction a as [|x a IH]; [reflexivity|].
  change (String x (a +:+ b) +:+ c = String x (a +:+ b +:+ c)).
  change (String x ((a +:+ b) +:+ c) = String x (a +:+ b +:+ c)). rewrite IH. reflexivity.
Qed.

Lemma string_app_empty_r (s : string) : s +:+ "" = s.
Proof.
  induction s as [|c s IHs]; [reflexivity|].
  change (String c s +:+ "") with (String c (s +:+ "")). rewrite IHs. reflexivity.
Qed.

(** One more string behind a joined list. *)
Lemma join_with_snoc (sep : string) (l : list string) (s : string) :
  join_with sep (l ++ [s])
  = if decide (l = []) then s else join_with sep l +:+ sep +:+ s.
Proof.
  induction l as [|a l IH]; [reflexivity|].
  destruct (decide (a :: l = [])) as [|_]; [discriminate|].
  destruct l as [|b l]; [reflexivity|].
  change (join_with sep ((a :: b :: l) ++ [s]))
    with (a +:+ sep +:+ join_with sep ((b :: l) ++ [s])).
  rewrite IH. destruct (decide (b :: l = [])) as [|_]; [discriminate|].
  change (join_with sep (a :: b :: l)) with (a +:+ sep +:+ join_with sep (b :: l)).
  rewrite !string_app_assoc. reflexivity.
Qed.

Section PrintFormat.
Context {F : Type} `{FloatOps F}.
Variable show : F -> string.

Lemma print_small_loop (out : string) (a : list F) (n : nat) :
  n <= length a ->
  for_ n (fun i out =>
            let out := if i =? 0 then out else out +:+ ", " in
            out +:+ show (rd a i)) out
  = out +:+ join_with ", " (show <$> take n a).
Proof.
  induction n as [|n IH]; intros Hn.
  - rewrite for__0. cbn. rewrite string_app_empty_r. reflexivity.
  - rewrite for__S, IH by lia. cbv zeta.
    destruct (lookup_lt_is_Some_2 a n ltac:(lia)) as [x Hx].
    rewrite (take_S_r a n x Hx), fmap_app.
    change (show <$> [x]) with [show x]. rewrite join_with_snoc.
    rewrite (rd_lookup a n x Hx).
    destruct n as [|n].
    + cbn. rewrite string_app_empty_r. reflexivity.
    + cbn [Nat.eqb].
      destruct (decide (show <$> take (S n) a = [])) as [Hnil|_].
      { apply (f_equal length) in Hnil. rewrite length_fmap, length_take in Hnil.
        cbn [length] in Hnil. lia. }
      rewrite !string_app_assoc. reflexivity.
Qed.

(** X23.  The text [operator<<] writes for an activation: fewer than 16
    elements are written all, separated by a comma and a space; from 16
    elements on the size in parentheses, the first three elements, an
    ellipsis and the last three. *)
Theorem print_Activation_format (out : string) (a : list F) :
  (length a < 16 ->
   print_Activation show out a = out +:+ join_with ", " (show <$> a))
  /\ (16 <= length a ->
      print_Activation show out a
      = out +:+ "(" +:+ pretty (length a) +:+ ") "
            +:+ join_with ", " (show <$> take 3 a) +:+ " ... "
            +:+ join_with ", " (show <$> drop (length a - 3) a)).
Proof.
  unfold print_Activation. split; intros Hlen.
  - destruct (Nat.ltb_spec (length a) 16); [|lia].
    rewrite print_small_loop by lia. rewrite firstn_all. reflexivity.
  - destruct (Nat.ltb_spec (length a) 16); [lia|]. cbv zeta.
    set (n := length a) in *.
    assert (Htake : take 3 a = [rd a 0; rd a 1; rd a 2]).
    { destruct a as [|a0 [|a1 [|a2 a']]]; simpl in n; try (unfold n in Hlen; simpl in Hlen; lia).
      reflexivity. }
    assert (Hdrop : drop (n - 3) a = [rd a (n - 3); rd a (n - 2); rd a (n - 1)]).
    { apply (rd_ext (H := H)).
      - rewrite length_drop. fold n. simpl. lia.
      - intros i Hi. rewrite length_drop in Hi. fold n in Hi. rewrite rd_drop.
        destruct i as [|[|[|i]]]; [| | |lia]; cbn [rd nth]; f_equal; lia. }
    rewrite Htake, Hdrop. cbn [fold_left fmap list_fmap join_with].
    destruct (Nat.eqb_spec 0 (n - 3)); [lia|].
    destruct (Nat.eqb_spec 1 (n - 3)); [lia|].
    destruct (Nat.eqb_spec 2 (n - 3)); [lia|].
    destruct (Nat.eqb_spec (n - 3) (n - 3)); [|lia].
    destruct (Nat.eqb_spec (n - 2) (n - 3)); [lia|].
    destruct (Nat.eqb_spec (n - 1) (n - 3)); [lia|].
    destruct (Nat.eqb_spec (n - 2) 0); [lia|].
    destruct (Nat.eqb_spec (n - 1) 0); [lia|].
    cbn [Nat.eqb]. rewrite !string_app_assoc. reflexivity.
Qed.
End PrintFormat.

(* ================================================================== *)
(** * The driver: the tokens of a line *)

(** The digit characters. *)
Lemma digit_of_char (d : N) :
  (d < 10)%N ->
  digit_of (pretty_N_char d) = Some (N.to_nat d)
  /\ isspace (pretty_N_char d) = false
  /\ (Ascii.nat_of_ascii (pretty_N_char d) =? 45) = false
  /\ (Ascii.nat_of_ascii (pretty_N_char d) =? 43) = false.
Proof.
  intros Hd.
  assert (Hcases : (d = 0 \/ d = 1 \/ d = 2 \/ d = 3 \/ d = 4 \/ d = 5 \/ d = 6
                    \/ d = 7 \/ d = 8 \/ d = 9)%N) by lia.
  repeat (destruct Hcases as [->|Hcases]; [repeat split; reflexivity|]).
  subst d. repeat split; reflexivity.
Qed.


Lemma scan_digits_stop (s : string) (count value : nat) :
  no_digit_next s -> scan_digits s count value = (count, value, s).
Proof. destruct s as [|c s]; simpl; [reflexivity|]. intros ->. reflexivity. Qed.

(** Scanning the decimal digits of [x]. *)
Lemma scan_pretty_go (x : N) :
  (0 < x)%N ->
  exists k, 0 < k /\ forall s count value,
    scan_digits (pretty_N_go x s) count value
    = scan_digits s (count + k) (value * 10 ^ k + N.to_nat x).
Proof.
  induction (N.lt_wf_0 x) as [x _ IH]. intros Hx.
  assert (Hd : (x mod 10 < 10)%N) by (apply N.mod_lt; lia).
  destruct (digit_of_char _ Hd) as (Hdig & _).
  assert (Hx10 : N.to_nat x = 10 * N.to_nat (x / 10) + N.to_nat (x mod 10)).
  { rewrite (N.div_mod x 10) at 1 by lia. lia. }
  destruct (N.eq_dec (x / 10)%N 0%N) as [Hz|Hnz].
  - exists 1. split; [lia|]. intros s count value.
    rewrite pretty_N_go_step, Hz, pretty_N_go_0 by exact Hx.
    cbn [scan_digits]. rewrite Hdig. rewrite Hx10, Hz. f_equal; simpl; lia.
  - destruct (IH (x / 10)%N) as (k & Hk & Hscan);
      [apply N.div_lt; lia|apply N.neq_0_lt_0, Hnz|].
    exists (S k). split; [lia|]. intros s count value.
    rewrite pretty_N_go_step, Hscan by exact Hx.
    cbn [scan_digits]. rewrite Hdig. rewrite Hx10. f_equal; [lia|].
    rewrite Nat.pow_succ_r'. lia.
Qed.

Lemma pretty_go_app (x : N) (s r : string) :
  pretty_N_go x s +:+ r = pretty_N_go x (s +:+ r).
Proof.
  revert s. induction (N.lt_wf_0 x) as [x _ IH]. intros s.
  destruct (N.eq_dec x 0%N) as [->|Hnz]; [rewrite !pretty_N_go_0; reflexivity|].
  rewrite (pretty_N_go_step x s), (pretty_N_go_step x (s +:+ r)) by lia.
  rewrite IH by (apply N.div_lt; lia). reflexivity.
Qed.

(** The text of a number begins with a digit. *)
Lemma pretty_go_head (x : N) (s : string) :
  (0 < x)%N -> exists d s', (d < 10)%N /\ pretty_N_go x s = String (pretty_N_char d) s'.
Proof.
  revert s. induction (N.lt_wf_0 x) as [x _ IH]. intros s Hx.
  rewrite pretty_N_go_step by exact Hx.
  destruct (N.eq_dec (x / 10)%N 0%N) as [Hz|Hnz].
  - rewrite Hz, pretty_N_go_0. exists (x mod 10)%N, s. split; [apply N.mod_lt; lia|reflexivity].
  - apply IH; [apply N.div_lt; lia|apply N.neq_0_lt_0, Hnz].
Qed.

(** One extraction at the text of a number. *)
Lemma extract_pretty (t : nat) (r : string) :
  fits32 t -> no_digit_next r ->
  exists c s', pretty t +:+ r = String c s' /\ isspace c = false
    /\ extract_unsigned {| ss_rest := pretty t +:+ r; ss_eof := false; ss_fail := false |}
       = (Some t, {| ss_rest := r; ss_eof := is_empty r; ss_fail := false |}).
Proof.
  intros Hfit Hr. unfold pretty, pretty_nat, pretty, pretty_N.
  destruct (decide (N.of_nat t = 0%N)) as [Hz|Hnz].
  - assert (t = 0) as -> by lia.
    exists (pretty_N_char 0), r. split; [reflexivity|]. split; [reflexivity|].
    unfold extract_unsigned. cbn [ss_good ss_eof ss_fail ss_rest negb andb].
    change (skipws ("0" +:+ r)) with (String (pretty_N_char 0) r). cbv beta iota.
    change (Ascii.nat_of_ascii (pretty_N_char 0) =? 45) with false.
    change (Ascii.nat_of_ascii (pretty_N_char 0) =? 43) with false. cbn [orb].
    change (scan_digits (String (pretty_N_char 0) r) 0 0) with (scan_digits r 1 0).
    rewrite (scan_digits_stop r 1 0 Hr). reflexivity.
  - assert (Hpos : (0 < N.of_nat t)%N) by lia.
    destruct (pretty_go_head (N.of_nat t) "" Hpos) as (d & s' & Hd & Hhead).
    destruct (digit_of_char d Hd) as (_ & Hsp & Hminus & Hplus).
    exists (pretty_N_char d), (s' +:+ r). split; [rewrite Hhead; reflexivity|].
    split; [exact Hsp|].
    unfold extract_unsigned. cbn [ss_good ss_eof ss_fail ss_rest negb andb].
    assert (Hskip : skipws (pretty_N_go (N.of_nat t) "" +:+ r)
                    = String (pretty_N_char d) (s' +:+ r)).
    { rewrite Hhead.
      change (String (pretty_N_char d) s' +:+ r) with (String (pretty_N_char d) (s' +:+ r)).
      cbn [skipws]. rewrite Hsp. reflexivity. }
    rewrite Hskip, Hminus, Hplus. cbn [orb].
    replace (String (pretty_N_char d) (s' +:+ r))
      with (pretty_N_go (N.of_nat t) ("" +:+ r)) by (rewrite <- pretty_go_app, Hhead; reflexivity).
    destruct (scan_pretty_go (N.of_nat t) Hpos) as (k & Hk & Hscan).
    rewrite Hscan. change ("" +:+ r) with r. rewrite (scan_digits_stop r _ _ Hr).
    cbn [Nat.mul Nat.add]. rewrite Nat2N.id.
    destruct (Nat.eqb_spec k 0) as [|_]; [lia|].
    destruct (N.leb_spec two32 (N.of_nat t)) as [Hbig|_]; [unfold fits32 in Hfit; lia|].
    reflexivity.
Qed.


Lemma extract_pretty_space (t : nat) (r : string) :
  fits32 t -> no_digit_next r ->
  extract_unsigned {| ss_rest := " " +:+ pretty t +:+ r; ss_eof := false; ss_fail := false |}
  = (Some t, {| ss_rest := r; ss_eof := is_empty r; ss_fail := false |}).
Proof.
  intros Hfit Hr.
  destruct (extract_pretty t r Hfit Hr) as (c & s' & Hhead & Hsp & Hex).
  rewrite <- Hex. unfold extract_unsigned. cbn [ss_good ss_eof ss_fail ss_rest negb andb].
  change (skipws (" " +:+ pretty t +:+ r)) with (skipws (pretty t +:+ r)). reflexivity.
Qed.


Lemma token_loop_numbers (ts : list nat) :
  Forall fits32 ts -> ts <> [] ->
  forall (lead : bool) (acc : list nat) (fuel : nat),
    length ts < fuel ->
    token_loop fuel
      ({| ss_rest := (if lead then " " else "") +:+ join_with " " (pretty <$> ts);
          ss_eof := false; ss_fail := false |}, acc)
    = Some ({| ss_rest := ""; ss_eof := true; ss_fail := false |}, acc ++ ts).
Proof.
  intros Hfits. induction Hfits as [|t ts Ht Hts IH]; intros Hne lead acc fuel Hfuel;
    [contradiction|].
  destruct fuel as [|fuel]; [simpl in Hfuel; lia|].
  assert (Hstep : forall r, no_digit_next r ->
            extract_unsigned {| ss_rest := (if lead then " " else "") +:+ pretty t +:+ r;
                                ss_eof := false; ss_fail := false |}
            = (Some t, {| ss_rest := r; ss_eof := is_empty r; ss_fail := false |})).
  { intros r Hr. destruct lead.
    - apply extract_pretty_space; assumption.
    - destruct (extract_pretty t r Ht Hr) as (_ & _ & _ & _ & Hex). exact Hex. }
  destruct ts as [|t2 ts].
  - cbn [fmap list_fmap join_with]. unfold token_loop. cbn [while_ fst snd ss_good ss_eof ss_fail negb andb].
    specialize (Hstep "" I).
    rewrite string_app_empty_r in Hstep.
    rewrite Hstep. cbn [fst snd is_empty].
    destruct fuel as [|fuel]; [simpl in Hfuel; lia|].
    reflexivity.
  - change (join_with " " (pretty <$> t :: t2 :: ts))
      with (pretty t +:+ " " +:+ join_with " " (pretty <$> t2 :: ts)).
    unfold token_loop. cbn [while_ fst snd ss_good ss_eof ss_fail negb andb].
    rewrite (Hstep (" " +:+ join_with " " (pretty <$> t2 :: ts))) by reflexivity.
    cbn [fst snd]. change (is_empty (" " +:+ _)) with false.
    replace (acc ++ t :: t2 :: ts) with ((acc ++ [t]) ++ t2 :: ts)
      by (rewrite <- app_assoc; reflexivity).
    apply (IH ltac:(discriminate) true (acc ++ [t]) fuel). simpl in *. lia.
Qed.

(** X20.  The input format of [main]: a line of decimal numbers below
    2^32, separated by single spaces, is read as exactly these numbers
    (an empty line as no token at all). *)
Theorem read_tokens_numbers (ts : list nat) (fuel : nat) :
  Forall fits32 ts -> length ts + 2 <= fuel ->
  read_tokens fuel (join_with " " (pretty <$> ts)) = Some ts.
Proof.
  intros Hfits Hfuel. unfold read_tokens, ss_open.
  destruct ts as [|t ts].
  - destruct fuel as [|[|fuel]]; [simpl in Hfuel; lia..|]. reflexivity.
  - rewrite (token_loop_numbers (t :: ts) Hfits ltac:(discriminate) false []) by lia.
    reflexivity.
Qed.

Lemma skipws_length (s : string) : String.length (skipws s) <= String.length s.
Proof.
  induction s as [|c s IH]; [reflexivity|]. cbn [skipws].
  destruct (isspace c); cbn [String.length]; lia.
Qed.

Lemma scan_digits_length (s : string) (count value : nat) :
  String.length (snd (scan_digits s count value)) + fst (fst (scan_digits s count value))
  = String.length s + count.
Proof.
  revert count value. induction s as [|c s IH]; intros count value; [reflexivity|].
  cbn [scan_digits]. destruct (digit_of c) as [d|]; [|reflexivity].
  rewrite IH. cbn [String.length]. lia.
Qed.

(** An extraction that leaves the stream good has taken a digit. *)
Lemma extract_progress (ss : istringstream) :
  ss_good (snd (extract_unsigned ss)) = true ->
  String.length (ss_rest (snd (extract_unsigned ss))) < String.length (ss_rest ss).
Proof.
  unfold extract_unsigned. destruct (negb (ss_good ss)); [cbn; intros; destruct (ss_eof ss); discriminate|].
  pose proof (skipws_length (ss_rest ss)) as Hskip.
  destruct (skipws (ss_rest ss)) as [|c s'] eqn:Hs; [discriminate|].
  set (s1 := if _ || _ then s' else String c s').
  assert (Hs1 : String.length s1 <= String.length (String c s')).
  { unfold s1. destruct (_ || _); cbn [String.length]; lia. }
  pose proof (scan_digits_length s1 0 0) as Hscan.
  destruct (scan_digits s1 0 0) as [[count value] rest]. cbn [fst snd] in Hscan.
  destruct (Nat.eqb_spec count 0) as [->|Hcount]; cbn [orb].
  - cbn. intros. destruct (is_empty rest); discriminate.
  - destruct (two32 <=? N.of_nat value)%N; cbn [snd ss_rest ss_good ss_eof ss_fail].
    + intros. destruct (is_empty rest); discriminate.
    + intros _. lia.
Qed.

Lemma token_loop_ends (n : nat) :
  forall st, String.length (ss_rest (fst st)) <= n ->
    exists r, forall fuel, n + 2 <= fuel -> token_loop fuel st = Some r.
Proof.
  induction n as [n IH] using lt_wf_ind. intros [ss acc] Hlen. cbn [fst] in Hlen.
  destruct (ss_good ss) eqn:Hgood.
  - set (st' := (snd (extract_unsigned ss),
                 match fst (extract_unsigned ss) with
                 | Some token => acc ++ [token]
                 | None => acc
                 end)).
    destruct (ss_good (snd (extract_unsigned ss))) eqn:Hgood'.
    + pose proof (extract_progress ss Hgood') as Hlt.
      destruct n as [|n]; [lia|].
      destruct (IH n ltac:(lia) st') as (r & Hr); [unfold st'; cbn [fst]; lia|].
      exists r. intros fuel Hfuel. destruct fuel as [|fuel]; [lia|].
      unfold token_loop. cbn [while_ fst snd]. rewrite Hgood.
      apply (Hr fuel). lia.
    + exists st'. intros fuel Hfuel. destruct fuel as [|[|fuel]]; [lia..|].
      unfold token_loop. cbn [while_ fst snd]. rewrite Hgood, Hgood'. reflexivity.
  - exists (ss, acc). intros fuel Hfuel. destruct fuel as [|fuel]; [lia|].
    unfold token_loop. cbn [while_ fst snd]. rewrite Hgood. reflexivity.
Qed.

(** X21.  The loop of [main] that reads the tokens of a line always ends,
    after at most one extraction for each character and one more. *)
Theorem read_tokens_total (line : string) :
  exists tokens, forall fuel,
    String.length line + 2 <= fuel -> read_tokens fuel line = Some tokens.
Proof.
  destruct (token_loop_ends (String.length line) (ss_open line, [])) as (r & Hr);
    [reflexivity|].
  exists (snd r). intros fuel Hfuel. unfold read_tokens. rewrite (Hr fuel Hfuel). reflexivity.
Qed.

(** An extraction that yields no token sets [failbit]. *)
Lemma extract_none_fails (ss : istringstream) :
  fst (extract_unsigned ss) = None -> ss_good (snd (extract_unsigned ss)) = false.
Proof.
  unfold extract_unsigned. destruct (negb (ss_good ss)).
  { intros _. cbn. apply andb_false_r. }
  destruct (skipws (ss_rest ss)) as [|c s']; [reflexivity|].
  destruct (scan_digits _ 0 0) as [[count value] rest].
  destruct ((count =? 0) || _); [|discriminate].
  intros _. cbn. apply andb_false_r.
Qed.

Section MainLine.
Context {F : Type} `{FloatOps F} `{FloatTrig F}.

(** X22.  A line that does not begin with a number (an empty line, for
    one) leaves the vector of tokens empty, and [main] runs [predict] on
    no tokens: the arg-max range then starts [dVocab] elements before the
    logits. *)
Theorem main_line_no_tokens (model : Model F) (fuel : nat) (line : string) :
  dims_ok model -> 0 < dVocab model -> 2 <= fuel ->
  fst (extract_unsigned (ss_open line)) = None ->
  read_tokens fuel line = Some []
  /\ main_line model fuel line = Err OutOfBounds.
Proof.
  intros Hdims HdV Hfuel Hnone.
  assert (Hread : read_tokens fuel line = Some []).
  { destruct fuel as [|[|fuel]]; [lia..|].
    unfold read_tokens, token_loop. cbn [while_ fst snd].
    change (ss_good (ss_open line)) with true. cbv iota.
    rewrite Hnone, (extract_none_fails _ Hnone). reflexivity. }
  split; [exact Hread|].
  unfold main_line. rewrite Hread.
  rewrite (predict_empty_out_of_bounds model Hdims HdV). reflexivity.
Qed.
End MainLine.

Lemma read_tokens_numbers_witness :
  read_tokens 5 (join_with " " (pretty <$> [12; 0; 128000])) = Some [12; 0; 128000]
  /\ join_with " " (pretty <$> [12; 0; 128000]) = "12 0 128000".
Proof.
  split; [|vm_compute; reflexivity].
  apply (read_tokens_numbers [12; 0; 128000] 5).
  - repeat constructor; vm_compute; reflexivity.
  - simpl. lia.
Defined.

Lemma main_line_no_tokens_witness :
  main_line model_one_layer 2 "" = Err OutOfBounds.
Proof.
  refine (proj2 (main_line_no_tokens model_one_layer 2 "" model_one_layer_dims _ _ _)).
  - simpl. lia.
  - lia.
  - reflexivity.
Defined.

(* ================================================================== *)
(** * [selfAttention] in exact arithmetic *)

Section AttentionIdeal.

Lemma sum_of_snoc (l : list R) (a : R) : sum_of (l ++ [a]) = (sum_of l + a)%R.
Proof.
  induction l as [|b l IH]; [simpl; rewrite sum_of_cons, sum_of_nil; lra|].
  change ((b :: l) ++ [a]) with (b :: (l ++ [a])). rewrite !sum_of_cons, IH. lra.
Qed.

(** A sum with non-negative weights lies between the bounds of its terms,
    scaled by the sum of the weights. *)
Lemma weighted_sum_bounds (p : list R) (g : nat -> R) (lo hi : R) (n : nat) :
  n <= length p ->
  (forall s, s < n -> (0 <= rd p s)%R) ->
  (forall s, s < n -> (lo <= g s <= hi)%R) ->
  (lo * sum_of (take n p) <= for_ n (fun s sum => sum + rd p s * g s) 0
   <= hi * sum_of (take n p))%R.
Proof.
  induction n as [|n IH]; intros Hn Hp Hg.
  - rewrite for__0. change (take 0 p) with (@nil R). rewrite sum_of_nil. lra.
  - rewrite for__S.
    destruct (lookup_lt_is_Some_2 p n ltac:(lia)) as [a Ha].
    rewrite (take_S_r p n a Ha), sum_of_snoc.
    destruct IH as [IHlo IHhi]; [lia|intros; apply Hp; lia|intros; apply Hg; lia|].
    pose proof (Hp n ltac:(lia)) as Hpn. rewrite (rd_lookup p n a Ha) in *.
    destruct (Hg n ltac:(lia)) as [Hglo Hghi].
    assert (lo * a <= a * g n)%R by nra.
    assert (a * g n <= hi * a)%R by nra.
    lra.
Qed.

(** The outputs of [softmaxInPlace] on the reals. *)
Lemma softmax_weights (x : list R) :
  x <> [] ->
  length (softmaxInPlace x) = length x
  /\ sum_of (softmaxInPlace x) = 1%R
  /\ forall s, s < length x -> (0 < rd (softmaxInPlace x) s)%R.
Proof.
  intros Hx. rewrite softmaxInPlace_map. cbv zeta.
  set (mx := rd x (max_element x)).
  set (es := (fun a => fexp (fsub a mx)) <$> x).
  assert (HS : (0 < sum_of es)%R).
  { unfold es. cbn [fexp fsub Ideal.ops].
    apply (sum_of_exp_pos (fun a => (a - mx)%R) x Hx). }
  assert (Hles : length es = length x) by (unfold es; apply length_fmap).
  split; [rewrite length_fmap; exact Hles|]. split.
  - cbn [fdiv Ideal.ops]. rewrite sum_of_div. apply Rdiv_diag. lra.
  - intros s Hs. rewrite rd_fmap by lia. unfold es. rewrite rd_fmap by lia.
    cbn [fdiv fexp fsub Ideal.ops]. apply Rdiv_lt_0_compat; [apply exp_pos|exact HS].
Qed.

(** X24.  [selfAttention] in exact arithmetic mixes the values of a group:
    an output cell lies between the bounds of the value cells it draws
    on, those of its group and its offset at the positions up to its
    own. *)
Theorem selfAttention_convex (q k v : list R) (dKV dQ dHead sQ iKV iQ i : nat)
    (lo hi : R) :
  fits32 (length q) ->
  length k / (dKV *! dHead) * dKV * dQ * dHead <= length q ->
  sQ < length k / (dKV *! dHead) -> iKV < dKV -> iQ < dQ -> i < dHead ->
  (forall sKV, sKV <= sQ -> (lo <= rd v (kv_index dKV dHead sKV iKV i) <= hi)%R) ->
  exists out,
    selfAttention q k v dKV dQ dHead = Ok out
    /\ (lo <= rd out (q_index dKV dQ dHead sQ iKV iQ i) <= hi)%R.
Proof.
  intros Hfit Hroom HsQ HiKV HiQ Hi Hv.
  destruct (selfAttention_cell q k v dKV dQ dHead sQ iKV iQ i Hfit Hroom HsQ HiKV HiQ Hi)
    as (out & Hout & _ & Hcell).
  exists out. split; [exact Hout|]. rewrite Hcell. unfold attn_value. cbv zeta.
  set (scores := attn_scores q k dKV dQ dHead iKV sQ iQ).
  assert (Hlen : length scores = S sQ).
  { unfold scores, attn_scores.
    assert (Hl : forall n (t : list R),
              length (for_ n (fun sKV scores0 =>
                 wr scores0 sKV
                    (fdiv (for_ dHead (fun i0 sum =>
                             fadd sum (fmul (rd q (sQ *! dKV *! dQ *! dHead +! iKV *! dQ *! dHead
                                                  +! iQ *! dHead +! i0))
                                            (rd k (sKV *! dKV *! dHead +! iKV *! dHead +! i0))))
                             (fofZ 0))
                          (fsqrt (fofN dHead)))) t) = length t).
    { intros n t. apply (for__ind (fun _ t' => length t' = length t)); [reflexivity|].
      intros j t' _ Ht'. rewrite length_wr. exact Ht'. }
    rewrite Hl, length_alloc. rewrite u32_fits; [lia|].
    apply (fits32_le _ (length q)); [|exact Hfit].
    set (dSeq := length k / (dKV *! dHead)) in *.
    assert (dSeq <= dSeq * dKV * dQ * dHead); [|lia].
    rewrite <- !Nat.mul_assoc. rewrite <- (Nat.mul_1_r dSeq) at 1.
    apply Nat.mul_le_mono_l.
    change 1 with (1 * (1 * 1)). apply Nat.mul_le_mono; [lia|apply Nat.mul_le_mono; lia]. }
  assert (Hne : scores <> []) by (intros Hnil; rewrite Hnil in Hlen; discriminate).
  destruct (softmax_weights scores Hne) as (Hlp & Hsum & Hpos).
  pose proof (weighted_sum_bounds (softmaxInPlace scores)
                (fun sKV => rd v (kv_index dKV dHead sKV iKV i)) lo hi (S sQ)) as Hb.
  rewrite <- Hlen, <- Hlp, firstn_all, Hsum in Hb.
  cbn [fadd fmul fofZ Ideal.ops].
  rewrite <- Hlen, <- Hlp.
  destruct Hb as [Hblo Hbhi].
  - lia.
  - intros s Hs. left. apply Hpos. lia.
  - intros s Hs. apply Hv. lia.
  - lra.
Qed.
End AttentionIdeal.

Lemma selfAttention_convex_witness :
  exists out : list R,
    selfAttention [1; 1]%R [1; 1]%R [0; 1]%R 1 1 1 = Ok out
    /\ (0 <= rd out (q_index 1 1 1 1 0 0 0) <= 1)%R.
Proof.
  apply (selfAttention_convex [1; 1]%R [1; 1]%R [0; 1]%R 1 1 1 1 0 0 0 0%R 1%R).
  - lazy. reflexivity.
  - change (2 <= 2). lia.
  - change (1 < 2). lia.
  - lia.
  - lia.
  - lia.
  - intros sKV HsKV. destruct sKV as [|[|sKV]]; [| |lia].
    + change (0 <= 0 <= 1)%R. lra.
    + change (0 <= 1 <= 1)%R. lra.
Defined.

(* ================================================================== *)
(** * The gate of the MLP, and the dimensions of a loaded model *)

Section SwiGluIdeal.

End SwiGluIdeal.

Section LoadedDims.
Context {F : Type} `{FloatOps F} `{FloatTrig F}.

Lemma loadParameters_dims (model m' : Model F) (header : json) (file : istream) :
  loadParameters model header file = Ok m' ->
  dVocab m' = dVocab model /\ dModel m' = dModel model /\ dFFN m' = dFFN model
  /\ dAttnHead m' = dAttnHead model /\ dAttnKV m' = dAttnKV model
  /\ dAttnQ m' = dAttnQ model /\ ropeFreq m' = ropeFreq model.
Proof.
  unfold loadParameters.
  destruct (json_erase header "__metadata__") as [h1|]; cbn [mbind result_bind];
    [|discriminate].
  destruct (max_offset h1) as [mo|]; cbn [mbind result_bind]; [|discriminate].
  destruct (v_reserve _ _) as [data|]; cbn [mbind result_bind]; [|discriminate].
  destruct (read_chunks _ _ _) as [st|]; cbn [mbind result_bind]; [|discriminate].
  destruct (load h1 "embed_tokens") as [e|]; cbn [mbind result_bind]; [|discriminate].
  destruct (load_layers _ _ _) as [ls|]; cbn [mbind result_bind]; [|discriminate].
  destruct (load h1 "norm") as [nm|]; cbn [mbind result_bind]; [|discriminate].
  unfold mret, result_ret. intros [= <-]. repeat split.
Qed.

(** X26.  The loaders hand the forward pass the dimensions it needs: for
    a configuration with an even [head_dim], non-zero sizes and at least
    as many attention heads as key-value heads, the model [loadConfig]
    returns, and the model after [loadParameters], satisfy [dims_fit] for
    every number of positions whose tensors fit 32-bit indexing. *)
Theorem loaded_dims_fit (c : Config F) (m : Model F) (rows : nat) :
  loadConfig c = Ok m ->
  Nat.Even (head_dim c) -> 0 < head_dim c -> (N.of_nat (head_dim c) + 1 < two32)%N ->
  0 < hidden_size c -> 0 < intermediate_size c ->
  0 < num_key_value_heads c -> num_key_value_heads c <= num_attention_heads c ->
  fits32 (dAttnKV m * dAttnQ m * dAttnHead m) ->
  fits32 (rows * hidden_size c) -> fits32 (rows * intermediate_size c) ->
  fits32 (rows * (dAttnKV m * dAttnQ m * dAttnHead m)) ->
  fits32 (rows * vocab_size c) ->
  dims_fit m rows
  /\ forall header file m', loadParameters m header file = Ok m' -> dims_fit m' rows.
Proof.
  intros Hm Heven Hhd Hhd32 Hd Hf Hkv Hq HfW Hfd Hff HfrW Hfv.
  destruct (loadConfig_ok c ltac:(lia) Hhd32) as (m0 & Hm0 & Hfreq & HdH).
  rewrite Hm in Hm0. injection Hm0 as <-.
  assert (Hfields : dModel m = hidden_size c /\ dFFN m = intermediate_size c
                    /\ dVocab m = vocab_size c /\ dAttnKV m = num_key_value_heads c
                    /\ dAttnQ m = num_attention_heads c / num_key_value_heads c).
  { revert Hm. unfold loadConfig.
    destruct (num_key_value_heads c =? 0); [discriminate|].
    destruct (for_u32 _ _ _ _ _); [|discriminate].
    intros [= <-]. repeat split. }
  destruct Hfields as (HdM & HdF & HdV & HdKV & HdQ).
  assert (Hhalf : 2 * length (ropeFreq m) = dAttnHead m).
  { rewrite Hfreq, length_fmap, length_seq, HdH.
    destruct Heven as [h Hh]. rewrite Hh.
    replace (2 * h + 1) with (1 + h * 2) by lia.
    rewrite Nat.div_add by lia. simpl. lia. }
  assert (HQ : 0 < dAttnQ m).
  { rewrite HdQ. apply Nat.div_str_pos. lia. }
  assert (Hfit : dims_fit m rows).
  { unfold dims_fit. rewrite HdM, HdF, HdV, HdH in *. rewrite HdKV at 1.
    repeat split; try assumption; lia. }
  split; [exact Hfit|].
  intros header file m' Hload.
  destruct (loadParameters_dims m m' header file Hload)
    as (HV & HM & HFF & HH & HKV & HQ' & HR).
  unfold dims_fit. rewrite HV, HM, HFF, HH, HKV, HQ', HR. exact Hfit.
Qed.
End LoadedDims.


Lemma loaded_dims_fit_witness :
  exists m : Model R, loadConfig (cfg0 4 2 4) = Ok m /\ dims_fit m 3.
Proof.
  eexists. split; [reflexivity|].
  refine (proj1 (loaded_dims_fit (cfg0 4 2 4) _ 3 eq_refl _ _ _ _ _ _ _ _ _ _ _ _)).
  - exists 2. reflexivity.
  - simpl. lia.
  - lazy. reflexivity.
  - simpl. lia.
  - simpl. lia.
  - simpl. lia.
  - simpl. lia.
  - lazy. reflexivity.
  - lazy. reflexivity.
  - lazy. reflexivity.
  - lazy. reflexivity.
  - lazy. reflexivity.
Defined.

(* ================================================================== *)
(** * NaN in binary32 *)

Section Binary32NaN.
Variable exp_finite : bool -> positive -> Z -> spec_float.

Lemma ltb_nan_l (y : spec_float) : SFltb S754_nan y = false.
Proof. reflexivity. Qed.

Lemma ltb_nan_r (x : spec_float) : SFltb x S754_nan = false.
Proof. destruct x as [[|]|[|]| |[|] m e]; reflexivity. Qed.

(** X27.  [std::max_element] on binary32 values with NaN among them: every
    comparison with a NaN is false, so a NaN in front stays the largest
    (the result is 0), and no NaN behind the front is ever chosen. *)
Theorem max_element_nan (x : list spec_float) :
  (@rd _ (Binary32.ops exp_finite) x 0 = S754_nan ->
   @max_element _ (Binary32.ops exp_finite) x = 0)
  /\ (@max_element _ (Binary32.ops exp_finite) x <> 0 ->
      @rd _ (Binary32.ops exp_finite) x (@max_element _ (Binary32.ops exp_finite) x)
      <> S754_nan).
Proof.
  unfold max_element. generalize (length x - 1). intros n. split.
  - intros Hnan. induction n as [|n IH]; [apply for__0|].
    rewrite for__S, IH, Hnan. cbn [fltb Binary32.ops]. reflexivity.
  - induction n as [|n IH]; [rewrite for__0; congruence|].
    rewrite for__S. cbn [fltb Binary32.ops].
    set (m := for_ n _ 0) in *.
    destruct (SFltb (rd x m) (rd x (S n))) eqn:Hlt.
    + intros _ Hnan. rewrite Hnan, ltb_nan_r in Hlt. discriminate.
    + exact IH.
Qed.

Lemma add_nan_r (a : spec_float) : SFadd Binary32.prec Binary32.emax a S754_nan = S754_nan.
Proof. destruct a as [[|]|[|]| |[|] m e]; reflexivity. Qed.

Lemma fold_add_nan (l : list spec_float) :
  fold_left (SFadd Binary32.prec Binary32.emax) l S754_nan = S754_nan.
Proof. induction l as [|a l IH]; [reflexivity|]. simpl. exact IH. Qed.

Lemma sum_of_nan (l : list spec_float) (a : spec_float) :
  S754_nan ∈ l ->
  fold_left (SFadd Binary32.prec Binary32.emax) l a = S754_nan.
Proof.
  revert a. induction l as [|b l IH]; intros a Hin; [inversion Hin|].
  apply elem_of_cons in Hin as [<-|Hin]; simpl.
  - rewrite add_nan_r. apply fold_add_nan.
  - apply IH, Hin.
Qed.

Lemma div_nan_r (a : spec_float) : SFdiv Binary32.prec Binary32.emax a S754_nan = S754_nan.
Proof. destruct a as [[|]|[|]| |[|] m e]; reflexivity. Qed.

Lemma sub_nan_l (a : spec_float) : SFsub Binary32.prec Binary32.emax S754_nan a = S754_nan.
Proof. reflexivity. Qed.

End Binary32NaN.

(* ================================================================== *)
(** * Logits beyond 32-bit indexing *)

Section Beyond.
Context {F : Type} `{FloatOps F}.

Lemma rd_alloc (n c : nat) : rd (alloc n) c = funinit.
Proof.
  unfold rd, alloc. revert c. induction n as [|n IH]; intros [|c]; simpl; auto.
Qed.

(** [project] stores through an [unsigned] index: a cell at 2^32 or
    beyond is never written. *)
Lemma project_beyond (x y : list F) (weight : nat -> Z) (dIn dOut c : nat) :
  project x weight dIn dOut = Ok y -> ~ fits32 c -> rd y c = funinit.
Proof.
  unfold project. destruct (Nat.eqb_spec dIn 0) as [|_]; [discriminate|].
  intros [= <-] Hc.
  set (L := length x / dIn * dOut).
  assert (Hgoal : length (for_ dOut (fun j y =>
                     for_ (length x / dIn) (fun n y =>
                       let dot := for_ dIn (fun i dot =>
                                    fadd dot (fmul (rd x (n *! dIn +! i))
                                                   (bf16_to_float (weight (j *! dIn +! i)))))
                                    (fofZ 0) in
                       wr y (n *! dOut +! j) dot) y) (alloc L)) = L
                  /\ rd (for_ dOut (fun j y =>
                     for_ (length x / dIn) (fun n y =>
                       let dot := for_ dIn (fun i dot =>
                                    fadd dot (fmul (rd x (n *! dIn +! i))
                                                   (bf16_to_float (weight (j *! dIn +! i)))))
                                    (fofZ 0) in
                       wr y (n *! dOut +! j) dot) y) (alloc L)) c = rd (alloc L) c).
  { apply for__miss; [|apply length_alloc].
    intros j t _ Ht. apply for__miss; [|exact Ht].
    intros n u _ Hu. cbv zeta. rewrite length_wr. split; [exact Hu|].
    apply rd_wr_ne. intros E. apply Hc. rewrite <- E. apply u32_lt. }
  exact (eq_trans (proj2 Hgoal) (rd_alloc L c)).
Qed.
End Beyond.

Lemma wide_vocab_N : N.of_nat wide_vocab = 2147483648%N.
Proof. apply N2Nat.id. Qed.

Lemma nth_zero_tail (b0 b1 b2 b3 : Byte.byte) (n k : nat) :
  4 <= k -> nth k (b0 :: b1 :: b2 :: b3 :: replicate n Byte.x00) Byte.x00 = Byte.x00.
Proof.
  intros Hk. destruct k as [|[|[|[|k]]]]; try lia. cbn [nth].
  clear Hk. revert k. induction n as [|n IH]; intros [|k]; simpl; auto.
Qed.

Lemma wide_weight_0 : weights model_wide {| p_data := 0 |} 0 = (-16512)%Z.
Proof. reflexivity. Qed.

Lemma wide_weight_1 : weights model_wide {| p_data := 0 |} 1 = 16256%Z.
Proof. reflexivity. Qed.

Lemma wide_norm_0 : weights model_wide {| p_data := 2 |} 0 = 16256%Z.
Proof. reflexivity. Qed.

Lemma wide_weight_rest (j : nat) :
  2 <= j -> weights model_wide {| p_data := 0 |} j = 0%Z.
Proof.
  intros Hj. unfold weights, get_bf16. cbn [_parameterData model_wide v_store p_data].
  unfold wide_store. rewrite !nth_zero_tail by lia. reflexivity.
Qed.

Lemma two_pow_23 : powerRZ 2 (-23) = (/ 8388608)%R.
Proof.
  change (powerRZ 2 (-23)) with (/ 2 ^ 23)%R. rewrite pow_IZR. reflexivity.
Qed.

Lemma bf16_one : @bf16_to_float R Ideal.ops 16256 = 1%R.
Proof.
  unfold bf16_to_float. cbn [fbits Ideal.ops].
  replace (Binary32.of_bits (bf16_bits 16256)) with (S754_finite false 8388608 (-23))
    by (vm_compute; reflexivity).
  unfold Ideal.value. cbn [cond_Zopp Z.opp]. rewrite two_pow_23. lra.
Qed.

Lemma bf16_minus_one : @bf16_to_float R Ideal.ops (-16512) = (-1)%R.
Proof.
  unfold bf16_to_float. cbn [fbits Ideal.ops].
  replace (Binary32.of_bits (bf16_bits (-16512))) with (S754_finite true 8388608 (-23))
    by (vm_compute; reflexivity).
  unfold Ideal.value. cbn [cond_Zopp]. rewrite opp_IZR, two_pow_23. lra.
Qed.

Lemma bf16_zero : @bf16_to_float R Ideal.ops 0 = 0%R.
Proof. reflexivity. Qed.

Lemma max_element_zeros (x : list R) :
  (forall i, i < length x -> rd x i = 0%R) -> max_element x = 0.
Proof.
  intros Hz. destruct x as [|a x]; [reflexivity|].
  destruct (max_element_first_max (a :: x)) as (Hlt & _ & Hfirst); [discriminate|].
  destruct (max_element (a :: x)) as [|m] eqn:Hm; [reflexivity|].
  specialize (Hfirst 0). rewrite (Hz 0), (Hz (S m)) in Hfirst by (simpl in *; lia).
  assert (0 < 0)%R by (apply Hfirst; lia). lra.
Qed.

(** The arg-max of a buffer whose entry 1 is above every other entry. *)
Lemma max_element_at_1 (x : list R) :
  1 < length x ->
  (forall i, i < length x -> i <> 1 -> (rd x i < rd x 1)%R) ->
  max_element x = 1.
Proof.
  intros Hlen Hmax.
  destruct (max_element_first_max x) as (Hlt & Hall & _).
  { destruct x; [simpl in Hlen; lia|discriminate]. }
  destruct (Nat.eq_dec (max_element x) 1) as [E|E]; [exact E|].
  specialize (Hall 1 Hlen). specialize (Hmax _ Hlt E). lra.
Qed.

Lemma wide_tokens_fit : fits32 (length [1; 1; 1] * 1).
Proof. vm_compute. reflexivity. Qed.

Lemma wide_embedding :
  embeddingLookup [1; 1; 1] (weights model_wide (embedTokens model_wide)) 1
  = [1; 1; 1]%R.
Proof.
  apply rd_ext.
  - rewrite embeddingLookup_length. reflexivity.
  - rewrite embeddingLookup_length. intros i Hi.
    replace i with (i * 1 + 0) at 1 by lia.
    rewrite embeddingLookup_cell; [|exact wide_tokens_fit|simpl in *; lia|lia].
    destruct i as [|[|[|i]]]; [| | |simpl in Hi; lia];
      (change (weights model_wide (embedTokens model_wide) _)
         with (weights model_wide {| p_data := 0 |} 1);
       rewrite wide_weight_1; apply bf16_one).
Qed.

Lemma wide_vocab_fits (j : nat) : j < wide_vocab -> fits32 j.
Proof.
  intros Hj. pose proof wide_vocab_N as HV. unfold fits32, two32. lia.
Qed.

(** The value [rmsNorm] gives a row that holds the single entry 1. *)
Lemma wide_norm_value :
  rms_value [1%R] (weights model_wide (finalNorm model_wide)) 1 1%R 0 0
  = (/ sqrt 2)%R.
Proof.
  unfold rms_value, for_. cbn [seq fold_left].
  change (0 +! 0) with 0.
  change (weights model_wide (finalNorm model_wide) 0)
    with (weights model_wide {| p_data := 2 |} 0).
  rewrite wide_norm_0, bf16_one.
  cbn [rd nth fadd fmul fdiv fsqrt fofZ Ideal.ops]. unfold fofN.
  cbn [fofZ Ideal.ops Z.of_nat Pos.of_succ_nat].
  change (Z.of_nat 1) with 1%Z.
  replace ((0 + 1 * 1) / 1 + 1)%R with 2%R by lra.
  unfold Rdiv. ring.
Qed.

Lemma inv_sqrt2_pos : (0 < / sqrt 2)%R.
Proof. apply Rinv_0_lt_compat, sqrt_lt_R0. lra. Qed.

(** Column [j] of the logits of a single row [last]. *)
Lemma wide_logit (last : list R) (j : nat) :
  j < wide_vocab ->
  dot_row last (weights model_wide (embedTokens model_wide)) 1 0 j
  = (0 + rd last 0 * bf16_to_float (weights model_wide {| p_data := 0 |} j))%R.
Proof.
  intros Hj. unfold dot_row, for_. cbn [seq fold_left].
  change (0 *! 1 +! 0) with 0.
  replace (j *! 1 +! 0) with j.
  - reflexivity.
  - rewrite Nat.mul_1_r, (u32_fits j) by (apply wide_vocab_fits, Hj).
    rewrite Nat.add_0_r, u32_fits by (apply wide_vocab_fits, Hj). reflexivity.
Qed.

Lemma wide_hidden :
  forward_layers model_wide
    (embeddingLookup [1; 1; 1] (weights model_wide (embedTokens model_wide))
                     (dModel model_wide))
  = Ok [1; 1; 1]%R.
Proof. change (dModel model_wide) with 1. rewrite wide_embedding. reflexivity. Qed.


(* ================================================================== *)
(** * [predict] returns *)

Section PredictReturns.
Context {F : Type} `{FloatOps F} `{FloatTrig F}.

(** The dimensions of [dims_fit] leave no divisor of the forward pass
    zero. *)
Lemma dims_fit_ok (model : Model F) (rows : nat) :
  dims_fit model rows -> dims_ok model.
Proof.
  intros Hfit.
  destruct (dims_fit_widths model rows Hfit) as (HQ & HQH & HKH & Hhd & Hq0 & Hk0 & _).
  destruct Hfit as (Hd & Hf & _).
  unfold dims_ok. rewrite Hhd, HQ, HQH, HKH. repeat split; lia.
Qed.

End PredictReturns.


